(** * pkg/util/tracing/tracer.go: the Tracer, its propagation codec and registry

    A shallow embedding of [tracer.go].  Go values are embedded as follows:
    - [uint64] is a [Z] in the range [0 .. 2^64 - 1];
    - a Go [string] is a [string] (a sequence of bytes);
    - [map[string]T] is a [gmap string T] (a nil map reads like an empty one);
    - pointers are compared by address, so objects that are compared by
      identity ([*Tracer], [*shadowTracer], [*spanGroup]) carry an address;
    - [panic] and multiple return values are explicit in the result types;
    - what the code reads from its environment (the cluster setting, the
      random source, the clock, the order in which [range] visits a map) is
      an explicit argument. *)

From Stdlib Require Import ZArith Ascii String List Lia Bool.
From stdpp Require Import base option list gmap strings sets fin_maps.

Local Open Scope string_scope.
Local Open Scope Z_scope.

(** ** The Go standard library functions the file calls *)

Module GoStrings.

Definition byteVal (c : ascii) : Z := Z.of_N (N_of_ascii c).

Definition byteOf (b : Z) : ascii := ascii_of_N (Z.to_N b).

(** [c >= utf8.RuneSelf] fails for every byte of an ASCII string. *)
Definition isASCII (s : string) : bool :=
  forallb (fun c => byteVal c <? 128) (list_ascii_of_string s).

Definition isUpperByte (c : ascii) : bool :=
  (65 <=? byteVal c) && (byteVal c <=? 90).

Definition hasUpper (s : string) : bool :=
  existsb isUpperByte (list_ascii_of_string s).

Definition lowerByte (c : ascii) : ascii :=
  if isUpperByte c then byteOf (byteVal c + 32) else c.

Fixpoint mapBytes (f : ascii -> ascii) (s : string) : string :=
  match s with
  | EmptyString => EmptyString
  | String c s' => String (f c) (mapBytes f s')
  end.

(** [strings.HasPrefix(s, prefix)]. *)
Fixpoint HasPrefix (s pre : string) : bool :=
  match pre, s with
  | EmptyString, _ => true
  | String _ _, EmptyString => false
  | String p pre', String c s' =>
      if Ascii.eqb p c then HasPrefix s' pre' else false
  end.

Fixpoint dropBytes (n : nat) (s : string) : string :=
  match n, s with
  | O, _ => s
  | S _, EmptyString => EmptyString
  | S n', String _ s' => dropBytes n' s'
  end.

(** [strings.TrimPrefix(s, prefix)]: [s[len(prefix):]] when [s] starts with
    [prefix], [s] otherwise. *)
Definition TrimPrefix (s pre : string) : string :=
  if HasPrefix s pre then dropBytes (String.length pre) s else s.

Section ToLower.
(** [strings.Map(unicode.ToLower, s)], the path [strings.ToLower] takes
    when [s] holds a byte outside ASCII.  It depends on Go's Unicode
    tables and is left open: every result below holds for any such
    function. *)
Variable unicodeToLower : string -> string.

(** [strings.ToLower(s)]. *)
Definition ToLower (s : string) : string :=
  if isASCII s then
    if hasUpper s then mapBytes lowerByte s else s
  else unicodeToLower s.
End ToLower.

End GoStrings.

Module GoStrconv.
Import GoStrings.

Inductive NumError := ErrSyntax | ErrRange.

Definition maxUint64 : Z := 2 ^ 64 - 1.

(** [const digits = "0123456789abcdefghijklmnopqrstuvwxyz"] *)
Definition digits : string := "0123456789abcdefghijklmnopqrstuvwxyz".

Definition digitChar (d : Z) : ascii :=
  match String.get (Z.to_nat d) digits with
  | Some c => c
  | None => "0"%char
  end.

(** The power-of-two branch of [formatBits] for base 16:
    [for u >= b { i--; a[i] = digits[uint(u)&m]; u >>= shift }]
    followed by [i--; a[i] = digits[uint(u)]].  The loop shifts a [uint64]
    at most fifteen times; [fuel] bounds it, and [FormatUint16] gives it
    sixteen, so the branch for no fuel left is never reached on a [uint64]
    (see [parseDigits_formatBits]). *)
Fixpoint formatBits (fuel : nat) (u : Z) (a : string) : string :=
  match fuel with
  | O => String (digitChar (Z.land u 15)) a
  | S fuel' =>
      if 16 <=? u
      then formatBits fuel' (Z.shiftr u 4) (String (digitChar (Z.land u 15)) a)
      else String (digitChar u) a
  end.

(** [strconv.FormatUint(u, 16)]. *)
Definition FormatUint16 (u : Z) : string := formatBits 16 u "".

(** [lower(c) = c | ('x' - 'X')]. *)
Definition lower (b : Z) : Z := Z.lor b 32.

(** The digit a byte stands for in [ParseUint]; [None] is the [default]
    branch of its [switch] (with an explicit base, [_] lands there too). *)
Definition digitVal (c : ascii) : option Z :=
  let b := byteVal c in
  if (48 <=? b) && (b <=? 57) then Some (b - 48)
  else if (97 <=? lower b) && (lower b <=? 122) then Some (lower b - 97 + 10)
  else None.

(** The digit loop of [ParseUint] for an explicit [base] and [bitSize = 64];
    [n] is the value accumulated so far. *)
Fixpoint parseDigits (base : Z) (s : string) (n : Z) : Z * option NumError :=
  match s with
  | EmptyString => (n, None)
  | String c s' =>
      match digitVal c with
      | None => (0, Some ErrSyntax)
      | Some d =>
          if base <=? d then (0, Some ErrSyntax)
          else if maxUint64 / base + 1 <=? n then (maxUint64, Some ErrRange)
          else
            let n' := (n * base) mod 2 ^ 64 in
            let n1 := (n' + d) mod 2 ^ 64 in
            if (n1 <? n') || (maxUint64 <? n1) then (maxUint64, Some ErrRange)
            else parseDigits base s' n1
      end
  end.

(** [strconv.ParseUint(s, 16, 64)]: the empty string is a syntax error, and
    no base prefix is read since the base is given. *)
Definition ParseUint16 (s : string) : Z * option NumError :=
  match s with
  | EmptyString => (0, Some ErrSyntax)
  | _ => parseDigits 16 s 0
  end.

End GoStrconv.

Import GoStrings GoStrconv.

(** ** Values of the opentracing API and of the tracing package *)

(** A call either returns or panics. *)
Inductive outcome (A : Type) : Type :=
| Returns (a : A)
| Panics (msg : string).
Arguments Returns {A} a.
Arguments Panics {A} msg.

(** The error values the file returns; [ErrShadow] stands for whatever error
    a shadow tracer hands back. *)
Inductive error : Type :=
| ErrUnsupportedFormat
| ErrInvalidCarrier
| ErrInvalidSpanContext
| ErrSpanContextCorrupted
| ErrShadow (msg : string).

(** The [format interface{}] argument: opentracing's three builtin formats,
    or any other value. *)
Inductive Format : Type :=
| Binary
| TextMap
| HTTPHeaders
| CustomFormat (tag : nat).

(** [format != opentracing.HTTPHeaders && format != opentracing.TextMap] *)
Definition unsupportedFormat (format : Format) : bool :=
  match format with
  | HTTPHeaders | TextMap => false
  | _ => true
  end.

(** The [carrier interface{}] argument: an [opentracing.TextMapCarrier]
    (a [map[string]string], both [TextMapReader] and [TextMapWriter]), or a
    value with neither capability. *)
Inductive Carrier : Type :=
| TextMapCarrier (m : gmap string string)
| OpaqueCarrier.

(** [opentracing.SpanReferenceType] is an [int]; the library names two. *)
Inductive SpanReferenceType : Type :=
| ChildOfRef
| FollowsFromRef
| OtherRefType (n : nat).

Definition isParentRefType (ty : SpanReferenceType) : bool :=
  match ty with
  | ChildOfRef | FollowsFromRef => true
  | OtherRefType _ => false
  end.

(** Modelled from the spec: [RecordingType] is declared in span.go; the spec
    has two recording kinds, and [tracer.go] names [SnowballRecording].  The
    other kind is the zero value of the type. *)
Inductive RecordingType : Type :=
| SingleNodeRecording
| SnowballRecording.

(** Tag values: string, boolean or number. *)
Inductive TagValue : Type :=
| TagString (s : string)
| TagBool (b : bool)
| TagNumber (z : Z).

(** [Snowball] is set as Baggage on traces which are used for snowball
    tracing. *)
Definition Snowball : string := "sb".

Definition maxLogsPerSpan : Z := 1000.

Definition prefixTracerState : string := "crdb-tracer-".
Definition prefixBaggage : string := "crdb-baggage-".
Definition prefixShadow : string := "crdb-shadow-".
Definition fieldNameTraceID : string := prefixTracerState ++ "traceid".
Definition fieldNameSpanID : string := prefixTracerState ++ "spanid".
Definition fieldNameShadowType : string := prefixTracerState ++ "shadowtype".

Section Tracing.

(** The span contexts of the shadow tracer's own implementation. *)
Context {ShadowCtx : Type}.

(** Modelled from the spec: [shadowTracer] is declared in shadow.go; it wraps
    an external tracer and its manager.  [tracer.go] uses its type name, its
    [Inject] (here: the [Set] calls it makes on the writer it is given, and
    its error) and its [Extract]. *)
Record shadowTracer : Type := {
  shadowAddr : nat;
  Typ : string;
  shadowInject : option ShadowCtx -> Format -> list (string * string) * option error;
  shadowExtract : Format -> gmap string string -> option ShadowCtx * option error
}.

(** Modelled from the spec: [spanContext] is declared in span.go; these are
    the fields [tracer.go] reads and writes. *)
Record spanContext : Type := {
  TraceID : Z;
  SpanID : Z;
  Baggage : gmap string string;
  shadowTr : option shadowTracer;
  shadowCtx : option ShadowCtx;
  recordingGroup : option nat;
  recordingType : RecordingType
}.

(** A value of the interface [opentracing.SpanContext]: nil, the noop
    context, a [*spanContext], or a context of some other implementation. *)
Inductive SpanContext : Type :=
| nilSpanContext
| noopSpanContext
| spanContextPtr (sc : spanContext)
| foreignSpanContext.

(** The options of opentracing-go that [StartSpan] applies, and the
    package's own [recordableOption]. *)
Inductive StartSpanOption : Type :=
| SpanReference (ty : SpanReferenceType) (ReferencedContext : SpanContext)
| StartTime (t : Z)
| Tags (m : gmap string TagValue)
| Tag (k : string) (v : TagValue)
| recordableOption.

(** [Recordable] is a StartSpanOption that forces creation of a real span. *)
Definition Recordable : StartSpanOption := recordableOption.

Definition ChildOf (ctx : SpanContext) : StartSpanOption := SpanReference ChildOfRef ctx.
Definition FollowsFrom (ctx : SpanContext) : StartSpanOption := SpanReference FollowsFromRef ctx.

(** [opentracing.StartSpanOptions]; the zero [time.Time] is [0]. *)
Record StartSpanOptions : Type := {
  References : list (SpanReferenceType * SpanContext);
  sso_StartTime : Z;
  sso_Tags : gmap string TagValue
}.

(** [o.Apply(&sso)] *)
Definition Apply (o : StartSpanOption) (sso : StartSpanOptions) : StartSpanOptions :=
  match o with
  | SpanReference ty ctx =>
      {| References := References sso ++ [(ty, ctx)];
         sso_StartTime := sso_StartTime sso; sso_Tags := sso_Tags sso |}
  | StartTime t =>
      {| References := References sso; sso_StartTime := t; sso_Tags := sso_Tags sso |}
  | Tags m =>
      {| References := References sso; sso_StartTime := sso_StartTime sso;
         sso_Tags := map_fold (fun k v acc => <[k:=v]> acc) (sso_Tags sso) m |}
  | Tag k v =>
      {| References := References sso; sso_StartTime := sso_StartTime sso;
         sso_Tags := <[k:=v]> (sso_Tags sso) |}
  | recordableOption => sso
  end.

Definition isRecordableOption (o : StartSpanOption) : bool :=
  match o with
  | recordableOption => true
  | _ => false
  end.

(** The span a shadow tracer opened for one of ours: what [linkShadowSpan]
    passed to the shadow tracer's [StartSpan], and the tags mirrored since. *)
Record shadowSpanT : Type := {
  sh_operation : string;
  sh_startTime : Z;
  sh_tags : gmap string TagValue;
  sh_parent : option (SpanReferenceType * ShadowCtx)
}.

(** The x/net/trace instance of a span: [trace.New(family, title)] and
    [SetMaxEvents]. *)
Record netTrace : Type := {
  nt_family : string;
  nt_title : string;
  nt_maxEvents : Z
}.

(** Modelled from the spec: [span] is declared in span.go; these are the
    fields [StartSpan] fills. *)
Record span : Type := {
  tracer : nat;
  operation : string;
  startTime : Z;
  duration : Z;
  span_TraceID : Z;
  span_SpanID : Z;
  parentSpanID : Z;
  span_shadowTr : option shadowTracer;
  shadowSpan : option shadowSpanT;
  netTr : option netTrace;
  span_Baggage : gmap string string;
  tags : gmap string TagValue;
  span_recordingGroup : option nat;
  span_recordingType : RecordingType
}.

(** A value of the interface [opentracing.Span] that [StartSpan] returns:
    [&t.noopSpan] of the tracer at an address, or a new [*span]. *)
Inductive Span : Type :=
| noopSpanPtr (tracerAddr : nat)
| spanPtr (s : span).

Record Tracer : Type := {
  addr : nat;
  forceRealSpans : bool;
  shadowTracerPtr : option shadowTracer
}.

(** [&t.noopSpan] *)
Definition noopSpanOf (t : Tracer) : Span := noopSpanPtr (addr t).

Definition getShadowTracer (t : Tracer) : option shadowTracer := shadowTracerPtr t.

Definition SetForceRealSpans (t : Tracer) (v : bool) : bool * Tracer :=
  (forceRealSpans t,
   {| addr := addr t; forceRealSpans := v; shadowTracerPtr := shadowTracerPtr t |}).

(** What [StartSpan] reads and changes outside the Tracer: the cluster
    setting [trace.debug.enable], the global random source, the clock and the
    [spanGroup]s allocated so far. *)
Record World : Type := {
  enableNetTrace : bool;
  randSrc : nat -> Z;
  randPos : nat;
  clock : Z;
  spanGroups : gset nat
}.

(** [rand.Int63()] *)
Definition Int63 (w : World) : Z * World :=
  (randSrc w (randPos w) mod 2 ^ 63,
   {| enableNetTrace := enableNetTrace w; randSrc := randSrc w;
      randPos := S (randPos w); clock := clock w; spanGroups := spanGroups w |}).

(** [new(spanGroup)] *)
Definition newSpanGroup (w : World) : nat * World :=
  let g := fresh (spanGroups w) in
  (g,
   {| enableNetTrace := enableNetTrace w; randSrc := randSrc w;
      randPos := randPos w; clock := clock w;
      spanGroups := {[g]} ∪ spanGroups w |}).

(** ** Spans *)

(** [&span{tracer: t, operation: operationName, startTime: sso.StartTime}] *)
Definition newSpan (t : Tracer) (operationName : string) (start : Z) : span :=
  {| tracer := addr t; operation := operationName; startTime := start;
     duration := 0; span_TraceID := 0; span_SpanID := 0; parentSpanID := 0;
     span_shadowTr := None; shadowSpan := None; netTr := None;
     span_Baggage := ∅; tags := ∅;
     span_recordingGroup := None; span_recordingType := SingleNodeRecording |}.

Definition set_startTime (v : Z) (s : span) : span :=
  {| tracer := tracer s; operation := operation s; startTime := v;
     duration := duration s; span_TraceID := span_TraceID s;
     span_SpanID := span_SpanID s; parentSpanID := parentSpanID s;
     span_shadowTr := span_shadowTr s; shadowSpan := shadowSpan s;
     netTr := netTr s; span_Baggage := span_Baggage s; tags := tags s;
     span_recordingGroup := span_recordingGroup s;
     span_recordingType := span_recordingType s |}.

Definition set_duration (v : Z) (s : span) : span :=
  {| tracer := tracer s; operation := operation s; startTime := startTime s;
     duration := v; span_TraceID := span_TraceID s;
     span_SpanID := span_SpanID s; parentSpanID := parentSpanID s;
     span_shadowTr := span_shadowTr s; shadowSpan := shadowSpan s;
     netTr := netTr s; span_Baggage := span_Baggage s; tags := tags s;
     span_recordingGroup := span_recordingGroup s;
     span_recordingType := span_recordingType s |}.

Definition set_TraceID (v : Z) (s : span) : span :=
  {| tracer := tracer s; operation := operation s; startTime := startTime s;
     duration := duration s; span_TraceID := v;
     span_SpanID := span_SpanID s; parentSpanID := parentSpanID s;
     span_shadowTr := span_shadowTr s; shadowSpan := shadowSpan s;
     netTr := netTr s; span_Baggage := span_Baggage s; tags := tags s;
     span_recordingGroup := span_recordingGroup s;
     span_recordingType := span_recordingType s |}.

Definition set_SpanID (v : Z) (s : span) : span :=
  {| tracer := tracer s; operation := operation s; startTime := startTime s;
     duration := duration s; span_TraceID := span_TraceID s;
     span_SpanID := v; parentSpanID := parentSpanID s;
     span_shadowTr := span_shadowTr s; shadowSpan := shadowSpan s;
     netTr := netTr s; span_Baggage := span_Baggage s; tags := tags s;
     span_recordingGroup := span_recordingGroup s;
     span_recordingType := span_recordingType s |}.

Definition set_parentSpanID (v : Z) (s : span) : span :=
  {| tracer := tracer s; operation := operation s; startTime := startTime s;
     duration := duration s; span_TraceID := span_TraceID s;
     span_SpanID := span_SpanID s; parentSpanID := v;
     span_shadowTr := span_shadowTr s; shadowSpan := shadowSpan s;
     netTr := netTr s; span_Baggage := span_Baggage s; tags := tags s;
     span_recordingGroup := span_recordingGroup s;
     span_recordingType := span_recordingType s |}.

Definition set_shadow (tr : option shadowTracer) (sp : option shadowSpanT) (s : span) : span :=
  {| tracer := tracer s; operation := operation s; startTime := startTime s;
     duration := duration s; span_TraceID := span_TraceID s;
     span_SpanID := span_SpanID s; parentSpanID := parentSpanID s;
     span_shadowTr := tr; shadowSpan := sp;
     netTr := netTr s; span_Baggage := span_Baggage s; tags := tags s;
     span_recordingGroup := span_recordingGroup s;
     span_recordingType := span_recordingType s |}.

Definition set_netTr (v : option netTrace) (s : span) : span :=
  {| tracer := tracer s; operation := operation s; startTime := startTime s;
     duration := duration s; span_TraceID := span_TraceID s;
     span_SpanID := span_SpanID s; parentSpanID := parentSpanID s;
     span_shadowTr := span_shadowTr s; shadowSpan := shadowSpan s;
     netTr := v; span_Baggage := span_Baggage s; tags := tags s;
     span_recordingGroup := span_recordingGroup s;
     span_recordingType := span_recordingType s |}.

Definition set_Baggage (v : gmap string string) (s : span) : span :=
  {| tracer := tracer s; operation := operation s; startTime := startTime s;
     duration := duration s; span_TraceID := span_TraceID s;
     span_SpanID := span_SpanID s; parentSpanID := parentSpanID s;
     span_shadowTr := span_shadowTr s; shadowSpan := shadowSpan s;
     netTr := netTr s; span_Baggage := v; tags := tags s;
     span_recordingGroup := span_recordingGroup s;
     span_recordingType := span_recordingType s |}.

Definition set_tags (v : gmap string TagValue) (s : span) : span :=
  {| tracer := tracer s; operation := operation s; startTime := startTime s;
     duration := duration s; span_TraceID := span_TraceID s;
     span_SpanID := span_SpanID s; parentSpanID := parentSpanID s;
     span_shadowTr := span_shadowTr s; shadowSpan := shadowSpan s;
     netTr := netTr s; span_Baggage := span_Baggage s; tags := v;
     span_recordingGroup := span_recordingGroup s;
     span_recordingType := span_recordingType s |}.

Definition set_recording (g : option nat) (ty : RecordingType) (s : span) : span :=
  {| tracer := tracer s; operation := operation s; startTime := startTime s;
     duration := duration s; span_TraceID := span_TraceID s;
     span_SpanID := span_SpanID s; parentSpanID := parentSpanID s;
     span_shadowTr := span_shadowTr s; shadowSpan := shadowSpan s;
     netTr := netTr s; span_Baggage := span_Baggage s; tags := tags s;
     span_recordingGroup := g; span_recordingType := ty |}.

(** Modelled from the spec: [span.SetTag] is defined in span.go.  The span
    owns a mapping of tag name to value, and a shadow span linked to it is
    kept for later tag mirroring. *)
Definition SetTag (k : string) (v : TagValue) (s : span) : span :=
  let s := set_tags (<[k:=v]> (tags s)) s in
  match shadowSpan s with
  | Some sh =>
      set_shadow (span_shadowTr s)
        (Some {| sh_operation := sh_operation sh; sh_startTime := sh_startTime sh;
                 sh_tags := <[k:=v]> (sh_tags sh); sh_parent := sh_parent sh |}) s
  | None => s
  end.

(** Modelled from the spec: [linkShadowSpan] is defined in shadow.go.  It
    opens a mirrored span in the given shadow tracer, linking it to a parent
    shadow context (if any) with the stated relationship kind, and stores the
    shadow tracer and the mirrored span on the owning span. *)
Definition linkShadowSpan (s : span) (tr : shadowTracer)
    (parentShadowCtx : option ShadowCtx) (parentType : SpanReferenceType) : span :=
  set_shadow (Some tr)
    (Some {| sh_operation := operation s; sh_startTime := startTime s;
             sh_tags := tags s;
             sh_parent := (fun c => (parentType, c)) <$> parentShadowCtx |}) s.

(** Modelled from the spec: [span.enableRecording] is defined in span.go.
    [StartRecording(group, kind)] attaches the span to [group]. *)
Definition enableRecording (g : nat) (ty : RecordingType) (s : span) : span :=
  set_recording (Some g) ty s.

(** Modelled from the spec: a span is recording while it is attached to a
    RecordingGroup. *)
Definition isRecording (s : span) : bool :=
  match span_recordingGroup s with
  | Some _ => true
  | None => false
  end.

(** [IsBlackHoleSpan]: true exactly for the shared noop instance. *)
Definition isNoopSpan (sp : Span) : bool :=
  match sp with
  | noopSpanPtr _ => true
  | spanPtr _ => false
  end.

(** ** Tracer.StartSpan *)

(** The first fast path: [len(opts) == 1], the option is a
    [SpanReference] and its context is a [noopSpanContext]. *)
Definition singleNoopReference (opts : list StartSpanOption) : bool :=
  match opts with
  | [SpanReference _ noopSpanContext] => true
  | _ => false
  end.

(** What the loop over [sso.References] leaves behind: the parent it found
    ([hasParent], [parentType], [parentCtx]) and the recording to join. *)
Record parentInfo : Type := {
  parent : option (SpanReferenceType * spanContext);
  pi_recordingGroup : option nat;
  pi_recordingType : RecordingType
}.

Definition noParent : parentInfo :=
  {| parent := None; pi_recordingGroup := None;
     pi_recordingType := SingleNodeRecording |}.

(** [for _, r := range sso.References { ... break }]: references of another
    type, nil contexts and noop contexts are skipped; the first other one is
    the parent.  The type assertion of [r.ReferencedContext] to a [spanContext] pointer
    panics on a context of another implementation. *)
Fixpoint referencesLoop (refs : list (SpanReferenceType * SpanContext)) (w : World)
    : outcome (parentInfo * World) :=
  match refs with
  | [] => Returns (noParent, w)
  | (ty, ctx) :: rest =>
      if negb (isParentRefType ty) then referencesLoop rest w
      else
        match ctx with
        | nilSpanContext => referencesLoop rest w
        | noopSpanContext => referencesLoop rest w
        | foreignSpanContext =>
            Panics "interface conversion: opentracing.SpanContext is not *tracing.spanContext"
        | spanContextPtr parentCtx =>
            match recordingGroup parentCtx with
            | Some g =>
                Returns ({| parent := Some (ty, parentCtx);
                            pi_recordingGroup := Some g;
                            pi_recordingType := recordingType parentCtx |}, w)
            | None =>
                if negb (String.eqb (default "" (Baggage parentCtx !! Snowball)) "")
                then
                  let '(g, w') := newSpanGroup w in
                  Returns ({| parent := Some (ty, parentCtx);
                              pi_recordingGroup := Some g;
                              pi_recordingType := SnowballRecording |}, w')
                else
                  Returns ({| parent := Some (ty, parentCtx);
                              pi_recordingGroup := None;
                              pi_recordingType := SingleNodeRecording |}, w)
            end
        end
  end.

Definition emptyStartSpanOptions : StartSpanOptions :=
  {| References := []; sso_StartTime := 0; sso_Tags := ∅ |}.

Definition isNone {A} (o : option A) : bool :=
  match o with
  | None => true
  | Some _ => false
  end.

(** The part of [StartSpan] after the last noop return: the new span is
    allocated and filled. *)
Definition buildSpan (t : Tracer) (operationName : string) (sso : StartSpanOptions)
    (netTrace : bool) (spanShadow : option shadowTracer) (pinfo : parentInfo)
    (w : World) : span * World :=
  let s := newSpan t operationName (sso_StartTime sso) in
  let s := if startTime s =? 0 then set_startTime (clock w) s else s in
  let s := set_duration (-1) s in
  let s := map_fold SetTag s (sso_Tags sso) in
  let '(s, w) :=
    match parent pinfo with
    | None => let '(r, w') := Int63 w in (set_TraceID r s, w')
    | Some (_, parentCtx) => (set_TraceID (TraceID parentCtx) s, w)
    end in
  let '(r, w) := Int63 w in
  let s := set_SpanID r s in
  let s :=
    match spanShadow with
    | Some tr =>
        match parent pinfo with
        | Some (parentType, parentCtx) =>
            linkShadowSpan s tr (shadowCtx parentCtx) parentType
        | None => linkShadowSpan s tr None ChildOfRef
        end
    | None => s
    end in
  let s :=
    match pi_recordingGroup pinfo with
    | Some g => enableRecording g (pi_recordingType pinfo) s
    | None => s
    end in
  let s :=
    if netTrace
    then set_netTr (Some {| nt_family := "tracing"; nt_title := operationName;
                            nt_maxEvents := maxLogsPerSpan |}) s
    else s in
  let s :=
    match parent pinfo with
    | Some (_, parentCtx) =>
        let s := set_parentSpanID (SpanID parentCtx) s in
        if (0 <? Z.of_nat (size (Baggage parentCtx)))
        then set_Baggage (map_fold (fun k v m => <[k:=v]> m) ∅ (Baggage parentCtx)) s
        else s
    | None => s
    end in
  let s :=
    if netTrace || negb (isNone spanShadow)
    then map_fold (fun k v s => SetTag k (TagString v) s) s (span_Baggage s)
    else s in
  (s, w).

(** [func (t *Tracer) StartSpan(operationName string, opts ...StartSpanOption)] *)
Definition StartSpan (t : Tracer) (w : World) (operationName : string)
    (opts : list StartSpanOption) : outcome (Span * World) :=
  if singleNoopReference opts then Returns (noopSpanOf t, w)
  else
    let netTrace := enableNetTrace w in
    let tracerShadow := getShadowTracer t in
    if (Nat.eqb (length opts) 0) && negb netTrace && isNone tracerShadow
       && negb (forceRealSpans t)
    then Returns (noopSpanOf t, w)
    else
      let sso := foldl (fun sso o => Apply o sso) emptyStartSpanOptions opts in
      let recordable := existsb isRecordableOption opts in
      match referencesLoop (References sso) w with
      | Panics msg => Panics msg
      | Returns (pinfo, w) =>
          let spanShadow :=
            match parent pinfo with
            | Some (_, parentCtx) => shadowTr parentCtx
            | None => tracerShadow
            end in
          if negb recordable && isNone (pi_recordingGroup pinfo) && isNone spanShadow
             && negb netTrace && negb (forceRealSpans t)
          then Returns (noopSpanOf t, w)
          else
            let '(s, w) := buildSpan t operationName sso netTrace spanShadow pinfo w in
            Returns (spanPtr s, w)
      end.

(** ** The propagation codec: Tracer.Inject and Tracer.Extract *)

(** [for k, v := range sc.Baggage { mapWriter.Set(prefixBaggage+k, v) }] on
    a [TextMapCarrier], whose [Set] is [c[key] = val].  The keys written
    are pairwise distinct, so the carrier does not depend on the order in
    which the baggage is visited. *)
Definition injectBaggage (baggage : gmap string string) (m : gmap string string)
    : gmap string string :=
  map_fold (fun k v m => <[prefixBaggage ++ k := v]> m) m baggage.

(** The writer handed to the shadow tracer:
    [mapWriter.Set(prefixShadow+key, val)]. *)
Definition injectShadow (writes : list (string * string)) (m : gmap string string)
    : gmap string string :=
  foldl (fun m kv => <[prefixShadow ++ kv.1 := kv.2]> m) m writes.

(** [func (t *Tracer) Inject(osc, format, carrier) error]; the carrier is
    written in place, so it is returned next to the error. *)
Definition Inject (t : Tracer) (osc : SpanContext) (format : Format)
    (carrier : Carrier) : option error * Carrier :=
  match osc with
  | noopSpanContext => (None, carrier)
  | _ =>
      if unsupportedFormat format then (Some ErrUnsupportedFormat, carrier)
      else
        match carrier with
        | OpaqueCarrier => (Some ErrInvalidCarrier, carrier)
        | TextMapCarrier m =>
            match osc with
            | spanContextPtr sc =>
                let m := <[fieldNameTraceID := FormatUint16 (TraceID sc)]> m in
                let m := <[fieldNameSpanID := FormatUint16 (SpanID sc)]> m in
                let m := injectBaggage (Baggage sc) m in
                match shadowTr sc with
                | Some tr =>
                    let m := <[fieldNameShadowType := Typ tr]> m in
                    let '(writes, err) := shadowInject tr (shadowCtx sc) format in
                    (err, TextMapCarrier (injectShadow writes m))
                | None => (None, TextMapCarrier m)
                end
            | _ => (Some ErrInvalidSpanContext, carrier)
            end
        end
  end.

(** The variables the handler of [Extract] closes over: [sc] (its ids and
    baggage), [shadowType] and [shadowCarrier]. *)
Record extractState : Type := {
  es_TraceID : Z;
  es_SpanID : Z;
  es_Baggage : gmap string string;
  shadowType : string;
  shadowCarrier : gmap string string
}.

Definition extractInit : extractState :=
  {| es_TraceID := 0; es_SpanID := 0; es_Baggage := ∅;
     shadowType := ""; shadowCarrier := ∅ |}.

(** [TextMapCarrier.ForeachKey]: the handler is called on one entry after the
    other, and the first error ends the loop. *)
Fixpoint ForeachKey {S : Type} (handler : S -> string -> string -> S * option error)
    (entries : list (string * string)) (st : S) : S * option error :=
  match entries with
  | [] => (st, None)
  | (k, v) :: rest =>
      match handler st k v with
      | (st', Some err) => (st', Some err)
      | (st', None) => ForeachKey handler rest st'
      end
  end.

Section Codec.

(** See [GoStrings.ToLower]. *)
Variable unicodeToLower : string -> string.

(** The order in which [range] visits a [map[string]string]: Go leaves it
    open, every entry is visited once. *)
Variable rangeOrder : gmap string string -> list (string * string).
Hypothesis rangeOrder_perm : forall m, rangeOrder m ≡ₚ map_to_list m.

(** The closure [func(k, v string) error] passed to [ForeachKey]. *)
Definition extractHandler (st : extractState) (k v : string)
    : extractState * option error :=
  let k := ToLower unicodeToLower k in
  if String.eqb k fieldNameTraceID then
    let '(n, err) := ParseUint16 v in
    let st := {| es_TraceID := n; es_SpanID := es_SpanID st;
                 es_Baggage := es_Baggage st; shadowType := shadowType st;
                 shadowCarrier := shadowCarrier st |} in
    match err with
    | Some _ => (st, Some ErrSpanContextCorrupted)
    | None => (st, None)
    end
  else if String.eqb k fieldNameSpanID then
    let '(n, err) := ParseUint16 v in
    let st := {| es_TraceID := es_TraceID st; es_SpanID := n;
                 es_Baggage := es_Baggage st; shadowType := shadowType st;
                 shadowCarrier := shadowCarrier st |} in
    match err with
    | Some _ => (st, Some ErrSpanContextCorrupted)
    | None => (st, None)
    end
  else if String.eqb k fieldNameShadowType then
    ({| es_TraceID := es_TraceID st; es_SpanID := es_SpanID st;
        es_Baggage := es_Baggage st; shadowType := v;
        shadowCarrier := shadowCarrier st |}, None)
  else if HasPrefix k prefixBaggage then
    ({| es_TraceID := es_TraceID st; es_SpanID := es_SpanID st;
        es_Baggage := <[TrimPrefix k prefixBaggage := v]> (es_Baggage st);
        shadowType := shadowType st;
        shadowCarrier := shadowCarrier st |}, None)
  else if HasPrefix k prefixShadow then
    ({| es_TraceID := es_TraceID st; es_SpanID := es_SpanID st;
        es_Baggage := es_Baggage st; shadowType := shadowType st;
        shadowCarrier := <[TrimPrefix k prefixShadow := v]> (shadowCarrier st) |},
     None)
  else (st, None).

(** [&sc] as [Extract] returns it. *)
Definition extractedContext (st : extractState) (tr : option shadowTracer)
    (ctx : option ShadowCtx) : spanContext :=
  {| TraceID := es_TraceID st; SpanID := es_SpanID st;
     Baggage := es_Baggage st; shadowTr := tr; shadowCtx := ctx;
     recordingGroup := None; recordingType := SingleNodeRecording |}.

(** [func (t *Tracer) Extract(format, carrier) (opentracing.SpanContext, error)] *)
Definition Extract (t : Tracer) (format : Format) (carrier : Carrier)
    : SpanContext * option error :=
  if unsupportedFormat format then (noopSpanContext, Some ErrUnsupportedFormat)
  else
    match carrier with
    | OpaqueCarrier => (noopSpanContext, Some ErrInvalidCarrier)
    | TextMapCarrier m =>
        match ForeachKey extractHandler (rangeOrder m) extractInit with
        | (_, Some err) => (noopSpanContext, Some err)
        | (st, None) =>
            if (es_TraceID st =? 0) && (es_SpanID st =? 0)
            then (noopSpanContext, None)
            else if negb (String.eqb (shadowType st) "") then
              match getShadowTracer t with
              | Some tr =>
                  if String.eqb (ToLower unicodeToLower (shadowType st))
                                (ToLower unicodeToLower (Typ tr))
                  then
                    match shadowExtract tr format (shadowCarrier st) with
                    | (_, Some err) => (noopSpanContext, Some err)
                    | (ctx, None) =>
                        (spanContextPtr (extractedContext st (Some tr) ctx), None)
                    end
                  else (spanContextPtr (extractedContext st None None), None)
              | None => (spanContextPtr (extractedContext st None None), None)
              end
            else (spanContextPtr (extractedContext st None None), None)
        end
    end.

End Codec.

(** ** The tracer registry *)

(** [tracerRegistryImpl]: the slice of [*Tracer], as addresses (the mutex
    serialises the calls). *)
Record tracerRegistryImpl : Type := {
  tracers : list nat
}.

Definition registryAdd (tr : tracerRegistryImpl) (t : nat) : tracerRegistryImpl :=
  {| tracers := tracers tr ++ [t] |}.

(** The builtin [copy(dst, src)]: the array behind [dst] after the call, and
    the number of elements copied. *)
Definition sliceCopy {A} (dst src : list A) : list A * nat :=
  let n := Nat.min (length dst) (length src) in
  ((take n src ++ drop n dst)%list, n).

(** The loop of [Remove] from index [i] on: [rest] is [tr.tracers[i:]]. *)
Fixpoint removeLoop (all rest : list nat) (i : nat) (t : nat) : outcome (list nat) :=
  match rest with
  | [] => Panics "removing unknown tracer"
  | x :: rest' =>
      if Nat.eqb x t then
        let '(shifted, n) := sliceCopy (drop i all) (drop (i + 1) all) in
        Returns (take (i + n) (take i all ++ shifted)%list)
      else removeLoop all rest' (S i) t
  end.

(** [func (tr *tracerRegistryImpl) Remove(t *Tracer)] *)
Definition registryRemove (tr : tracerRegistryImpl) (t : nat) : outcome tracerRegistryImpl :=
  match removeLoop (tracers tr) (tracers tr) 0 t with
  | Returns l => Returns {| tracers := l |}
  | Panics msg => Panics msg
  end.

(** [func (tr *tracerRegistryImpl) ForEach(fn func(t *Tracer))], for an [fn]
    that updates some state. *)
Definition registryForEach {S} (tr : tracerRegistryImpl) (fn : nat -> S -> S) (st : S) : S :=
  foldl (fun st t => fn t st) st (tracers tr).

(** ** Tracer life cycle *)

(** [func (t *Tracer) setShadowTracer(manager, tr)]: [shadow] is the
    [shadowTracer] made of the manager and its tracer, [None] for a nil
    manager.  The pointer is swapped; the result is the Tracer and the old
    shadow tracer, which is closed when there was one. *)
Definition setShadowTracer (t : Tracer) (shadow : option shadowTracer)
    : Tracer * option shadowTracer :=
  ({| addr := addr t; forceRealSpans := forceRealSpans t;
      shadowTracerPtr := shadow |},
   shadowTracerPtr t).

(** [func (t *Tracer) Close()] on the registry [tracerRegistry]: the result
    is the registry, the Tracer and the shadow tracer that was closed. *)
Definition Close (reg : tracerRegistryImpl) (t : Tracer)
    : outcome (tracerRegistryImpl * Tracer * option shadowTracer) :=
  match registryRemove reg (addr t) with
  | Panics msg => Panics msg
  | Returns reg' =>
      let '(t', closed) := setShadowTracer t None in
      Returns (reg', t', closed)
  end.

(** [func NewTracer() opentracing.Tracer]: [a] is the address of the new
    Tracer, which is what the registry is handed.  [updateShadowTracer] is
    defined in shadow.go and is left open: it is handed the Tracer and
    changes it in place. *)
Definition NewTracer (updateShadowTracer : Tracer -> Tracer)
    (reg : tracerRegistryImpl) (a : nat) : Tracer * tracerRegistryImpl :=
  let t := {| addr := a; forceRealSpans := false; shadowTracerPtr := None |} in
  let t := updateShadowTracer t in
  (t, registryAdd reg a).

(** ** Child spans and contexts *)

(** [parentSpan.Tracer()]: the Tracer a span handle belongs to. *)
Definition spanTracer (sp : Span) : nat :=
  match sp with
  | noopSpanPtr a => a
  | spanPtr s => tracer s
  end.

(** A [context.Context], as far as tracing goes: the span it carries, if
    any ([opentracing.SpanFromContext], [opentracing.ContextWithSpan]). *)
Definition Context : Type := option Span.

Definition SpanFromContext (ctx : Context) : option Span := ctx.

Definition ContextWithSpan (ctx : Context) (sp : Span) : Context := Some sp.

Section ChildSpans.

(** [IsBlackHoleSpan] is defined in span.go.  It is left open: the results
    hold whatever spans it takes for black holes. *)
Variable IsBlackHoleSpan : Span -> bool.

(** [Context()] of a span of the shadow tracer, left open as well. *)
Variable shadowSpanContext : shadowSpanT -> option ShadowCtx.

(** [func StartChildSpan(operationName, parentSpan, separateRecording)].
    The type assertion of [parentSpan] to a [span] pointer panics on a noop
    span, and so does [pSpan.shadowSpan.Context()] on a parent with a shadow
    tracer and no shadow span. *)
Definition StartChildSpan (w : World) (operationName : string)
    (parentSpan : Span) (separateRecording : bool) : outcome (Span * World) :=
  let tr := spanTracer parentSpan in
  if IsBlackHoleSpan parentSpan then Returns (noopSpanPtr tr, w)
  else
    match parentSpan with
    | noopSpanPtr _ =>
        Panics "interface conversion: opentracing.Span is *tracing.noopSpan, not *tracing.span"
    | spanPtr pSpan =>
        let s :=
          {| tracer := tr; operation := operationName; startTime := clock w;
             duration := 0; span_TraceID := 0; span_SpanID := 0;
             parentSpanID := span_SpanID pSpan;
             span_shadowTr := None; shadowSpan := None; netTr := None;
             span_Baggage := ∅; tags := ∅;
             span_recordingGroup := None;
             span_recordingType := SingleNodeRecording |} in
        let s :=
          if 0 <? Z.of_nat (size (span_Baggage pSpan))
          then set_Baggage (map_fold (fun k v m => <[k:=v]> m) ∅ (span_Baggage pSpan)) s
          else s in
        let s := set_TraceID (span_TraceID pSpan) s in
        let '(r, w) := Int63 w in
        let s := set_SpanID r s in
        let linked :=
          match span_shadowTr pSpan with
          | Some shTr =>
              match shadowSpan pSpan with
              | Some sh =>
                  Returns (linkShadowSpan s shTr (shadowSpanContext sh) ChildOfRef)
              | None => Panics "invalid memory address or nil pointer dereference"
              end
          | None => Returns s
          end in
        match linked with
        | Panics msg => Panics msg
        | Returns s =>
            let s :=
              if negb (isNone (netTr pSpan)) || negb (isNone (span_shadowTr pSpan))
              then map_fold (fun k v s => SetTag k (TagString v) s) s (span_Baggage s)
              else s in
            match span_recordingGroup pSpan with
            | Some g =>
                if separateRecording then
                  let '(g', w) := newSpanGroup w in
                  Returns (spanPtr (enableRecording g' (span_recordingType pSpan) s), w)
                else
                  Returns (spanPtr (enableRecording g (span_recordingType pSpan) s), w)
            | None => Returns (spanPtr s, w)
            end
        end
    end.


End ChildSpans.

(** [func EnsureContext(ctx, tracer, name) (context.Context, func())]: the
    closure returned is [sp.Finish] of a span, or does nothing; it is given
    as the span it finishes. *)
Definition EnsureContext (w : World) (ctx : Context) (t : Tracer) (name : string)
    : outcome (Context * option Span * World) :=
  match SpanFromContext ctx with
  | None =>
      match StartSpan t w name [] with
      | Panics msg => Panics msg
      | Returns (sp, w) => Returns (ContextWithSpan ctx sp, Some sp, w)
      end
  | Some _ => Returns (ctx, None, w)
  end.

(** ** Vocabulary of the statements *)

(** The references a list of options adds to [sso.References], in order. *)
Definition optionReferences (opts : list StartSpanOption)
    : list (SpanReferenceType * SpanContext) :=
  omap (fun o => match o with
                 | SpanReference ty ctx => Some (ty, ctx)
                 | _ => None
                 end) opts.

(** A reference the loop of [StartSpan] does not skip: a [ChildOf] or
    [FollowsFrom] reference to a context that is neither nil nor noop. *)
Definition resolvesToParent (r : SpanReferenceType * SpanContext) : bool :=
  isParentRefType r.1 &&
  match r.2 with
  | nilSpanContext | noopSpanContext => false
  | _ => true
  end.

(** The parent reference [StartSpan] resolves: the first one not skipped. *)
Definition resolvedParent (opts : list StartSpanOption)
    : option (SpanReferenceType * SpanContext) :=
  find resolvesToParent (optionReferences opts).

(** The shadow tracer cached on a span handle; the noop span has none. *)
Definition spanShadowTracer (sp : Span) : option shadowTracer :=
  match sp with
  | noopSpanPtr _ => None
  | spanPtr s => span_shadowTr s
  end.

(** The mirrored span of a span handle; the noop span has none. *)
Definition spanShadowSpan (sp : Span) : option shadowSpanT :=
  match sp with
  | noopSpanPtr _ => None
  | spanPtr s => shadowSpan s
  end.

(** What [SetTag] leaves alone. *)
Definition spanFrame (s : span)
    : option nat * RecordingType * option shadowTracer * bool :=
  (span_recordingGroup s, span_recordingType s, span_shadowTr s,
   isNone (shadowSpan s)).

(** A carrier key that [Extract] routes to the trace id or to the span id:
    its lower-cased form is one of the two field names. *)
Definition isIdEntryKey (unicodeToLower : string -> string) (k : string) : Prop :=
  ToLower unicodeToLower k = fieldNameTraceID
  \/ ToLower unicodeToLower k = fieldNameSpanID.

(** The baggage keys that survive the codec: the carrier key of each item,
    [prefixBaggage+k], is what [Extract] makes of it by lower-casing. *)
Definition baggageKeysLowered (unicodeToLower : string -> string)
    (baggage : gmap string string) : Prop :=
  forall k v, baggage !! k = Some v ->
    ToLower unicodeToLower (prefixBaggage ++ k) = prefixBaggage ++ k.

(** A carrier key [Extract] makes nothing of for the ids, the shadow type and
    the baggage: neither the key nor its lower-cased form starts with the
    baggage prefix, and the lower-cased form is none of the field names. *)
Definition inertKey (unicodeToLower : string -> string) (k : string) : Prop :=
  ToLower unicodeToLower k <> fieldNameTraceID
  /\ ToLower unicodeToLower k <> fieldNameSpanID
  /\ ToLower unicodeToLower k <> fieldNameShadowType
  /\ HasPrefix (ToLower unicodeToLower k) prefixBaggage = false
  /\ HasPrefix k prefixBaggage = false.

(** A carrier [Inject] may be handed without disturbing what is read back. *)
Definition inertCarrier (unicodeToLower : string -> string)
    (m : gmap string string) : Prop :=
  forall k v, m !! k = Some v -> inertKey unicodeToLower k.

(** An entry [Inject] writes for a context without shadow tracer. *)
Definition injectedEntry (sc : spanContext) (kv : string * string) : Prop :=
  kv = (fieldNameTraceID, FormatUint16 (TraceID sc))
  \/ kv = (fieldNameSpanID, FormatUint16 (SpanID sc))
  \/ exists k, kv.1 = prefixBaggage ++ k /\ Baggage sc !! k = Some kv.2.

(** ** Concrete values the statements are tried on *)

Definition plainTracer : Tracer :=
  {| addr := 1%nat; forceRealSpans := false; shadowTracerPtr := None |}.

Definition forcedTracer : Tracer :=
  {| addr := 1%nat; forceRealSpans := true; shadowTracerPtr := None |}.

Definition lightstep : shadowTracer :=
  {| shadowAddr := 5%nat; Typ := "lightstep";
     shadowInject := fun _ _ => ([], None);
     shadowExtract := fun _ _ => (None, None) |}.

Definition shadowedTracer : Tracer :=
  {| addr := 2%nat; forceRealSpans := false; shadowTracerPtr := Some lightstep |}.

Definition quietWorld : World :=
  {| enableNetTrace := false; randSrc := fun n => Z.of_nat n + 7;
     randPos := 0%nat; clock := 1500000000; spanGroups := {[0%nat]} |}.

Definition contextWith (traceID spanID : Z) (baggage : gmap string string)
    : spanContext :=
  {| TraceID := traceID; SpanID := spanID; Baggage := baggage;
     shadowTr := None; shadowCtx := None;
     recordingGroup := None; recordingType := SingleNodeRecording |}.

Definition snowballParent : spanContext :=
  contextWith 10 11 {[ Snowball := "1" ]}.

Definition lowerKeyContext : spanContext :=
  contextWith 48879 2 {[ "k" := "v" ]}.

Definition upperKeyContext : spanContext :=
  contextWith 48879 2 {[ "K" := "v" ]}.

Definition zeroIdContext : spanContext :=
  contextWith 0 0 {[ "k" := "v" ]}.

(** ** Vocabulary of the further statements *)

(** What [SetTag] leaves alone besides [spanFrame]: everything but the tags
    and the tags mirrored on the shadow span. *)
Definition spanCore (s : span)
    : nat * string * Z * Z * Z * Z * Z * option netTrace * gmap string string :=
  (tracer s, operation s, startTime s, duration s, span_TraceID s,
   span_SpanID s, parentSpanID s, netTr s, span_Baggage s).

(** What the shadow tracer was asked for when the mirrored span was opened:
    operation, start time and the link to the parent's shadow context. *)
Definition shadowLink (s : span)
    : option (string * Z * option (SpanReferenceType * ShadowCtx)) :=
  (fun sh => (sh_operation sh, sh_startTime sh, sh_parent sh)) <$> shadowSpan s.

(** The start time the options ask for: the last [StartTime] option, the
    zero time when there is none. *)
Definition optionStartTime (opts : list StartSpanOption) : Z :=
  foldl (fun acc o => match o with StartTime t => t | _ => acc end) 0 opts.

(** The world after [n] calls of [rand.Int63]. *)
Definition afterDraws (n : nat) (w : World) : World :=
  {| enableNetTrace := enableNetTrace w; randSrc := randSrc w;
     randPos := (randPos w + n)%nat; clock := clock w;
     spanGroups := spanGroups w |}.

(** The [n]-th number [rand.Int63] returns from a world on. *)
Definition draw (n : nat) (w : World) : Z :=
  randSrc w (randPos w + n)%nat mod 2 ^ 63.

(** The first reference [StartSpan] does not skip has a context of another
    implementation. *)
Definition foreignParent (opts : list StartSpanOption) : Prop :=
  exists ty, resolvedParent opts = Some (ty, foreignSpanContext).

(** The resolved parent asks for a recording: it belongs to a group, or
    carries the snowball baggage item. *)
Definition parentRecords (pc : spanContext) : Prop :=
  recordingGroup pc <> None \/ default "" (Baggage pc !! Snowball) <> "".

(** The part of [Extract] after the carrier is read (lines 474-492): the
    noop context for two zero ids, the shadow context when the local shadow
    tracer has the type the carrier names, and the context. *)
Definition extractFinish (unicodeToLower : string -> string) (t : Tracer)
    (format : Format) (st : extractState) : SpanContext * option error :=
  if (es_TraceID st =? 0) && (es_SpanID st =? 0)
  then (noopSpanContext, None)
  else if negb (String.eqb (shadowType st) "") then
    match getShadowTracer t with
    | Some tr =>
        if String.eqb (ToLower unicodeToLower (shadowType st))
                      (ToLower unicodeToLower (Typ tr))
        then
          match shadowExtract tr format (shadowCarrier st) with
          | (_, Some err) => (noopSpanContext, Some err)
          | (ctx, None) =>
              (spanContextPtr (extractedContext st (Some tr) ctx), None)
          end
        else (spanContextPtr (extractedContext st None None), None)
    | None => (spanContextPtr (extractedContext st None None), None)
    end
  else (spanContextPtr (extractedContext st None None), None).

(** The entries of a carrier under a key prefix, with the prefix taken off. *)
Definition entriesUnder (pre : string) (m : gmap string string)
    : gmap string string :=
  map_fold (fun k v acc =>
              if HasPrefix k pre then <[TrimPrefix k pre := v]> acc else acc)
           ∅ m.

(** The id a carrier holds under a field name: zero when there is none. *)
Definition carrierId (field : string) (m : gmap string string) : Z :=
  match m !! field with
  | Some v => (ParseUint16 v).1
  | None => 0
  end.

(** What a carrier with lower-case keys says, read entry by entry. *)
Definition carrierState (m : gmap string string) : extractState :=
  {| es_TraceID := carrierId fieldNameTraceID m;
     es_SpanID := carrierId fieldNameSpanID m;
     es_Baggage := entriesUnder prefixBaggage m;
     shadowType := default "" (m !! fieldNameShadowType);
     shadowCarrier := entriesUnder prefixShadow m |}.

(** Every key of the carrier is its own lower-cased form. *)
Definition lowerCaseCarrier (unicodeToLower : string -> string)
    (m : gmap string string) : Prop :=
  forall k v, m !! k = Some v -> ToLower unicodeToLower k = k.

(** The ids of the carrier, if any, are hexadecimal [uint64]s. *)
Definition idsParse (m : gmap string string) : Prop :=
  forall v, m !! fieldNameTraceID = Some v \/ m !! fieldNameSpanID = Some v ->
            (ParseUint16 v).2 = None.

(** The carrier a shadow tracer fills by the [Set] calls of its [Inject],
    when it writes into a [TextMapCarrier] of its own. *)
Definition shadowWritten (writes : list (string * string)) : gmap string string :=
  foldl (fun m kv => <[kv.1 := kv.2]> m) ∅ writes.

(** The prefix common to every key [Inject] writes. *)
Definition prefixReserved : string := "crdb-".

(** A span with a shadow tracer has its mirrored span: [linkShadowSpan]
    sets the two together. *)
Definition shadowLinked (p : span) : Prop :=
  span_shadowTr p <> None -> shadowSpan p <> None.



(** ** Further concrete values *)

Definition debugWorld : World :=
  {| enableNetTrace := true; randSrc := fun n => Z.of_nat n + 7;
     randPos := 0%nat; clock := 1500000000; spanGroups := {[0%nat]} |}.

Definition zipkin : shadowTracer :=
  {| shadowAddr := 6%nat; Typ := "zipkin";
     shadowInject := fun _ _ => ([("span", "2a")], None);
     shadowExtract := fun _ _ => (None, None) |}.

Definition zipkinTracer : Tracer :=
  {| addr := 3%nat; forceRealSpans := false; shadowTracerPtr := Some zipkin |}.

Definition recordingParent : spanContext :=
  {| TraceID := 10; SpanID := 11; Baggage := {[ "k" := "v" ]};
     shadowTr := None; shadowCtx := None;
     recordingGroup := Some 0%nat; recordingType := SnowballRecording |}.

Definition mirroredParent : spanContext :=
  {| TraceID := 10; SpanID := 11; Baggage := {[ "k" := "v" ]};
     shadowTr := Some zipkin; shadowCtx := None;
     recordingGroup := None; recordingType := SingleNodeRecording |}.

Definition recordingSpan : span :=
  {| tracer := 1%nat; operation := "parent"; startTime := 1499999999;
     duration := -1; span_TraceID := 10; span_SpanID := 11; parentSpanID := 0;
     span_shadowTr := None; shadowSpan := None; netTr := None;
     span_Baggage := {[ "k" := "v" ]}; tags := ∅;
     span_recordingGroup := Some 0%nat;
     span_recordingType := SnowballRecording |}.

Definition mirroredSpan : span :=
  {| tracer := 3%nat; operation := "parent"; startTime := 1499999999;
     duration := -1; span_TraceID := 10; span_SpanID := 11; parentSpanID := 0;
     span_shadowTr := Some zipkin;
     shadowSpan := Some {| sh_operation := "parent"; sh_startTime := 1499999999;
                           sh_tags := ∅; sh_parent := None |};
     netTr := None;
     span_Baggage := {[ "k" := "v" ]}; tags := ∅;
     span_recordingGroup := None;
     span_recordingType := SingleNodeRecording |}.

(** * Properties *)

(** ** strconv: parsing what [FormatUint] printed *)

Example FormatUint16_ex : FormatUint16 48879 = "beef".
Proof. reflexivity. Qed.

Example ParseUint16_ex : ParseUint16 "BeEf" = (48879, None).
Proof. reflexivity. Qed.

Example ParseUint16_max : ParseUint16 "ffffffffffffffff" = (maxUint64, None).
Proof. vm_compute. reflexivity. Qed.

Example ParseUint16_overflow :
  ParseUint16 "10000000000000000" = (maxUint64, Some ErrRange).
Proof. vm_compute. reflexivity. Qed.

Example ParseUint16_empty : ParseUint16 "" = (0, Some ErrSyntax).
Proof. reflexivity. Qed.

Example ParseUint16_prefix : ParseUint16 "0x10" = (0, Some ErrSyntax).
Proof. reflexivity. Qed.

Example ToLower_ex :
  ToLower (fun s => s) "CRDB-Tracer-TraceID" = "crdb-tracer-traceid".
Proof. reflexivity. Qed.

Lemma digitVal_digitChar d : 0 <= d < 16 -> digitVal (digitChar d) = Some d.
Proof.
  intros Hd.
  assert (Hcases : d = 0 \/ d = 1 \/ d = 2 \/ d = 3 \/ d = 4 \/ d = 5 \/ d = 6
                   \/ d = 7 \/ d = 8 \/ d = 9 \/ d = 10 \/ d = 11 \/ d = 12
                   \/ d = 13 \/ d = 14 \/ d = 15) by lia.
  repeat (destruct Hcases as [-> | Hcases]; [reflexivity |]).
  subst d. reflexivity.
Qed.

Lemma parseDigits_step d a n :
  0 <= d < 16 -> 0 <= n -> n * 16 + d < 2 ^ 64 ->
  parseDigits 16 (String (digitChar d) a) n = parseDigits 16 a (n * 16 + d).
Proof.
  intros Hd Hn Hlt. cbn [parseDigits]. rewrite digitVal_digitChar by done.
  change (maxUint64 / 16 + 1) with (2 ^ 60). change maxUint64 with (2 ^ 64 - 1).
  destruct (16 <=? d) eqn:E1; [lia |].
  destruct (2 ^ 60 <=? n) eqn:E2; [lia |].
  cbv zeta.
  rewrite (Z.mod_small (n * 16)) by lia.
  rewrite (Z.mod_small (n * 16 + d)) by lia.
  destruct (n * 16 + d <? n * 16) eqn:E3; [lia |].
  destruct (2 ^ 64 - 1 <? n * 16 + d) eqn:E4; [lia |].
  reflexivity.
Qed.

Lemma parseDigits_formatBits fuel : forall u a,
  0 <= u < 16 ^ Z.of_nat (S fuel) ->
  exists k, 0 < k /\ u < 16 ^ k /\
    forall n, 0 <= n -> n * 16 ^ k + u < 2 ^ 64 ->
      parseDigits 16 (formatBits fuel u a) n = parseDigits 16 a (n * 16 ^ k + u).
Proof.
  assert (Hsmall : forall u a, 0 <= u < 16 ->
    exists k, 0 < k /\ u < 16 ^ k /\
      forall n, 0 <= n -> n * 16 ^ k + u < 2 ^ 64 ->
        parseDigits 16 (String (digitChar u) a) n = parseDigits 16 a (n * 16 ^ k + u)).
  { intros u a Hu. exists 1. split; [lia |]. split; [lia |].
    intros n Hn Hlt. change (16 ^ 1) with 16 in *. by apply parseDigits_step. }
  induction fuel as [| fuel IH]; intros u a Hu.
  - cbn [formatBits]. change (16 ^ Z.of_nat 1) with 16 in Hu.
    change 15 with (Z.ones 4). rewrite Z.land_ones by lia.
    change (2 ^ 4) with 16. rewrite Z.mod_small by lia. by apply Hsmall.
  - cbn [formatBits]. destruct (16 <=? u) eqn:E; [| apply Hsmall; lia].
    apply Z.leb_le in E.
    change 15 with (Z.ones 4). rewrite Z.land_ones by lia.
    rewrite Z.shiftr_div_pow2 by lia. change (2 ^ 4) with 16.
    assert (Hdiv : 0 <= u / 16 < 16 ^ Z.of_nat (S fuel)).
    { split; [apply Z.div_pos; lia |].
      apply Z.div_lt_upper_bound; [lia |].
      replace (Z.of_nat (S (S fuel))) with (Z.of_nat (S fuel) + 1) in Hu by lia.
      rewrite Z.pow_add_r in Hu by lia. lia. }
    destruct (IH (u / 16) (String (digitChar (u mod 16)) a) Hdiv)
      as (k & Hk & Hlt & Hparse).
    assert (Hmod : 0 <= u mod 16 < 16) by (apply Z.mod_pos_bound; lia).
    assert (Hu16 : u = 16 * (u / 16) + u mod 16) by (apply Z.div_mod; lia).
    exists (k + 1). rewrite Z.pow_add_r by lia. change (16 ^ 1) with 16.
    split; [lia |]. split; [lia |].
    intros n Hn Hbound.
    assert (0 <= n * 16 ^ k) by (apply Z.mul_nonneg_nonneg; lia).
    rewrite Hparse by lia.
    rewrite parseDigits_step by lia.
    f_equal. lia.
Qed.

Lemma formatBits_nonempty fuel u a :
  exists c s, formatBits fuel u a = String c s.
Proof.
  revert u a. induction fuel as [| fuel IH]; intros u a; cbn [formatBits].
  - eauto.
  - destruct (16 <=? u); eauto.
Qed.

(** A [uint64] printed by [FormatUint] in base 16 is read back by
    [ParseUint]. *)
Lemma ParseUint16_FormatUint16 u :
  0 <= u < 2 ^ 64 -> ParseUint16 (FormatUint16 u) = (u, None).
Proof.
  intros Hu. unfold FormatUint16.
  destruct (formatBits_nonempty 16 u "") as (c & s & Hs).
  unfold ParseUint16. rewrite Hs, <- Hs.
  destruct (parseDigits_formatBits 16 u "") as (k & _ & _ & Hparse).
  { change (16 ^ Z.of_nat 17) with (2 ^ 68). lia. }
  rewrite Hparse by lia. cbn [parseDigits]. f_equal; lia.
Qed.

(** ** StartSpan: the materialization policy *)

Lemma References_Apply o sso :
  References (Apply o sso) = (References sso ++ optionReferences [o])%list.
Proof. destruct o; cbn; by rewrite ?app_nil_r. Qed.

Lemma References_foldl_Apply opts : forall sso,
  References (foldl (fun sso o => Apply o sso) sso opts)
  = (References sso ++ optionReferences opts)%list.
Proof.
  induction opts as [| o opts IH]; intros sso; cbn [foldl].
  - by rewrite app_nil_r.
  - rewrite IH, References_Apply, <- app_assoc. f_equal.
    destruct o; reflexivity.
Qed.

Lemma References_of_options opts :
  References (foldl (fun sso o => Apply o sso) emptyStartSpanOptions opts)
  = optionReferences opts.
Proof. by rewrite References_foldl_Apply. Qed.

(** The loop skips every reference that does not resolve to a parent. *)
Lemma referencesLoop_none refs w :
  find resolvesToParent refs = None ->
  referencesLoop refs w = Returns (noParent, w).
Proof.
  induction refs as [| [ty ctx] refs IH]; intros Hfind; [reflexivity |].
  cbn [find] in Hfind. unfold resolvesToParent in Hfind at 1. cbn [fst snd] in Hfind.
  cbn [referencesLoop].
  destruct (isParentRefType ty); cbn [negb andb] in *; [| by apply IH].
  destruct ctx; try discriminate; by apply IH.
Qed.

(** The loop stops at the first reference that resolves to a parent. *)
Lemma referencesLoop_found refs w r :
  find resolvesToParent refs = Some r ->
  referencesLoop refs w = referencesLoop [r] w.
Proof.
  induction refs as [| [ty ctx] refs IH]; intros Hfind; [discriminate |].
  cbn [find] in Hfind. unfold resolvesToParent in Hfind at 1. cbn [fst snd] in Hfind.
  cbn [referencesLoop].
  destruct (isParentRefType ty) eqn:Ety; cbn [negb andb] in *; [| by apply IH].
  destruct ctx; try (by apply IH); injection Hfind as <-;
    cbn [referencesLoop]; rewrite Ety; reflexivity.
Qed.

Lemma find_resolvesToParent_none refs :
  (forall ty ctx, (ty, ctx) ∈ refs -> isParentRefType ty = true ->
                  ctx = nilSpanContext \/ ctx = noopSpanContext) ->
  find resolvesToParent refs = None.
Proof.
  induction refs as [| [ty ctx] refs IH]; intros Hall; [reflexivity |].
  cbn [find]. unfold resolvesToParent at 1. cbn [fst snd].
  rewrite IH by (intros; eapply Hall; [by right | done]).
  destruct (isParentRefType ty) eqn:Ety; [| reflexivity].
  destruct (Hall ty ctx) as [-> | ->]; [by left | done | reflexivity ..].
Qed.

Lemma elem_of_optionReferences ty ctx opts :
  (ty, ctx) ∈ optionReferences opts <-> SpanReference ty ctx ∈ opts.
Proof.
  unfold optionReferences. rewrite list_elem_of_omap. split.
  - intros (o & Ho & Heq). destruct o; try discriminate.
    by injection Heq as -> ->.
  - intros Ho. by exists (SpanReference ty ctx).
Qed.

Lemma existsb_isRecordableOption opts :
  Recordable ∉ opts -> existsb isRecordableOption opts = false.
Proof.
  induction opts as [| o opts IH]; intros Hnot; [reflexivity |].
  cbn [existsb]. rewrite IH by (intros ?; apply Hnot; by right).
  destruct o; try reflexivity. exfalso. apply Hnot. by left.
Qed.

Lemma SetTag_frame k v s : spanFrame (SetTag k v s) = spanFrame s.
Proof.
  unfold SetTag, spanFrame. cbn.
  destruct (shadowSpan s) eqn:E; cbn; rewrite ?E; reflexivity.
Qed.

Lemma map_fold_SetTag_frame {A} (f : A -> TagValue) (m : gmap string A) s :
  spanFrame (map_fold (fun k v s => SetTag k (f v) s) s m) = spanFrame s.
Proof.
  apply (map_fold_weak_ind (fun r _ => spanFrame r = spanFrame s)); [done |].
  intros k v m' r _ IH. by rewrite SetTag_frame.
Qed.

Lemma spanGroups_Int63 w : spanGroups (Int63 w).2 = spanGroups w.
Proof. reflexivity. Qed.

(** What [buildSpan] fixes about the new span: its recording membership
    and its shadow tracer come from the arguments, and no [spanGroup] is
    allocated. *)
Lemma buildSpan_frame t op sso nt sh pinfo w :
  let '(s, w') := buildSpan t op sso nt sh pinfo w in
  spanFrame s =
    (pi_recordingGroup pinfo,
     match pi_recordingGroup pinfo with
     | Some _ => pi_recordingType pinfo
     | None => SingleNodeRecording
     end, sh, isNone sh)
  /\ spanGroups w' = spanGroups w.
Proof.
  unfold buildSpan.
  set (s0 := map_fold SetTag _ _).
  assert (H0 : spanFrame s0 = (None, SingleNodeRecording, None, true)).
  { unfold s0. rewrite (map_fold_SetTag_frame (fun v => v)).
    by destruct (startTime _ =? 0). }
  clearbody s0.
  destruct pinfo as [par g ty]. cbn [parent pi_recordingGroup pi_recordingType].
  destruct par as [[pty pc] |], sh as [tr |], g as [g |], nt;
    cbn [Int63 fst snd orb negb isNone];
    try destruct (0 <? Z.of_nat (size (Baggage pc)));
    (split; [| reflexivity]);
    rewrite ?(map_fold_SetTag_frame TagString);
    revert H0; unfold spanFrame; cbn; intros [= H1 H2 H3 H4];
    rewrite ?H1, ?H2, ?H3, ?H4; reflexivity.
Qed.

Lemma singleNoopReference_resolved opts :
  singleNoopReference opts = true -> resolvedParent opts = None.
Proof.
  destruct opts as [| o [| o' opts]]; try discriminate;
    destruct o as [ty ctx | | | |]; try discriminate.
  - destruct ctx; try discriminate. intros _.
    unfold resolvedParent, resolvesToParent. cbn. by rewrite andb_false_r.
  - destruct ctx; discriminate.
Qed.

(** With a resolved parent neither fast path applies, the loop stops at the
    parent, and the shadow tracer considered from there on is the parent's. *)
Lemma StartSpan_resolved t w op opts ty pc :
  resolvedParent opts = Some (ty, spanContextPtr pc) ->
  exists pinfo w1,
    referencesLoop [(ty, spanContextPtr pc)] w = Returns (pinfo, w1)
    /\ parent pinfo = Some (ty, pc)
    /\ StartSpan t w op opts =
       if negb (existsb isRecordableOption opts) && isNone (pi_recordingGroup pinfo)
          && isNone (shadowTr pc) && negb (enableNetTrace w)
          && negb (forceRealSpans t)
       then Returns (noopSpanOf t, w1)
       else
         let '(s, w2) :=
           buildSpan t op (foldl (fun sso o => Apply o sso) emptyStartSpanOptions opts)
                     (enableNetTrace w) (shadowTr pc) pinfo w1 in
         Returns (spanPtr s, w2).
Proof.
  intros Hres.
  assert (Hty : isParentRefType ty = true).
  { apply find_some in Hres as [_ Hr]. unfold resolvesToParent in Hr.
    by apply andb_true_iff in Hr as [? _]. }
  assert (Hloop : exists pinfo w1,
    referencesLoop [(ty, spanContextPtr pc)] w = Returns (pinfo, w1)
    /\ parent pinfo = Some (ty, pc)).
  { cbn [referencesLoop]. rewrite Hty. cbn [negb].
    destruct (recordingGroup pc); [by eauto |].
    destruct (negb _); [| by eauto].
    destruct (newSpanGroup w) as [g w']. by eauto. }
  destruct Hloop as (pinfo & w1 & Hloop & Hpar).
  exists pinfo, w1. split; [done |]. split; [done |].
  unfold StartSpan.
  destruct (singleNoopReference opts) eqn:Esingle.
  { apply singleNoopReference_resolved in Esingle. congruence. }
  destruct opts as [| o opts]; [discriminate |].
  cbn [length Nat.eqb andb].
  rewrite References_of_options.
  rewrite (referencesLoop_found _ _ _ Hres), Hloop, Hpar.
  reflexivity.
Qed.

(** C2: when no parent reference resolves, the net/trace setting is off, the
    Tracer has no shadow tracer, the [Recordable] option is absent and
    [forceRealSpans] is false, [StartSpan] returns the Tracer's shared
    noop span and allocates nothing: the random source and the span groups
    are left as they were. *)
Theorem StartSpan_fast_path t w op opts :
  resolvedParent opts = None ->
  enableNetTrace w = false ->
  getShadowTracer t = None ->
  (Recordable ∉ opts) ->
  forceRealSpans t = false ->
  StartSpan t w op opts = Returns (noopSpanOf t, w).
Proof.
  intros Hres Hnet Hshadow Hrec Hforce. unfold StartSpan.
  destruct (singleNoopReference opts); [reflexivity |].
  rewrite Hnet, Hshadow, Hforce. cbn [negb isNone andb].
  rewrite andb_true_r.
  destruct (Nat.eqb (length opts) 0); [reflexivity |].
  rewrite References_of_options.
  rewrite (referencesLoop_none _ _ Hres).
  rewrite (existsb_isRecordableOption _ Hrec).
  reflexivity.
Qed.

(** C3: when the resolved parent context belongs to no RecordingGroup and its
    baggage maps ["sb"] to a non-empty string, [StartSpan] returns a real
    span that is recording, with kind Snowball, into a [spanGroup] that did
    not exist before the call. *)
Theorem StartSpan_snowball t w op opts ty pc v :
  resolvedParent opts = Some (ty, spanContextPtr pc) ->
  recordingGroup pc = None ->
  Baggage pc !! Snowball = Some v ->
  v <> "" ->
  exists s w' g,
    StartSpan t w op opts = Returns (spanPtr s, w')
    /\ span_recordingGroup s = Some g
    /\ (g ∉ spanGroups w)
    /\ g ∈ spanGroups w'
    /\ span_recordingType s = SnowballRecording
    /\ isRecording s = true.
Proof.
  intros Hres Hgroup Hsb Hv.
  destruct (StartSpan_resolved t w op opts ty pc Hres)
    as (pinfo & w1 & Hloop & Hpar & ->).
  cbn [referencesLoop] in Hloop. rewrite Hgroup, Hsb in Hloop.
  cbn [default from_option] in Hloop. unfold id in Hloop.
  assert (Hne : String.eqb v "" = false) by by apply String.eqb_neq.
  rewrite Hne in Hloop.
  destruct (isParentRefType ty); cbn [negb] in Hloop;
    [| injection Hloop as <- <-; discriminate].
  unfold newSpanGroup in Hloop. injection Hloop as <- <-. clear Hpar.
  cbn [pi_recordingGroup isNone andb].
  rewrite andb_false_r. cbn [andb].
  match goal with
  | |- context [buildSpan ?a ?b ?c ?d ?e ?f ?g] =>
      pose proof (buildSpan_frame a b c d e f g) as Hframe;
      destruct (buildSpan a b c d e f g) as [s w2]
  end.
  destruct Hframe as [Hframe Hgroups].
  cbn [pi_recordingGroup pi_recordingType] in Hframe.
  unfold spanFrame in Hframe. injection Hframe as Hg Hty _ _.
  exists s, w2, (fresh (spanGroups w)).
  split; [reflexivity |]. split; [done |].
  split; [apply is_fresh |].
  split; [rewrite Hgroups; cbn; apply elem_of_union_l; by apply elem_of_singleton |].
  split; [done |]. unfold isRecording. by rewrite Hg.
Qed.

(** C7: with a resolved real parent, the shadow tracer of the new span is
    the one cached in the parent's context, whatever shadow tracer the
    Tracer has at that moment; a parent context without one gives a span
    without a shadow mirror. *)
Theorem StartSpan_parent_shadow t w op opts ty pc :
  resolvedParent opts = Some (ty, spanContextPtr pc) ->
  exists sp w',
    StartSpan t w op opts = Returns (sp, w')
    /\ spanShadowTracer sp = shadowTr pc
    /\ (shadowTr pc = None -> spanShadowSpan sp = None).
Proof.
  intros Hres.
  destruct (StartSpan_resolved t w op opts ty pc Hres)
    as (pinfo & w1 & _ & _ & ->).
  destruct (negb _ && isNone _ && isNone (shadowTr pc) && _ && _) eqn:Enoop.
  - exists (noopSpanOf t), w1. split; [reflexivity |].
    apply andb_true_iff in Enoop as [Enoop _].
    apply andb_true_iff in Enoop as [Enoop _].
    apply andb_true_iff in Enoop as [_ Enoop].
    destruct (shadowTr pc); [discriminate | done].
  - match goal with
    | |- context [buildSpan ?a ?b ?c ?d ?e ?f ?g] =>
        pose proof (buildSpan_frame a b c d e f g) as Hframe;
        destruct (buildSpan a b c d e f g) as [s w2]
    end.
    destruct Hframe as [Hframe _].
    unfold spanFrame in Hframe. injection Hframe as _ _ Htr Hsp.
    exists (spanPtr s), w2. split; [reflexivity |].
    split; [done |]. intros Hnone. cbn. rewrite Hnone in Hsp.
    by destruct (shadowSpan s).
Qed.

(** A single reference to the noop context makes [StartSpan] take its first
    fast path; the call without options returns the same only when nothing
    asks for real spans. *)
Lemma StartSpan_single_noop_reference t w op ty :
  StartSpan t w op [SpanReference ty noopSpanContext] = Returns (noopSpanOf t, w)
  /\ (StartSpan t w op [SpanReference ty noopSpanContext] = StartSpan t w op []
      <-> enableNetTrace w = false /\ getShadowTracer t = None
          /\ forceRealSpans t = false).
Proof.
  split; [reflexivity |].
  change (StartSpan t w op [SpanReference ty noopSpanContext])
    with (Returns (A := Span * World) (noopSpanOf t, w)).
  unfold StartSpan. cbn [singleNoopReference length Nat.eqb andb].
  destruct (enableNetTrace w), (getShadowTracer t) as [tr |], (forceRealSpans t);
    cbn [negb isNone andb foldl existsb emptyStartSpanOptions References
         referencesLoop noParent parent pi_recordingGroup];
    try (split; [intros _; by repeat split |]; reflexivity);
    (split; [| by intros (? & ? & ?)]);
    match goal with
    | |- context [buildSpan ?a ?b ?c ?d ?e ?f ?g] =>
        destruct (buildSpan a b c d e f g) as [s w2]
    end; discriminate.
Qed.


(** Next to other options, a reference to the noop context is skipped: the
    call behaves as without it. *)
Lemma StartSpan_noop_reference_skipped t w op ty opts :
  opts <> [] -> singleNoopReference opts = false ->
  StartSpan t w op (SpanReference ty noopSpanContext :: opts) = StartSpan t w op opts.
Proof.
  intros Hne Hsingle. unfold StartSpan. rewrite Hsingle.
  destruct opts as [| o opts]; [done |].
  cbn [singleNoopReference length Nat.eqb andb existsb isRecordableOption orb].
  set (withRef := foldl _ _ (SpanReference ty noopSpanContext :: o :: opts)).
  set (without := foldl _ _ (o :: opts)).
  assert (Hfold : forall l sso sso',
    sso_StartTime sso = sso_StartTime sso' -> sso_Tags sso = sso_Tags sso' ->
    sso_StartTime (foldl (fun sso o => Apply o sso) sso l)
    = sso_StartTime (foldl (fun sso o => Apply o sso) sso' l)
    /\ sso_Tags (foldl (fun sso o => Apply o sso) sso l)
       = sso_Tags (foldl (fun sso o => Apply o sso) sso' l)).
  { induction l as [| x l IH]; intros sso sso' Ht Hg; [done |].
    cbn [foldl]. apply IH; destruct x; cbn; congruence. }
  assert (Hsame : sso_StartTime withRef = sso_StartTime without
                  /\ sso_Tags withRef = sso_Tags without).
  { apply (Hfold (o :: opts)
             (Apply (SpanReference ty noopSpanContext) emptyStartSpanOptions)
             emptyStartSpanOptions); reflexivity. }
  destruct Hsame as [Htime Htags].
  assert (Hrefs : References withRef
                  = (ty, noopSpanContext) :: References without).
  { unfold withRef, without. by rewrite !References_of_options. }
  rewrite Hrefs. cbn [referencesLoop].
  replace (if negb (isParentRefType ty)
           then referencesLoop (References without) w
           else referencesLoop (References without) w)
    with (referencesLoop (References without) w) by by destruct (isParentRefType ty).
  destruct (referencesLoop (References without) w) as [[pinfo w1] | msg]; [| done].
  destruct (negb _ && _ && _ && _ && _); [done |].
  unfold buildSpan. by rewrite Htime, Htags.
Qed.

(** ** The propagation codec *)

(** C9: injecting the noop context succeeds and leaves the carrier as it
    was, for every format and every carrier: the noop test comes before the
    format and carrier checks. *)
Theorem Inject_noop t format carrier :
  Inject t noopSpanContext format carrier = (None, carrier).
Proof. reflexivity. Qed.

Example Inject_noop_binary_opaque t :
  Inject t noopSpanContext Binary OpaqueCarrier = (None, OpaqueCarrier)
  /\ forall sc, Inject t (spanContextPtr sc) Binary OpaqueCarrier
                = (Some ErrUnsupportedFormat, OpaqueCarrier).
Proof. split; reflexivity. Qed.

Section CodecProperties.

Variable unicodeToLower : string -> string.
Variable rangeOrder : gmap string string -> list (string * string).
Hypothesis rangeOrder_perm : forall m, rangeOrder m ≡ₚ map_to_list m.

Local Abbreviation lowered := (ToLower unicodeToLower).
Local Abbreviation handler := (extractHandler unicodeToLower).
Local Abbreviation isIdKey := (isIdEntryKey unicodeToLower).

Lemma elem_of_rangeOrder m k v : (k, v) ∈ rangeOrder m <-> m !! k = Some v.
Proof. by rewrite rangeOrder_perm, elem_of_map_to_list. Qed.

(** The only error of the handler is [ErrSpanContextCorrupted]. *)
Lemma extractHandler_error st k v st' e :
  handler st k v = (st', Some e) -> e = ErrSpanContextCorrupted.
Proof.
  unfold extractHandler.
  repeat match goal with
  | |- context [if ?b then _ else _] => destruct b
  | |- context [ParseUint16 ?v] => destruct (ParseUint16 v) as [? [?|]]
  end; congruence.
Qed.

(** An id entry whose value does not parse makes the handler fail. *)
Lemma extractHandler_unparsable st k v :
  isIdKey k -> (ParseUint16 v).2 <> None ->
  exists st', handler st k v = (st', Some ErrSpanContextCorrupted).
Proof.
  intros Hk Hv. unfold extractHandler.
  destruct (ParseUint16 v) as [n [e |]]; [| done].
  destruct Hk as [-> | ->]; cbn; eauto.
Qed.

Lemma ForeachKey_unparsable entries k v : forall st,
  (k, v) ∈ entries -> isIdKey k -> (ParseUint16 v).2 <> None ->
  exists st', ForeachKey handler entries st = (st', Some ErrSpanContextCorrupted).
Proof.
  induction entries as [| [k0 v0] entries IH]; intros st Hin Hk Hv.
  - by apply elem_of_nil in Hin.
  - cbn [ForeachKey].
    destruct (handler st k0 v0) as [st1 [e |]] eqn:Eh.
    + apply extractHandler_error in Eh as ->. eauto.
    + apply elem_of_cons in Hin as [[= <- <-] | Hin]; [| by apply IH].
      destruct (extractHandler_unparsable st k v Hk Hv) as [st' Hst']. congruence.
Qed.

(** Entries that are no id entries, or whose value parses to zero, leave
    both ids at zero. *)
Lemma extractHandler_zero st k v :
  (isIdKey k -> ParseUint16 v = (0, None)) ->
  es_TraceID st = 0 -> es_SpanID st = 0 ->
  exists st', handler st k v = (st', None)
              /\ es_TraceID st' = 0 /\ es_SpanID st' = 0.
Proof.
  intros Hzero Ht Hs. unfold extractHandler, isIdEntryKey in *.
  destruct (String.eqb (lowered k) fieldNameTraceID) eqn:E1.
  { apply String.eqb_eq in E1. rewrite Hzero by by left. eauto. }
  destruct (String.eqb (lowered k) fieldNameSpanID) eqn:E2.
  { apply String.eqb_eq in E2. rewrite Hzero by by right. eauto. }
  repeat match goal with
  | |- context [if ?b then _ else _] => destruct b
  end; eauto.
Qed.

Lemma ForeachKey_zero entries : forall st,
  (forall k v, (k, v) ∈ entries -> isIdKey k -> ParseUint16 v = (0, None)) ->
  es_TraceID st = 0 -> es_SpanID st = 0 ->
  exists st', ForeachKey handler entries st = (st', None)
              /\ es_TraceID st' = 0 /\ es_SpanID st' = 0.
Proof.
  induction entries as [| [k v] entries IH]; intros st Hzero Ht Hs.
  - by exists st.
  - cbn [ForeachKey].
    destruct (extractHandler_zero st k v) as (st1 & -> & Ht1 & Hs1);
      [intros Hk; apply (Hzero k v); [by left | done] | done | done |].
    apply IH; [| done | done].
    intros k' v' Hin. apply Hzero. by right.
Qed.

(** C5: a text-map carrier holding a trace-id or span-id entry whose value
    [ParseUint] rejects makes [Extract] return the noop context together
    with [ErrSpanContextCorrupted]. *)
Theorem Extract_corrupted t format m k v :
  unsupportedFormat format = false ->
  m !! k = Some v ->
  isIdKey k ->
  (ParseUint16 v).2 <> None ->
  Extract unicodeToLower rangeOrder t format (TextMapCarrier m)
  = (noopSpanContext, Some ErrSpanContextCorrupted).
Proof.
  intros Hfmt Hin Hk Hv. unfold Extract. rewrite Hfmt.
  apply elem_of_rangeOrder in Hin.
  destruct (ForeachKey_unparsable _ k v extractInit Hin Hk Hv) as [st' ->].
  reflexivity.
Qed.

(** C6: a text-map carrier in a supported format with neither a trace-id nor
    a span-id entry makes [Extract] return the noop context and no error. *)
Theorem Extract_no_ids t format m :
  unsupportedFormat format = false ->
  (forall k v, m !! k = Some v -> ~ isIdKey k) ->
  Extract unicodeToLower rangeOrder t format (TextMapCarrier m)
  = (noopSpanContext, None).
Proof.
  intros Hfmt Hno. unfold Extract. rewrite Hfmt.
  destruct (ForeachKey_zero (rangeOrder m) extractInit) as (st' & -> & -> & ->);
    [| done | done | reflexivity].
  intros k v Hin Hk. apply elem_of_rangeOrder in Hin. by destruct (Hno k v).
Qed.

(** C10: when every trace-id and span-id entry of the carrier parses to zero,
    [Extract] returns the noop context and no error, whatever else (baggage
    included) the carrier holds. *)
Theorem Extract_zero_ids t format m :
  unsupportedFormat format = false ->
  (forall k v, m !! k = Some v -> isIdKey k -> ParseUint16 v = (0, None)) ->
  Extract unicodeToLower rangeOrder t format (TextMapCarrier m)
  = (noopSpanContext, None).
Proof.
  intros Hfmt Hzero. unfold Extract. rewrite Hfmt.
  destruct (ForeachKey_zero (rangeOrder m) extractInit) as (st' & -> & -> & ->);
    [| done | done | reflexivity].
  intros k v Hin. apply Hzero. by apply elem_of_rangeOrder.
Qed.

(** *** Strings *)

Lemma append_cons c a b : String c a ++ b = String c (a ++ b).
Proof. reflexivity. Qed.

Lemma HasPrefix_app pre s : HasPrefix (pre ++ s) pre = true.
Proof.
  induction pre as [| c pre IH]; [by destruct s |].
  rewrite append_cons. cbn [HasPrefix]. by rewrite Ascii.eqb_refl.
Qed.

Lemma dropBytes_app pre s : dropBytes (String.length pre) (pre ++ s) = s.
Proof.
  induction pre as [| c pre IH]; [by destruct s |].
  by rewrite append_cons.
Qed.

Lemma TrimPrefix_app pre s : TrimPrefix (pre ++ s) pre = s.
Proof. unfold TrimPrefix. by rewrite HasPrefix_app, dropBytes_app. Qed.

Lemma HasPrefix_inv pre : forall s,
  HasPrefix s pre = true -> s = pre ++ dropBytes (String.length pre) s.
Proof.
  induction pre as [| p pre IH]; intros s Hs; [by destruct s |].
  destruct s as [| c s]; [discriminate |].
  rewrite append_cons. cbn [HasPrefix String.length dropBytes] in Hs |- *.
  destruct (Ascii.eqb p c) eqn:E; [| discriminate].
  apply Ascii.eqb_eq in E as ->. f_equal. by apply IH.
Qed.

Lemma append_inj_r pre a b : pre ++ a = pre ++ b -> a = b.
Proof.
  induction pre as [| c pre IH]; [done |].
  rewrite !append_cons. intros [= H]. by apply IH.
Qed.

Lemma baggage_key_not_field k :
  prefixBaggage ++ k <> fieldNameTraceID
  /\ prefixBaggage ++ k <> fieldNameSpanID
  /\ prefixBaggage ++ k <> fieldNameShadowType.
Proof. repeat split; intros H; cbv in H; discriminate. Qed.

Lemma field_not_baggage_key :
  HasPrefix fieldNameTraceID prefixBaggage = false
  /\ HasPrefix fieldNameSpanID prefixBaggage = false.
Proof. split; reflexivity. Qed.

(** A key of lower-case ASCII letters, digits and punctuation is one of
    those the codec preserves. *)
Lemma lowercase_ascii_key k :
  isASCII k = true -> hasUpper k = false ->
  ToLower unicodeToLower (prefixBaggage ++ k) = prefixBaggage ++ k.
Proof.
  intros Hascii Hupper. unfold ToLower.
  assert (Ha : isASCII (prefixBaggage ++ k) = true) by exact Hascii.
  assert (Hu : hasUpper (prefixBaggage ++ k) = false) by exact Hupper.
  by rewrite Ha, Hu.
Qed.

(** *** What [Inject] leaves in the carrier *)

Lemma injectBaggage_lookup_key baggage m k :
  injectBaggage baggage m !! (prefixBaggage ++ k)
  = match baggage !! k with
    | Some v => Some v
    | None => m !! (prefixBaggage ++ k)
    end.
Proof.
  unfold injectBaggage.
  apply (map_fold_weak_ind (fun r b =>
    r !! (prefixBaggage ++ k)
    = match b !! k with Some v => Some v | None => m !! (prefixBaggage ++ k) end)).
  - by rewrite lookup_empty.
  - intros i x b r Hfresh IH.
    destruct (decide (i = k)) as [-> | Hne].
    + by rewrite !lookup_insert_eq.
    + rewrite !lookup_insert_ne; [done | done |].
      intros Heq. by apply append_inj_r in Heq.
Qed.

Lemma injectBaggage_lookup_other baggage m key :
  HasPrefix key prefixBaggage = false ->
  injectBaggage baggage m !! key = m !! key.
Proof.
  intros Hkey. unfold injectBaggage.
  apply (map_fold_weak_ind (fun r _ => r !! key = m !! key)); [done |].
  intros i x b r _ IH. rewrite lookup_insert_ne; [done |].
  intros <-. by rewrite HasPrefix_app in Hkey.
Qed.

Lemma foldl_as_foldr {A B} (f : A -> B -> A) (l : list B) : forall a,
  foldl f a l = foldr (fun x acc => f acc x) a (reverse l).
Proof.
  induction l as [| x l IH]; intros a; [reflexivity |].
  cbn [foldl]. by rewrite IH, reverse_cons, foldr_app.
Qed.

(** The [Set] calls of the baggage loop, made in any order in which [range]
    may visit the baggage, leave the carrier [injectBaggage] computes. *)
Lemma injectBaggage_any_order baggage m (visit : list (string * string)) :
  visit ≡ₚ map_to_list baggage ->
  foldl (fun m kv => <[prefixBaggage ++ kv.1 := kv.2]> m) m visit
  = injectBaggage baggage m.
Proof.
  intros Hvisit. unfold injectBaggage. rewrite map_fold_foldr, foldl_as_foldr.
  set (g := fun (x : string * string) (acc : gmap string string) =>
              <[prefixBaggage ++ x.1 := x.2]> acc).
  assert (Hext : forall l,
    foldr (uncurry (fun k v m => <[prefixBaggage ++ k := v]> m)) m l = foldr g m l).
  { induction l as [| [k v] l IH]; [done |]. cbn [foldr uncurry]. by rewrite IH. }
  rewrite Hext. symmetry.
  apply (foldr_permutation (=) g).
  - solve_proper.
  - intros j1 [k1 v1] j2 [k2 v2] b Hj H1 H2. unfold g. cbn [fst snd].
    apply insert_insert_ne. intros Heq. apply append_inj_r in Heq as ->.
    apply Hj. eapply NoDup_lookup; [apply (NoDup_fst_map_to_list baggage) | |];
      rewrite list_lookup_fmap; [by rewrite H1 | by rewrite H2].
  - by rewrite reverse_Permutation.
Qed.

(** The carrier [Inject] leaves, for a context without shadow tracer: every
    entry was written by [Inject] or was there before. *)
Lemma injected_carrier_entry (sc : spanContext) m0 key v :
  injectBaggage (Baggage sc)
    (<[fieldNameSpanID := FormatUint16 (SpanID sc)]>
       (<[fieldNameTraceID := FormatUint16 (TraceID sc)]> m0)) !! key = Some v ->
  injectedEntry sc (key, v) \/ m0 !! key = Some v.
Proof.
  unfold injectedEntry. cbn [fst snd].
  destruct (HasPrefix key prefixBaggage) eqn:Epre.
  - apply HasPrefix_inv in Epre. set (k := dropBytes _ key) in Epre. clearbody k.
    subst key. rewrite injectBaggage_lookup_key.
    destruct (baggage_key_not_field k) as (Ht & Hs & _).
    rewrite !lookup_insert_ne by done.
    destruct (Baggage sc !! k) eqn:Ek; [| by right].
    intros [= ->]. left; right; right. by exists k.
  - rewrite injectBaggage_lookup_other by done. intros Hv.
    apply lookup_insert_Some in Hv as [[<- <-] | [_ Hv]]; [by left; right; left |].
    apply lookup_insert_Some in Hv as [[<- <-] | [_ Hv]]; [by left; left |].
    by right.
Qed.

(** Every entry [Inject] writes is in the carrier it leaves. *)
Lemma injected_carrier_written (sc : spanContext) m0 key v :
  injectedEntry sc (key, v) ->
  injectBaggage (Baggage sc)
    (<[fieldNameSpanID := FormatUint16 (SpanID sc)]>
       (<[fieldNameTraceID := FormatUint16 (TraceID sc)]> m0)) !! key = Some v.
Proof.
  unfold injectedEntry. cbn [fst snd].
  intros [[= -> ->] | [[= -> ->] | (k & -> & Hv)]].
  - rewrite injectBaggage_lookup_other by reflexivity.
    rewrite lookup_insert_ne by done. by rewrite lookup_insert_eq.
  - rewrite injectBaggage_lookup_other by reflexivity.
    by rewrite lookup_insert_eq.
  - by rewrite injectBaggage_lookup_key, Hv.
Qed.

(** *** What [Extract] reads back *)

Lemma if_elem_of_cons_eq {A B} `{EqDecision A} (x : A) l (a b : B) :
  (if decide (x ∈ x :: l) then a else b) = a.
Proof. destruct (decide _) as [| Hn]; [done |]. destruct Hn. by left. Qed.

Lemma if_elem_of_cons_ne {A B} `{EqDecision A} (x y : A) l (a b : B) :
  x <> y ->
  (if decide (x ∈ y :: l) then a else b) = (if decide (x ∈ l) then a else b).
Proof.
  intros Hne. destruct (decide (x ∈ y :: l)) as [Hin | Hn], (decide (x ∈ l)) as [Hin' | Hn'];
    try done.
  - apply elem_of_cons in Hin as [? | ?]; done.
  - destruct Hn. by right.
Qed.

Lemma extractHandler_traceid st n :
  0 <= n < 2 ^ 64 ->
  handler st fieldNameTraceID (FormatUint16 n)
  = ({| es_TraceID := n; es_SpanID := es_SpanID st; es_Baggage := es_Baggage st;
        shadowType := shadowType st; shadowCarrier := shadowCarrier st |}, None).
Proof.
  intros Hn. unfold extractHandler.
  change (lowered fieldNameTraceID) with fieldNameTraceID.
  rewrite String.eqb_refl. by rewrite ParseUint16_FormatUint16.
Qed.

Lemma extractHandler_spanid st n :
  0 <= n < 2 ^ 64 ->
  handler st fieldNameSpanID (FormatUint16 n)
  = ({| es_TraceID := es_TraceID st; es_SpanID := n; es_Baggage := es_Baggage st;
        shadowType := shadowType st; shadowCarrier := shadowCarrier st |}, None).
Proof.
  intros Hn. unfold extractHandler.
  change (lowered fieldNameSpanID) with fieldNameSpanID.
  change (String.eqb fieldNameSpanID fieldNameTraceID) with false.
  rewrite String.eqb_refl. by rewrite ParseUint16_FormatUint16.
Qed.

Lemma extractHandler_baggage st k v :
  lowered (prefixBaggage ++ k) = prefixBaggage ++ k ->
  handler st (prefixBaggage ++ k) v
  = ({| es_TraceID := es_TraceID st; es_SpanID := es_SpanID st;
        es_Baggage := <[k := v]> (es_Baggage st);
        shadowType := shadowType st; shadowCarrier := shadowCarrier st |}, None).
Proof.
  intros Hlow. unfold extractHandler. rewrite Hlow.
  destruct (baggage_key_not_field k) as (Ht & Hs & Hsh).
  apply String.eqb_neq in Ht, Hs, Hsh. rewrite Ht, Hs, Hsh.
  by rewrite HasPrefix_app, TrimPrefix_app.
Qed.

(** An inert entry changes neither the ids, nor the baggage, nor the shadow
    type. *)
Lemma extractHandler_inert st k v :
  inertKey unicodeToLower k ->
  exists st', handler st k v = (st', None)
    /\ es_TraceID st' = es_TraceID st /\ es_SpanID st' = es_SpanID st
    /\ es_Baggage st' = es_Baggage st /\ shadowType st' = shadowType st.
Proof.
  intros (Ht & Hs & Hsh & Hpre & _). unfold extractHandler.
  apply String.eqb_neq in Ht, Hs, Hsh. rewrite Ht, Hs, Hsh, Hpre.
  destruct (HasPrefix _ prefixShadow); eauto 10.
Qed.

Lemma inertKey_not_written k :
  inertKey unicodeToLower k ->
  k <> fieldNameTraceID /\ k <> fieldNameSpanID
  /\ forall k', k <> prefixBaggage ++ k'.
Proof.
  intros (Ht & Hs & _ & _ & Hraw). repeat split.
  - intros ->. by apply Ht.
  - intros ->. by apply Hs.
  - intros k' ->. by rewrite HasPrefix_app in Hraw.
Qed.

(** Reading what [Inject] wrote next to inert entries never fails; whatever
    the order, the state ends with the ids and the baggage items that were
    met. *)
Lemma ForeachKey_injected (sc : spanContext) entries :
  0 <= TraceID sc < 2 ^ 64 -> 0 <= SpanID sc < 2 ^ 64 ->
  baggageKeysLowered unicodeToLower (Baggage sc) ->
  Forall (fun kv => injectedEntry sc kv \/ inertKey unicodeToLower kv.1) entries ->
  forall st, exists st',
    ForeachKey handler entries st = (st', None)
    /\ es_TraceID st'
       = (if decide (fieldNameTraceID ∈ entries.*1) then TraceID sc else es_TraceID st)
    /\ es_SpanID st'
       = (if decide (fieldNameSpanID ∈ entries.*1) then SpanID sc else es_SpanID st)
    /\ shadowType st' = shadowType st
    /\ forall k, es_Baggage st' !! k
         = (if decide (prefixBaggage ++ k ∈ entries.*1)
            then Baggage sc !! k else es_Baggage st !! k).
Proof.
  intros HT HS Hkeys Hgood.
  induction Hgood as [| [k0 v0] rest Hentry _ IH]; intros st.
  { exists st. by repeat split. }
  cbn [ForeachKey]. rewrite fmap_cons. cbn [fst].
  destruct Hentry as [[[= -> ->] | [[= -> ->] | (k & Hk & Hv)]] | Hinert].
  - rewrite extractHandler_traceid by done.
    destruct (IH {| es_TraceID := TraceID sc; es_SpanID := es_SpanID st;
                    es_Baggage := es_Baggage st; shadowType := shadowType st;
                    shadowCarrier := shadowCarrier st |})
      as (st' & -> & Ht & Hs & Hsh & Hb).
    exists st'. split; [done |].
    cbn [es_TraceID es_SpanID es_Baggage shadowType] in Ht, Hs, Hsh, Hb.
    rewrite if_elem_of_cons_eq, if_elem_of_cons_ne by done.
    split; [rewrite Ht; by destruct (decide (fieldNameTraceID ∈ rest.*1)) |].
    split; [done |]. split; [done |].
    intros k. rewrite if_elem_of_cons_ne; [done |].
    by destruct (baggage_key_not_field k) as (? & ? & ?).
  - rewrite extractHandler_spanid by done.
    destruct (IH {| es_TraceID := es_TraceID st; es_SpanID := SpanID sc;
                    es_Baggage := es_Baggage st; shadowType := shadowType st;
                    shadowCarrier := shadowCarrier st |})
      as (st' & -> & Ht & Hs & Hsh & Hb).
    exists st'. split; [done |].
    cbn [es_TraceID es_SpanID es_Baggage shadowType] in Ht, Hs, Hsh, Hb.
    rewrite if_elem_of_cons_eq, if_elem_of_cons_ne by done.
    split; [done |].
    split; [rewrite Hs; by destruct (decide (fieldNameSpanID ∈ rest.*1)) |].
    split; [done |].
    intros k. rewrite if_elem_of_cons_ne; [done |].
    by destruct (baggage_key_not_field k) as (? & ? & ?).
  - cbn [fst snd] in Hk, Hv. subst k0.
    rewrite extractHandler_baggage by (by eapply Hkeys).
    destruct (IH {| es_TraceID := es_TraceID st; es_SpanID := es_SpanID st;
                    es_Baggage := <[k := v0]> (es_Baggage st);
                    shadowType := shadowType st;
                    shadowCarrier := shadowCarrier st |})
      as (st' & -> & Ht & Hs & Hsh & Hb).
    exists st'. split; [done |].
    cbn [es_TraceID es_SpanID es_Baggage shadowType] in Ht, Hs, Hsh, Hb.
    destruct (baggage_key_not_field k) as (Hnt & Hns & _).
    rewrite !if_elem_of_cons_ne by done.
    split; [done |]. split; [done |]. split; [done |].
    intros k'. rewrite Hb. destruct (decide (k' = k)) as [-> | Hne].
    + rewrite if_elem_of_cons_eq, lookup_insert_eq, Hv.
      by destruct (decide (prefixBaggage ++ k ∈ rest.*1)).
    + rewrite if_elem_of_cons_ne, lookup_insert_ne; [done | done |].
      intros Heq. by apply append_inj_r in Heq.
  - cbn [fst] in Hinert.
    destruct (extractHandler_inert st k0 v0 Hinert)
      as (st1 & -> & Ht1 & Hs1 & Hb1 & Hsh1).
    destruct (inertKey_not_written k0 Hinert) as (Hnt & Hns & Hnb).
    destruct (IH st1) as (st' & -> & Ht & Hs & Hsh & Hb).
    exists st'. split; [done |].
    rewrite !if_elem_of_cons_ne by done.
    rewrite Ht, Hs, Hsh, Ht1, Hs1, Hsh1.
    split; [done |]. split; [done |]. split; [done |].
    intros k. rewrite Hb, Hb1. by rewrite if_elem_of_cons_ne.
Qed.

(** C1 (as the code has it): a real context without shadow tracer, whose ids
    are not both zero and whose baggage keys are unchanged by the codec's
    lower-casing, is injected without error into a text-map carrier that
    holds inert entries only (an empty one, say), and [Extract] reads back
    from that carrier, in whatever order the map is visited, a real context
    with the same TraceID, SpanID and baggage. *)
Theorem Extract_Inject_roundtrip t t' format (sc : spanContext) m0 :
  unsupportedFormat format = false ->
  0 <= TraceID sc < 2 ^ 64 ->
  0 <= SpanID sc < 2 ^ 64 ->
  ~ (TraceID sc = 0 /\ SpanID sc = 0) ->
  shadowTr sc = None ->
  baggageKeysLowered unicodeToLower (Baggage sc) ->
  inertCarrier unicodeToLower m0 ->
  exists carrier sc',
    Inject t (spanContextPtr sc) format (TextMapCarrier m0) = (None, carrier)
    /\ Extract unicodeToLower rangeOrder t' format carrier = (spanContextPtr sc', None)
    /\ TraceID sc' = TraceID sc
    /\ SpanID sc' = SpanID sc
    /\ Baggage sc' = Baggage sc.
Proof.
  intros Hfmt HT HS Hnz Hshadow Hkeys Hinert.
  unfold Inject, Extract. rewrite Hfmt, Hshadow.
  set (m := injectBaggage _ _).
  assert (Hentry : forall key v, m !! key = Some v ->
            injectedEntry sc (key, v) \/ m0 !! key = Some v)
    by apply injected_carrier_entry.
  assert (Hwritten : forall key v, injectedEntry sc (key, v) -> m !! key = Some v)
    by apply injected_carrier_written.
  exists (TextMapCarrier m).
  assert (Hgood : Forall (fun kv => injectedEntry sc kv \/ inertKey unicodeToLower kv.1)
                         (rangeOrder m)).
  { apply Forall_forall. intros [k v] Hin. apply elem_of_rangeOrder in Hin.
    destruct (Hentry k v Hin) as [? | Hold]; [by left |].
    right. by apply (Hinert k v). }
  assert (Hin : forall key v, m !! key = Some v -> key ∈ (rangeOrder m).*1).
  { intros key v Hkv. apply list_elem_of_fmap. exists (key, v).
    split; [done |]. by apply elem_of_rangeOrder. }
  destruct (ForeachKey_injected sc _ HT HS Hkeys Hgood extractInit)
    as (st & -> & Ht & Hs & Hsh & Hb).
  rewrite decide_True in Ht by (eapply Hin, Hwritten; by left).
  rewrite decide_True in Hs by (eapply Hin, Hwritten; by right; left).
  cbn [shadowType extractInit] in Hsh. rewrite Hsh, Ht, Hs.
  assert (Hids : (TraceID sc =? 0) && (SpanID sc =? 0) = false).
  { apply andb_false_iff.
    destruct (Z.eqb_spec (TraceID sc) 0), (Z.eqb_spec (SpanID sc) 0); tauto. }
  rewrite Hids. cbn [String.eqb negb].
  eexists. split; [reflexivity |]. split; [reflexivity |].
  cbn [TraceID SpanID Baggage extractedContext].
  split; [done |]. split; [done |].
  apply map_eq. intros k. rewrite Hb. cbn [es_Baggage extractInit].
  case_decide as Hn; [done |].
  rewrite lookup_empty. destruct (Baggage sc !! k) as [v |] eqn:Ev; [| done].
  destruct Hn. apply (Hin _ v), Hwritten. right; right. by exists k.
Qed.

End CodecProperties.

(** ** The tracer registry *)

Example registryRemove_middle :
  registryRemove {| tracers := [4; 7; 9]%nat |} 7%nat
  = Returns {| tracers := [4; 9]%nat |}.
Proof. reflexivity. Qed.

Example registryRemove_unknown :
  registryRemove {| tracers := [4; 7; 9]%nat |} 5%nat
  = Panics "removing unknown tracer".
Proof. reflexivity. Qed.

(** The slice expression of [Remove] drops the element at index
    [length before]. *)
Lemma remove_at_index (before after : list nat) (t : nat) :
  let all := (before ++ t :: after)%list in
  let i := length before in
  let '(shifted, n) := sliceCopy (drop i all) (drop (i + 1) all) in
  take (i + n) (take i all ++ shifted)%list = (before ++ after)%list.
Proof.
  cbv zeta. unfold sliceCopy.
  rewrite <- drop_drop, drop_app_length, take_app_length.
  cbn [drop length]. rewrite !drop_0.
  rewrite Nat.min_r by lia. rewrite firstn_all.
  rewrite app_assoc. apply take_app_length'. by rewrite length_app.
Qed.

Lemma removeLoop_spec (all : list nat) (t : nat) : forall rest before,
  all = (before ++ rest)%list -> (t ∉ before) ->
  ((t ∉ rest) ->
     removeLoop all rest (length before) t = Panics "removing unknown tracer")
  /\ (t ∈ rest ->
      exists mid after,
        rest = (mid ++ t :: after)%list /\ (t ∉ mid)
        /\ removeLoop all rest (length before) t
           = Returns (before ++ mid ++ after)%list).
Proof.
  induction rest as [| x rest IH]; intros before Hall Hbefore.
  - split; [done |]. intros Hin. by apply elem_of_nil in Hin.
  - cbn [removeLoop]. destruct (Nat.eqb_spec x t) as [-> | Hne].
    + split; [intros Hn; destruct Hn; by left |]. intros _.
      exists [], rest. split; [done |]. split; [apply not_elem_of_nil |].
      pose proof (remove_at_index before rest t) as Hidx.
      cbv zeta in Hidx. rewrite <- Hall in Hidx.
      destruct (sliceCopy _ _) as [shifted n]. by rewrite Hidx.
    + destruct (IH (before ++ [x])%list) as [Habsent Hpresent].
      { by rewrite <- app_assoc. }
      { rewrite elem_of_app, list_elem_of_singleton. intros [? | ?]; done. }
      rewrite length_app, Nat.add_1_r in Habsent, Hpresent.
      split.
      * intros Hn. apply Habsent. intros Hin. apply Hn. by right.
      * intros Hin. apply elem_of_cons in Hin as [? | Hin]; [done |].
        destruct (Hpresent Hin) as (mid & after & -> & Hmid & ->).
        exists (x :: mid), after. split; [done |].
        split; [rewrite elem_of_cons; intros [? | ?]; done |].
        by rewrite <- app_assoc.
Qed.

(** C8: [Remove] of a Tracer that is not in the registry panics; [Remove] of
    one that is returns, and the registry is left without that entry (its
    first occurrence), every other entry staying in place. *)
Theorem registryRemove_spec (tr : tracerRegistryImpl) (t : nat) :
  ((t ∉ tracers tr) -> registryRemove tr t = Panics "removing unknown tracer")
  /\ (t ∈ tracers tr ->
      exists before after,
        tracers tr = (before ++ t :: after)%list
        /\ (t ∉ before)
        /\ registryRemove tr t = Returns {| tracers := (before ++ after)%list |}).
Proof.
  unfold registryRemove.
  destruct (removeLoop_spec (tracers tr) t (tracers tr) []) as [Habsent Hpresent];
    [done | apply not_elem_of_nil |].
  cbn [length] in Habsent, Hpresent. split.
  - intros Hn. by rewrite Habsent.
  - intros Hin. destruct (Hpresent Hin) as (mid & after & Heq & Hmid & ->).
    by exists mid, after.
Qed.

(** In a registry without duplicates, the removed Tracer is gone. *)
Lemma registryRemove_NoDup (tr tr' : tracerRegistryImpl) (t : nat) :
  NoDup (tracers tr) -> registryRemove tr t = Returns tr' ->
  (t ∉ tracers tr') /\ forall x, x <> t -> (x ∈ tracers tr' <-> x ∈ tracers tr).
Proof.
  intros Hnd Hrem.
  destruct (decide (t ∈ tracers tr)) as [Hin | Hn].
  - destruct (removeLoop_spec (tracers tr) t (tracers tr) []) as [_ Hpresent];
      [done | apply not_elem_of_nil |].
    destruct (Hpresent Hin) as (mid & after & Heq & Hmid & Hloop).
    cbn [length] in Hloop. unfold registryRemove in Hrem. rewrite Hloop in Hrem. injection Hrem as <-.
    cbn [tracers app]. rewrite Heq in Hnd |- *.
    apply NoDup_app in Hnd as (_ & Hdisj & Hnd').
    apply NoDup_cons in Hnd' as [Hafter _].
    split.
    + rewrite elem_of_app. intros [? | ?]; done.
    + intros x Hx. rewrite !elem_of_app, elem_of_cons. tauto.
  - destruct (removeLoop_spec (tracers tr) t (tracers tr) []) as [Habsent _];
      [done | apply not_elem_of_nil |].
    cbn [length] in Habsent. unfold registryRemove in Hrem.
    by rewrite Habsent in Hrem.
Qed.

(** * Further properties *)

(** ** StartSpan: what the new span is made of *)

Lemma SetTag_core k v s : spanCore (SetTag k v s) = spanCore s.
Proof.
  unfold SetTag, spanCore. cbn.
  destruct (shadowSpan s) eqn:E; cbn; reflexivity.
Qed.

Lemma map_fold_SetTag_core {A} (f : A -> TagValue) (m : gmap string A) s :
  spanCore (map_fold (fun k v s => SetTag k (f v) s) s m) = spanCore s.
Proof.
  apply (map_fold_weak_ind (fun r _ => spanCore r = spanCore s)); [done |].
  intros k v m' r _ IH. by rewrite SetTag_core.
Qed.

Lemma SetTag_shadowLink k v s : shadowLink (SetTag k v s) = shadowLink s.
Proof.
  unfold SetTag, shadowLink. cbn.
  destruct (shadowSpan s) eqn:E; cbn; rewrite ?E; reflexivity.
Qed.

Lemma map_fold_SetTag_shadowLink {A} (f : A -> TagValue) (m : gmap string A) s :
  shadowLink (map_fold (fun k v s => SetTag k (f v) s) s m) = shadowLink s.
Proof.
  apply (map_fold_weak_ind (fun r _ => shadowLink r = shadowLink s)); [done |].
  intros k v m' r _ IH. by rewrite SetTag_shadowLink.
Qed.

Lemma tags_SetTag k v s : tags (SetTag k v s) = <[k := v]> (tags s).
Proof. unfold SetTag. cbn. by destruct (shadowSpan s). Qed.

(** Setting one tag per entry of a map leaves the map's entries over the
    tags that were there. *)
Lemma map_fold_SetTag_tags {A} (f : A -> TagValue) (m : gmap string A) s :
  tags (map_fold (fun k v s => SetTag k (f v) s) s m) = (f <$> m) ∪ tags s.
Proof.
  apply (map_fold_weak_ind (fun r m' => tags r = (f <$> m') ∪ tags s)).
  - by rewrite fmap_empty, (left_id_L ∅ (∪)).
  - intros k v m' r _ IH. by rewrite tags_SetTag, IH, fmap_insert, insert_union_l.
Qed.

(** The loop that copies a map entry by entry yields the map. *)
Lemma map_fold_copy (m : gmap string string) :
  map_fold (fun k v acc => <[k := v]> acc) ∅ m = m.
Proof.
  apply (map_fold_weak_ind (fun r m' => r = m')); [done |].
  intros k v m' r _ ->. reflexivity.
Qed.

Lemma Int63_draw w : Int63 w = (draw 0 w, afterDraws 1 w).
Proof.
  unfold Int63, draw, afterDraws. by rewrite Nat.add_0_r, Nat.add_1_r.
Qed.

Lemma draw_afterDraws n k w : draw n (afterDraws k w) = draw (k + n) w.
Proof. unfold draw, afterDraws. cbn. by rewrite Nat.add_assoc. Qed.

Lemma afterDraws_afterDraws n k w :
  afterDraws n (afterDraws k w) = afterDraws (k + n) w.
Proof. unfold afterDraws. cbn. by rewrite Nat.add_assoc. Qed.

(** The fields [buildSpan] fills besides tags, recording and shadow: name
    and times, the ids (drawn, or the parent's), the debug sink, the copy
    of the parent's baggage; and the random numbers it draws. *)
Lemma buildSpan_core t op sso nt sh pinfo w :
  let '(s, w') := buildSpan t op sso nt sh pinfo w in
  spanCore s =
    (addr t, op,
     (if sso_StartTime sso =? 0 then clock w else sso_StartTime sso), -1,
     match parent pinfo with Some (_, pc) => TraceID pc | None => draw 0 w end,
     match parent pinfo with Some _ => draw 0 w | None => draw 1 w end,
     match parent pinfo with Some (_, pc) => SpanID pc | None => 0 end,
     (if nt then Some {| nt_family := "tracing"; nt_title := op;
                         nt_maxEvents := maxLogsPerSpan |} else None),
     match parent pinfo with Some (_, pc) => Baggage pc | None => ∅ end)
  /\ w' = afterDraws (match parent pinfo with Some _ => 1 | None => 2 end) w.
Proof.
  unfold buildSpan.
  set (s0 := map_fold SetTag _ _).
  assert (H0 : spanCore s0 =
    (addr t, op, (if sso_StartTime sso =? 0 then clock w else sso_StartTime sso),
     -1, 0, 0, 0, None, ∅)).
  { unfold s0. rewrite (map_fold_SetTag_core (fun v => v)).
    cbn [newSpan startTime].
    by destruct (sso_StartTime sso =? 0). }
  clearbody s0.
  destruct pinfo as [par g ty]. cbn [parent pi_recordingGroup pi_recordingType].
  destruct par as [[pty pc] |]; rewrite ?map_fold_copy, !Int63_draw,
    ?draw_afterDraws, ?afterDraws_afterDraws; cbn [Nat.add];
    (split; [| reflexivity]);
    destruct sh as [tr |], g as [g |], nt; cbn [orb negb isNone];
    try (destruct (0 <? Z.of_nat (size (Baggage pc))) eqn:Esize;
         [| assert (Baggage pc = ∅) as ->
              by (apply map_size_empty_inv; apply Z.ltb_ge in Esize; lia)]);
    rewrite ?(map_fold_SetTag_core TagString);
    revert H0; unfold spanCore; cbn; intros [= H1 H2 H3 H4 H5 H6 H7 H8 H9];
    rewrite ?H1, ?H2, ?H3, ?H4, ?H7, ?H8, ?H9; reflexivity.
Qed.

(** The span as it stands after the tags of the options are set. *)
Lemma taggedSpan_facts t op sso w :
  let s0 :=
    map_fold SetTag
      (set_duration (-1)
         (if startTime (newSpan t op (sso_StartTime sso)) =? 0
          then set_startTime (clock w) (newSpan t op (sso_StartTime sso))
          else newSpan t op (sso_StartTime sso)))
      (sso_Tags sso) in
  spanCore s0 =
    (addr t, op, (if sso_StartTime sso =? 0 then clock w else sso_StartTime sso),
     -1, 0, 0, 0, None, ∅)
  /\ tags s0 = sso_Tags sso
  /\ shadowLink s0 = None.
Proof.
  cbv zeta. split; [| split].
  - etransitivity; [exact (map_fold_SetTag_core (fun v => v) _ _) |].
    cbn [newSpan startTime]. by destruct (sso_StartTime sso =? 0).
  - etransitivity; [exact (map_fold_SetTag_tags (fun v => v) _ _) |].
    rewrite map_fmap_id. destruct (startTime _ =? 0); cbn;
      by rewrite (right_id_L ∅ (∪)).
  - etransitivity; [exact (map_fold_SetTag_shadowLink (fun v => v) _ _) |].
    by destruct (startTime _ =? 0).
Qed.

Lemma buildSpan_tags t op sso nt sh pinfo w :
  tags (buildSpan t op sso nt sh pinfo w).1 =
    if nt || negb (isNone sh)
    then (TagString <$> match parent pinfo with
                        | Some (_, pc) => Baggage pc
                        | None => ∅
                        end) ∪ sso_Tags sso
    else sso_Tags sso.
Proof.
  unfold buildSpan.
  destruct (taggedSpan_facts t op sso w) as (Hcore & H0 & _).
  set (s0 := map_fold SetTag _ _) in *. clearbody s0.
  unfold spanCore in Hcore. injection Hcore as _ _ _ _ _ _ _ _ Hbag.
  destruct pinfo as [par g ty]. cbn [parent pi_recordingGroup pi_recordingType].
  destruct par as [[pty pc] |]; rewrite ?map_fold_copy, !Int63_draw;
    destruct sh as [tr |], g as [g |], nt; cbn [orb negb isNone fst];
    try (destruct (0 <? Z.of_nat (size (Baggage pc))) eqn:Esize;
         [| assert (Baggage pc = ∅) as Hempty
              by (apply map_size_empty_inv; apply Z.ltb_ge in Esize; lia)]);
    rewrite ?(map_fold_SetTag_tags TagString); cbn; rewrite ?H0;
    try reflexivity;
    rewrite ?Hempty, ?Hbag, ?map_fold_empty, ?fmap_empty; cbn;
    rewrite ?H0, ?(left_id_L ∅ (∪)); reflexivity.
Qed.

Lemma buildSpan_shadowLink t op sso nt sh pinfo w :
  shadowLink (buildSpan t op sso nt sh pinfo w).1 =
    (fun _ => (op, (if sso_StartTime sso =? 0 then clock w else sso_StartTime sso),
               match parent pinfo with
               | Some (ty, pc) => (fun c => (ty, c)) <$> shadowCtx pc
               | None => None
               end)) <$> sh.
Proof.
  unfold buildSpan.
  destruct (taggedSpan_facts t op sso w) as (Hcore & _ & Hlink).
  set (s0 := map_fold SetTag _ _) in *. clearbody s0.
  unfold spanCore in Hcore. injection Hcore as _ Hop Hst _ _ _ _ _ _.
  destruct pinfo as [par g ty]. cbn [parent pi_recordingGroup pi_recordingType].
  destruct par as [[pty pc] |]; rewrite ?map_fold_copy, !Int63_draw;
    destruct sh as [tr |], g as [g |], nt;
    cbn [orb negb isNone fst fmap option_fmap option_map];
    try destruct (0 <? Z.of_nat (size (Baggage pc)));
    rewrite ?(map_fold_SetTag_shadowLink TagString);
    unfold shadowLink in *; cbn; rewrite ?Hop, ?Hst; try reflexivity; exact Hlink.
Qed.


(** ** StartSpan: when a span is real *)

Lemma referencesLoop_foreign refs w ty :
  find resolvesToParent refs = Some (ty, foreignSpanContext) ->
  exists msg, referencesLoop refs w = Panics msg.
Proof.
  intros Hfind. rewrite (referencesLoop_found _ _ _ Hfind).
  apply find_some in Hfind as [_ Hr]. unfold resolvesToParent in Hr.
  apply andb_true_iff in Hr as [Hty _]. cbn [fst] in Hty.
  cbn [referencesLoop]. rewrite Hty. cbn [negb]. eauto.
Qed.

(** What the loop leaves behind for a parent it found. *)
Lemma referencesLoop_parent ty pc w :
  isParentRefType ty = true ->
  exists pinfo w1,
    referencesLoop [(ty, spanContextPtr pc)] w = Returns (pinfo, w1)
    /\ parent pinfo = Some (ty, pc)
    /\ match recordingGroup pc with
       | Some g =>
           pi_recordingGroup pinfo = Some g
           /\ pi_recordingType pinfo = recordingType pc /\ w1 = w
       | None =>
           if String.eqb (default "" (Baggage pc !! Snowball)) ""
           then pi_recordingGroup pinfo = None /\ w1 = w
           else pi_recordingGroup pinfo = Some (fresh (spanGroups w))
                /\ pi_recordingType pinfo = SnowballRecording
                /\ w1 = (newSpanGroup w).2
       end.
Proof.
  intros Hty. cbn [referencesLoop]. rewrite Hty. cbn [negb].
  destruct (recordingGroup pc) as [g |]; [by eauto 10 |].
  destruct (String.eqb _ ""); cbn [negb]; [by eauto 10 |].
  unfold newSpanGroup. cbn. by eauto 10.
Qed.

Lemma resolvedParent_cases opts :
  resolvedParent opts = None
  \/ (exists ty pc, resolvedParent opts = Some (ty, spanContextPtr pc)
                    /\ isParentRefType ty = true)
  \/ foreignParent opts.
Proof.
  unfold foreignParent.
  destruct (resolvedParent opts) as [[ty ctx] |] eqn:Hres; [| by left].
  right. pose proof Hres as Hfind.
  apply find_some in Hfind as [_ Hr]. unfold resolvesToParent in Hr.
  apply andb_true_iff in Hr as [Hty Hctx]. cbn [fst snd] in Hty, Hctx.
  destruct ctx; try discriminate; [left | right]; eauto.
Qed.

Lemma singleNoopReference_not_recordable opts :
  Recordable ∈ opts -> singleNoopReference opts = false.
Proof.
  intros Hin. destruct opts as [| o [| o' opts]]; try reflexivity.
  - apply list_elem_of_singleton in Hin as <-. reflexivity.
  - destruct o as [ty ctx | | | |]; try reflexivity. by destruct ctx.
Qed.

Lemma existsb_isRecordableOption_true opts :
  Recordable ∈ opts -> existsb isRecordableOption opts = true.
Proof.
  intros Hin. apply existsb_exists. exists Recordable.
  split; [by apply list_elem_of_In | reflexivity].
Qed.

Lemma existsb_isRecordableOption_inv opts :
  existsb isRecordableOption opts = true -> Recordable ∈ opts.
Proof.
  intros Hex. apply existsb_exists in Hex as (o & Hin & Ho).
  destruct o; try discriminate. by apply list_elem_of_In.
Qed.

(** [StartSpan] past its first fast path, when no parent is resolved. *)
Lemma StartSpan_root t w op opts :
  resolvedParent opts = None ->
  singleNoopReference opts = false ->
  StartSpan t w op opts =
    if negb (existsb isRecordableOption opts) && isNone (getShadowTracer t)
       && negb (enableNetTrace w) && negb (forceRealSpans t)
    then Returns (noopSpanOf t, w)
    else
      let '(s, w2) :=
        buildSpan t op (foldl (fun sso o => Apply o sso) emptyStartSpanOptions opts)
                  (enableNetTrace w) (getShadowTracer t) noParent w in
      Returns (spanPtr s, w2).
Proof.
  intros Hres Hsingle. unfold StartSpan. rewrite Hsingle.
  rewrite References_of_options, (referencesLoop_none _ _ Hres).
  cbn [parent noParent pi_recordingGroup isNone andb].
  rewrite andb_true_r.
  destruct opts as [| o opts]; [| reflexivity].
  cbn [length Nat.eqb existsb negb andb].
  by destruct (negb (enableNetTrace w) && isNone (getShadowTracer t)
               && negb (forceRealSpans t)) eqn:E;
    destruct (enableNetTrace w), (getShadowTracer t), (forceRealSpans t).
Qed.

Lemma StartSpan_foreign t w op opts :
  foreignParent opts -> exists msg, StartSpan t w op opts = Panics msg.
Proof.
  intros [ty Hres]. unfold StartSpan.
  destruct (singleNoopReference opts) eqn:Esingle.
  { apply singleNoopReference_resolved in Esingle. congruence. }
  destruct opts as [| o opts]; [discriminate |].
  cbn [length Nat.eqb andb]. rewrite References_of_options.
  destruct (referencesLoop_foreign _ w ty Hres) as [msg ->]. eauto.
Qed.

(** X1 (StartSpan):
    [StartSpan] panics exactly when the first reference it does not skip
    holds a context of another implementation: the type assertion of line
    206 fails. *)
Theorem StartSpan_panics_iff t w op opts :
  (exists msg, StartSpan t w op opts = Panics msg) <-> foreignParent opts.
Proof.
  split; [| apply StartSpan_foreign].
  intros [msg Hpanic].
  destruct (resolvedParent_cases opts) as [Hnone | [(ty & pc & Hres & _) | Hf]];
    [| | done].
  - destruct (singleNoopReference opts) eqn:Esingle.
    + unfold StartSpan in Hpanic. by rewrite Esingle in Hpanic.
    + rewrite (StartSpan_root _ _ _ _ Hnone Esingle) in Hpanic.
      destruct (negb _ && _ && _ && _); [discriminate |].
      by destruct (buildSpan _ _ _ _ _ _ _).
  - destruct (StartSpan_resolved t w op opts ty pc Hres)
      as (pinfo & w1 & _ & _ & Heq).
    rewrite Heq in Hpanic.
    destruct (negb _ && _ && _ && _ && _); [discriminate |].
    by destruct (buildSpan _ _ _ _ _ _ _).
Qed.

(** X2 (StartSpan):
    The [Recordable] option forces a real span: with it among the options
    (and no foreign parent context) [StartSpan] never returns the noop
    span, whatever the configuration. *)
Theorem StartSpan_recordable t w op opts :
  Recordable ∈ opts ->
  ~ foreignParent opts ->
  exists s w', StartSpan t w op opts = Returns (spanPtr s, w').
Proof.
  intros Hrec Hnf.
  pose proof (singleNoopReference_not_recordable _ Hrec) as Hsingle.
  pose proof (existsb_isRecordableOption_true _ Hrec) as Hex.
  destruct (resolvedParent_cases opts) as [Hnone | [(ty & pc & Hres & _) | Hf]];
    [| | done].
  - rewrite (StartSpan_root _ _ _ _ Hnone Hsingle), Hex. cbn [negb andb].
    destruct (buildSpan _ _ _ _ _ _ _) as [s w']. eauto.
  - destruct (StartSpan_resolved t w op opts ty pc Hres)
      as (pinfo & w1 & _ & _ & ->).
    rewrite Hex. cbn [negb andb].
    destruct (buildSpan _ _ _ _ _ _ _) as [s w']. eauto.
Qed.

(** X3 (StartSpan):
    With [forceRealSpans] set or the net/trace setting on, every call but
    the single-noop-reference one returns a real span; the span has a
    net/trace instance, bounded to [maxLogsPerSpan] events, exactly when the
    setting is on. *)
Theorem StartSpan_forced t w op opts :
  forceRealSpans t = true \/ enableNetTrace w = true ->
  singleNoopReference opts = false ->
  ~ foreignParent opts ->
  exists s w',
    StartSpan t w op opts = Returns (spanPtr s, w')
    /\ netTr s = if enableNetTrace w
                 then Some {| nt_family := "tracing"; nt_title := op;
                              nt_maxEvents := 1000 |}
                 else None.
Proof.
  intros Hon Hsingle Hnf.
  assert (Hcond : forall a b c, a && b && negb (enableNetTrace w)
                                && negb (forceRealSpans t) = false
                   /\ a && b && c && negb (enableNetTrace w)
                      && negb (forceRealSpans t) = false).
  { intros a b c. destruct Hon as [-> | ->]; cbn [negb];
      by rewrite ?andb_false_r. }
  destruct (resolvedParent_cases opts) as [Hnone | [(ty & pc & Hres & _) | Hf]];
    [| | done].
  - rewrite (StartSpan_root _ _ _ _ Hnone Hsingle).
    rewrite (proj1 (Hcond _ _ true)).
    match goal with
    | |- context [buildSpan ?a ?b ?c ?d ?e ?f ?g] =>
        pose proof (buildSpan_core a b c d e f g) as Hcore;
        destruct (buildSpan a b c d e f g) as [s w']
    end.
    destruct Hcore as [Hcore _]. unfold spanCore in Hcore.
    injection Hcore as _ _ _ _ _ _ _ Hnet _. by exists s, w'.
  - destruct (StartSpan_resolved t w op opts ty pc Hres)
      as (pinfo & w1 & _ & _ & ->).
    rewrite (proj2 (Hcond _ _ _)).
    match goal with
    | |- context [buildSpan ?a ?b ?c ?d ?e ?f ?g] =>
        pose proof (buildSpan_core a b c d e f g) as Hcore;
        destruct (buildSpan a b c d e f g) as [s w']
    end.
    destruct Hcore as [Hcore _]. unfold spanCore in Hcore.
    injection Hcore as _ _ _ _ _ _ _ Hnet _. by exists s, w'.
Qed.


(** How a real span came about: without a resolved parent, or with one. *)
Lemma StartSpan_real_inv t w op opts s w' :
  StartSpan t w op opts = Returns (spanPtr s, w') ->
  let sso := foldl (fun sso o => Apply o sso) emptyStartSpanOptions opts in
  (resolvedParent opts = None
   /\ negb (existsb isRecordableOption opts) && isNone (getShadowTracer t)
      && negb (enableNetTrace w) && negb (forceRealSpans t) = false
   /\ buildSpan t op sso (enableNetTrace w) (getShadowTracer t) noParent w = (s, w'))
  \/ (exists ty pc pinfo w1,
        resolvedParent opts = Some (ty, spanContextPtr pc)
        /\ isParentRefType ty = true
        /\ referencesLoop [(ty, spanContextPtr pc)] w = Returns (pinfo, w1)
        /\ parent pinfo = Some (ty, pc)
        /\ negb (existsb isRecordableOption opts) && isNone (pi_recordingGroup pinfo)
           && isNone (shadowTr pc) && negb (enableNetTrace w)
           && negb (forceRealSpans t) = false
        /\ buildSpan t op sso (enableNetTrace w) (shadowTr pc) pinfo w1 = (s, w')).
Proof.
  intros Hret. cbv zeta.
  destruct (resolvedParent_cases opts) as [Hnone | [(ty & pc & Hres & Hty) | Hf]].
  - left. split; [done |].
    destruct (singleNoopReference opts) eqn:Esingle.
    { unfold StartSpan in Hret. rewrite Esingle in Hret. discriminate. }
    rewrite (StartSpan_root _ _ _ _ Hnone Esingle) in Hret.
    destruct (negb _ && _ && _ && _); [discriminate |]. split; [done |].
    destruct (buildSpan _ _ _ _ _ _ _) as [s1 w2]. by injection Hret as -> ->.
  - right. exists ty, pc.
    destruct (StartSpan_resolved t w op opts ty pc Hres)
      as (pinfo & w1 & Hloop & Hpar & Heq).
    exists pinfo, w1. rewrite Heq in Hret.
    destruct (negb _ && _ && _ && _ && _); [discriminate |].
    destruct (buildSpan _ _ _ _ _ _ _) as [s1 w2]. by injection Hret as -> ->.
  - destruct (StartSpan_foreign t w op opts Hf) as [msg Hp]. congruence.
Qed.

(** X4 (StartSpan):
    [StartSpan] never makes a real span without a reason: the [Recordable]
    option, the net/trace setting, [forceRealSpans], a shadow tracer (the
    Tracer's for a root span, the parent's for a child), or a parent that
    belongs to a recording or carries the snowball baggage item. *)
Theorem StartSpan_real_span_reason t w op opts s w' :
  StartSpan t w op opts = Returns (spanPtr s, w') ->
  Recordable ∈ opts
  \/ enableNetTrace w = true
  \/ forceRealSpans t = true
  \/ (resolvedParent opts = None /\ getShadowTracer t <> None)
  \/ (exists ty pc, resolvedParent opts = Some (ty, spanContextPtr pc)
                    /\ (parentRecords pc \/ shadowTr pc <> None)).
Proof.
  intros Hret.
  destruct (StartSpan_real_inv _ _ _ _ _ _ Hret)
    as [(Hnone & Hcond & _) | (ty & pc & pinfo & w1 & Hres & Hty & Hloop & _ & Hcond & _)].
  - destruct (existsb isRecordableOption opts) eqn:Hex;
      [left; by apply existsb_isRecordableOption_inv |].
    destruct (enableNetTrace w); [by right; left |].
    destruct (forceRealSpans t); [by right; right; left |].
    right; right; right; left. split; [done |].
    by destruct (getShadowTracer t).
  - destruct (existsb isRecordableOption opts) eqn:Hex;
      [left; by apply existsb_isRecordableOption_inv |].
    destruct (enableNetTrace w); [by right; left |].
    destruct (forceRealSpans t); [by right; right; left |].
    right; right; right; right. exists ty, pc. split; [done |].
    destruct (shadowTr pc) as [tr |]; [by right |]. left.
    destruct (referencesLoop_parent ty pc w Hty) as (pinfo' & w1' & Hloop' & _ & Hrec).
    rewrite Hloop in Hloop'. injection Hloop' as <- <-.
    unfold parentRecords.
    destruct (recordingGroup pc) as [g |]; [by left |]. right.
    destruct (String.eqb _ "") eqn:Eq; [| by apply String.eqb_neq].
    destruct Hrec as [Hg _]. rewrite Hg in Hcond. discriminate.
Qed.

(** X5 (StartSpan):
    A root span: without a resolved parent the new span takes two numbers
    from the random source, the first as TraceID and the second as SpanID
    (both below 2^63); it has no parent id and no baggage. *)
Theorem StartSpan_root_identity t w op opts s w' :
  resolvedParent opts = None ->
  StartSpan t w op opts = Returns (spanPtr s, w') ->
  span_TraceID s = draw 0 w /\ span_SpanID s = draw 1 w
  /\ 0 <= span_TraceID s < 2 ^ 63 /\ 0 <= span_SpanID s < 2 ^ 63
  /\ parentSpanID s = 0 /\ span_Baggage s = ∅
  /\ w' = afterDraws 2 w.
Proof.
  intros Hnone Hret.
  destruct (StartSpan_real_inv _ _ _ _ _ _ Hret)
    as [(_ & _ & Hbuild) | (ty & pc & _ & _ & Hres & _)]; [| congruence].
  pose proof (buildSpan_core t op
    (foldl (fun sso o => Apply o sso) emptyStartSpanOptions opts)
    (enableNetTrace w) (getShadowTracer t) noParent w) as Hcore.
  rewrite Hbuild in Hcore. destruct Hcore as [Hcore ->].
  unfold spanCore in Hcore. cbn [parent noParent] in Hcore.
  injection Hcore as _ _ _ _ Ht Hs Hp _ Hb. rewrite Ht, Hs.
  repeat split; try done; unfold draw; apply Z.mod_pos_bound; lia.
Qed.

Lemma StartSpan_child_core t w op opts ty pc s w' :
  resolvedParent opts = Some (ty, spanContextPtr pc) ->
  StartSpan t w op opts = Returns (spanPtr s, w') ->
  span_TraceID s = TraceID pc /\ parentSpanID s = SpanID pc
  /\ span_Baggage s = Baggage pc
  /\ span_SpanID s = draw 0 w /\ 0 <= span_SpanID s < 2 ^ 63
  /\ randPos w' = S (randPos w).
Proof.
  intros Hres Hret.
  destruct (StartSpan_real_inv _ _ _ _ _ _ Hret)
    as [(Hnone & _) | (ty' & pc' & pinfo & w1 & Hres' & Hty & Hloop & Hpar & _ & Hbuild)];
    [congruence |].
  rewrite Hres in Hres'. injection Hres' as <- <-.
  destruct (referencesLoop_parent ty pc w Hty) as (pinfo' & w1' & Hloop' & _ & Hrec).
  rewrite Hloop in Hloop'. injection Hloop' as <- <-.
  assert (Hw1 : randPos w1 = randPos w /\ randSrc w1 = randSrc w).
  { destruct (recordingGroup pc); [by destruct Hrec as (_ & _ & ->) |].
    destruct (String.eqb _ "");
      [by destruct Hrec as (_ & ->) | by destruct Hrec as (_ & _ & ->)]. }
  destruct Hw1 as [Hpos Hsrc].
  match type of Hbuild with
  | buildSpan ?a ?b ?c ?d ?e ?f ?g = _ =>
      pose proof (buildSpan_core a b c d e f g) as Hcore
  end.
  rewrite Hbuild, Hpar in Hcore. destruct Hcore as [Hcore ->].
  unfold spanCore in Hcore. injection Hcore as _ _ _ _ Ht Hs Hp _ Hb.
  assert (Hdraw : draw 0 w1 = draw 0 w) by (unfold draw; by rewrite Hpos, Hsrc).
  rewrite Hs, Hdraw. repeat split; try done.
  - unfold draw. apply Z.mod_pos_bound. lia.
  - unfold draw. apply Z.mod_pos_bound. lia.
  - cbn. rewrite Hpos. lia.
Qed.

(** X6 (StartSpan):
    A child span: with a resolved parent the new span has the parent's
    TraceID, the parent's SpanID as parent id, a copy of the parent's
    baggage, and one fresh number from the random source as SpanID. *)
Theorem StartSpan_child_identity t w op opts ty pc s w' :
  resolvedParent opts = Some (ty, spanContextPtr pc) ->
  StartSpan t w op opts = Returns (spanPtr s, w') ->
  span_TraceID s = TraceID pc /\ parentSpanID s = SpanID pc
  /\ span_Baggage s = Baggage pc
  /\ span_SpanID s = draw 0 w /\ 0 <= span_SpanID s < 2 ^ 63
  /\ randPos w' = S (randPos w).
Proof. apply StartSpan_child_core. Qed.

(** X7 (StartSpan):
    A child of a recording parent joins the parent's recording: it is a
    real span in the parent's group with the parent's recording kind, and
    no group is allocated. *)
Theorem StartSpan_joins_recording t w op opts ty pc g :
  resolvedParent opts = Some (ty, spanContextPtr pc) ->
  recordingGroup pc = Some g ->
  exists s w',
    StartSpan t w op opts = Returns (spanPtr s, w')
    /\ span_recordingGroup s = Some g
    /\ span_recordingType s = recordingType pc
    /\ spanGroups w' = spanGroups w.
Proof.
  intros Hres Hgroup.
  destruct (StartSpan_resolved t w op opts ty pc Hres)
    as (pinfo & w1 & Hloop & Hpar & ->).
  assert (Hty : isParentRefType ty = true).
  { cbn [referencesLoop] in Hloop. destruct (isParentRefType ty); [done |].
    cbn [negb] in Hloop. injection Hloop as <- <-. discriminate. }
  destruct (referencesLoop_parent ty pc w Hty) as (pinfo' & w1' & Hloop' & _ & Hrec).
  rewrite Hloop in Hloop'. injection Hloop' as <- <-.
  rewrite Hgroup in Hrec. destruct Hrec as (Hg & Hrt & ->).
  rewrite Hg. cbn [isNone andb]. rewrite andb_false_r. cbn [andb].
  match goal with
  | |- context [buildSpan ?a ?b ?c ?d ?e ?f ?g] =>
      pose proof (buildSpan_frame a b c d e f g) as Hframe;
      destruct (buildSpan a b c d e f g) as [s w2]
  end.
  destruct Hframe as [Hframe Hgroups]. rewrite Hg, Hrt in Hframe.
  unfold spanFrame in Hframe. injection Hframe as Hsg Hst _ _.
  by exists s, w2.
Qed.

(** X8 (StartSpan):
    A new span records only by inheritance: if the span [StartSpan]
    returns is recording, it has a resolved parent that belongs to a
    recording group or carries the snowball baggage item. *)
Theorem StartSpan_recording_inherited t w op opts s w' :
  StartSpan t w op opts = Returns (spanPtr s, w') ->
  isRecording s = true ->
  exists ty pc, resolvedParent opts = Some (ty, spanContextPtr pc)
                /\ parentRecords pc.
Proof.
  intros Hret Hrec.
  destruct (StartSpan_real_inv _ _ _ _ _ _ Hret)
    as [(_ & _ & Hbuild) | (ty & pc & pinfo & w1 & Hres & Hty & Hloop & _ & _ & Hbuild)].
  - exfalso.
    pose proof (buildSpan_frame t op
      (foldl (fun sso o => Apply o sso) emptyStartSpanOptions opts)
      (enableNetTrace w) (getShadowTracer t) noParent w) as Hframe.
    rewrite Hbuild in Hframe. destruct Hframe as [Hframe _].
    unfold spanFrame in Hframe. cbn [noParent pi_recordingGroup] in Hframe.
    injection Hframe as Hg _ _ _. unfold isRecording in Hrec.
    by rewrite Hg in Hrec.
  - exists ty, pc. split; [done |].
    match type of Hbuild with
    | buildSpan ?a ?b ?c ?d ?e ?f ?g = _ =>
        pose proof (buildSpan_frame a b c d e f g) as Hframe
    end.
    rewrite Hbuild in Hframe. destruct Hframe as [Hframe _].
    unfold spanFrame in Hframe. injection Hframe as Hg _ _ _.
    unfold isRecording in Hrec. rewrite Hg in Hrec.
    destruct (referencesLoop_parent ty pc w Hty) as (pinfo' & w1' & Hloop' & _ & Hspec).
    rewrite Hloop in Hloop'. injection Hloop' as <- <-.
    unfold parentRecords.
    destruct (recordingGroup pc) as [g |]; [by left |]. right.
    destruct (String.eqb _ "") eqn:Eq; [| by apply String.eqb_neq].
    destruct Hspec as [Hnone _]. by rewrite Hnone in Hrec.
Qed.


Lemma sso_StartTime_foldl opts : forall sso,
  sso_StartTime (foldl (fun sso o => Apply o sso) sso opts)
  = foldl (fun acc o => match o with StartTime t => t | _ => acc end)
          (sso_StartTime sso) opts.
Proof.
  induction opts as [| o opts IH]; intros sso; [reflexivity |].
  cbn [foldl]. rewrite IH. by destruct o.
Qed.

Lemma optionStartTime_spec opts :
  optionStartTime opts
  = sso_StartTime (foldl (fun sso o => Apply o sso) emptyStartSpanOptions opts).
Proof. symmetry. apply (sso_StartTime_foldl opts emptyStartSpanOptions). Qed.

Lemma referencesLoop_clock refs : forall w pinfo w1,
  referencesLoop refs w = Returns (pinfo, w1) -> clock w1 = clock w.
Proof.
  induction refs as [| [ty ctx] refs IH]; intros w pinfo w1 Hloop.
  - by injection Hloop as _ <-.
  - cbn [referencesLoop] in Hloop.
    destruct (negb (isParentRefType ty)); [by eapply IH |].
    destruct ctx as [| | pc |];
      [by eapply IH | by eapply IH | | discriminate].
    destruct (recordingGroup pc); [by injection Hloop as _ <- |].
    destruct (negb _); [| by injection Hloop as _ <-].
    unfold newSpanGroup in Hloop. by injection Hloop as _ <-.
Qed.

Lemma StartSpan_fields t w op opts s w' :
  StartSpan t w op opts = Returns (spanPtr s, w') ->
  startTime s = (if optionStartTime opts =? 0 then clock w else optionStartTime opts)
  /\ duration s = -1 /\ operation s = op /\ tracer s = addr t.
Proof.
  intros Hret. rewrite optionStartTime_spec.
  destruct (StartSpan_real_inv _ _ _ _ _ _ Hret)
    as [(_ & _ & Hbuild) | (ty & pc & pinfo & w1 & _ & _ & Hloop & _ & _ & Hbuild)].
  - match type of Hbuild with
    | buildSpan ?a ?b ?c ?d ?e ?f ?g = _ =>
        pose proof (buildSpan_core a b c d e f g) as Hcore
    end.
    rewrite Hbuild in Hcore. destruct Hcore as [Hcore _].
    unfold spanCore in Hcore. by injection Hcore as -> -> -> -> _ _ _ _ _.
  - match type of Hbuild with
    | buildSpan ?a ?b ?c ?d ?e ?f ?g = _ =>
        pose proof (buildSpan_core a b c d e f g) as Hcore
    end.
    rewrite Hbuild in Hcore. destruct Hcore as [Hcore _].
    rewrite (referencesLoop_clock _ _ _ _ Hloop) in Hcore.
    unfold spanCore in Hcore. by injection Hcore as -> -> -> -> _ _ _ _ _.
Qed.

(** X9 (StartSpan):
    The new span is open and named as asked; it starts at the last
    [StartTime] option when that is not the zero time, and at the current
    time otherwise. *)
Theorem StartSpan_start_time t w op opts s w' :
  StartSpan t w op opts = Returns (spanPtr s, w') ->
  startTime s = (if optionStartTime opts =? 0 then clock w else optionStartTime opts)
  /\ duration s = -1 /\ operation s = op /\ tracer s = addr t.
Proof. apply StartSpan_fields. Qed.

(** X10 (StartSpan):
    When the span is mirrored (net/trace on, or the parent has a shadow
    tracer), every baggage item of the parent is also a tag of the span. *)
Theorem StartSpan_baggage_tags t w op opts ty pc s w' :
  resolvedParent opts = Some (ty, spanContextPtr pc) ->
  StartSpan t w op opts = Returns (spanPtr s, w') ->
  enableNetTrace w = true \/ shadowTr pc <> None ->
  forall k v, Baggage pc !! k = Some v -> tags s !! k = Some (TagString v).
Proof.
  intros Hres Hret Hmirror k v Hkv.
  destruct (StartSpan_real_inv _ _ _ _ _ _ Hret)
    as [(Hnone & _) | (ty' & pc' & pinfo & w1 & Hres' & _ & _ & Hpar & _ & Hbuild)];
    [congruence |].
  rewrite Hres in Hres'. injection Hres' as <- <-.
  match type of Hbuild with
  | buildSpan ?a ?b ?c ?d ?e ?f ?g = _ =>
      pose proof (buildSpan_tags a b c d e f g) as Htags
  end.
  rewrite Hbuild, Hpar in Htags. cbn [fst] in Htags. rewrite Htags.
  assert (Hon : enableNetTrace w || negb (isNone (shadowTr pc)) = true).
  { destruct Hmirror as [-> | Hsh]; [done |].
    destruct (shadowTr pc); [by rewrite orb_true_r | done]. }
  rewrite Hon. apply lookup_union_Some_l. by rewrite lookup_fmap, Hkv.
Qed.

(** X11 (StartSpan):
    A root span is mirrored in the shadow tracer the Tracer has at that
    moment, and its mirrored span is opened without a parent link. *)
Theorem StartSpan_root_shadow_link t w op opts s w' :
  resolvedParent opts = None ->
  StartSpan t w op opts = Returns (spanPtr s, w') ->
  span_shadowTr s = getShadowTracer t
  /\ shadowLink s = (fun _ => (op, startTime s, None)) <$> getShadowTracer t.
Proof.
  intros Hnone Hret.
  destruct (StartSpan_fields _ _ _ _ _ _ Hret) as (Hstart & _).
  destruct (StartSpan_real_inv _ _ _ _ _ _ Hret)
    as [(_ & _ & Hbuild) | (ty & pc & _ & _ & Hres & _)]; [| congruence].
  match type of Hbuild with
  | buildSpan ?a ?b ?c ?d ?e ?f ?g = _ =>
      pose proof (buildSpan_frame a b c d e f g) as Hframe;
      pose proof (buildSpan_shadowLink a b c d e f g) as Hlink
  end.
  rewrite Hbuild in Hframe, Hlink. cbn [fst] in Hlink.
  destruct Hframe as [Hframe _]. unfold spanFrame in Hframe.
  injection Hframe as _ _ Hsh _. split; [done |].
  by rewrite Hlink, Hstart, optionStartTime_spec.
Qed.

(** X12 (StartSpan):
    A child of a parent with a shadow tracer is mirrored there by a span
    linked to the parent's shadow context (when it has one) with the kind of
    the reference; no shadow tracer on the parent, no mirrored span. *)
Theorem StartSpan_child_shadow_link t w op opts ty pc s w' :
  resolvedParent opts = Some (ty, spanContextPtr pc) ->
  StartSpan t w op opts = Returns (spanPtr s, w') ->
  shadowLink s
  = (fun _ => (op, startTime s, (fun c => (ty, c)) <$> shadowCtx pc)) <$> shadowTr pc.
Proof.
  intros Hres Hret.
  destruct (StartSpan_fields _ _ _ _ _ _ Hret) as (Hstart & _).
  destruct (StartSpan_real_inv _ _ _ _ _ _ Hret)
    as [(Hnone & _) | (ty' & pc' & pinfo & w1 & Hres' & _ & Hloop & Hpar & _ & Hbuild)];
    [congruence |].
  rewrite Hres in Hres'. injection Hres' as <- <-.
  match type of Hbuild with
  | buildSpan ?a ?b ?c ?d ?e ?f ?g = _ =>
      pose proof (buildSpan_shadowLink a b c d e f g) as Hlink
  end.
  rewrite Hbuild, Hpar in Hlink. cbn [fst] in Hlink.
  by rewrite Hlink, Hstart, (referencesLoop_clock _ _ _ _ Hloop),
    optionStartTime_spec.
Qed.


(** ** Inject: errors and what it writes *)

Lemma HasPrefix_weaken p q : forall s,
  HasPrefix s (p ++ q) = true -> HasPrefix s p = true.
Proof.
  induction p as [| c p IH]; intros s Hs; [by destruct s |].
  rewrite append_cons in Hs. destruct s as [| c' s]; [discriminate |].
  cbn [HasPrefix] in Hs |- *. destruct (Ascii.eqb c c'); [by apply IH | done].
Qed.

Lemma reserved_keys key :
  HasPrefix key prefixReserved = false ->
  key <> fieldNameTraceID /\ key <> fieldNameSpanID /\ key <> fieldNameShadowType
  /\ HasPrefix key prefixBaggage = false /\ HasPrefix key prefixShadow = false.
Proof.
  intros Hkey. repeat split; try (intros ->; discriminate).
  - destruct (HasPrefix key prefixBaggage) eqn:E; [| done].
    apply (HasPrefix_weaken prefixReserved "baggage-") in E. congruence.
  - destruct (HasPrefix key prefixShadow) eqn:E; [| done].
    apply (HasPrefix_weaken prefixReserved "shadow-") in E. congruence.
Qed.

Lemma injectShadow_lookup_other writes : forall m key,
  HasPrefix key prefixShadow = false ->
  injectShadow writes m !! key = m !! key.
Proof.
  induction writes as [| [k v] writes IH]; intros m key Hkey; [done |].
  unfold injectShadow in *. cbn [foldl fst snd]. rewrite IH by done.
  apply lookup_insert_ne. intros <-. by rewrite HasPrefix_app in Hkey.
Qed.

(** Under the shadow prefix the carrier holds what the shadow tracer wrote,
    a later [Set] of a key replacing an earlier one. *)
Lemma injectShadow_lookup_key writes m k :
  injectShadow writes m !! (prefixShadow ++ k)
  = match shadowWritten writes !! k with
    | Some v => Some v
    | None => m !! (prefixShadow ++ k)
    end.
Proof.
  unfold injectShadow, shadowWritten.
  induction writes as [| [k0 v0] writes IH] using rev_ind; [done |].
  rewrite !foldl_snoc. cbn [fst snd].
  destruct (decide (k0 = k)) as [-> | Hne].
  - by rewrite !lookup_insert_eq.
  - rewrite !lookup_insert_ne; [done | done |].
    intros Heq. by apply append_inj_r in Heq.
Qed.

Lemma injectBaggage_keeps baggage m key :
  is_Some (m !! key) -> is_Some (injectBaggage baggage m !! key).
Proof.
  intros Hkey. unfold injectBaggage.
  apply (map_fold_weak_ind (fun r _ => is_Some (r !! key))); [done |].
  intros i x b r _ IH. rewrite lookup_insert. by case_decide.
Qed.

Lemma injectShadow_keeps writes : forall m key,
  is_Some (m !! key) -> is_Some (injectShadow writes m !! key).
Proof.
  induction writes as [| [k v] writes IH]; intros m key Hkey; [done |].
  unfold injectShadow in *. cbn [foldl fst snd]. apply IH.
  rewrite lookup_insert. by case_decide.
Qed.

(** X13 (Inject):
    The checks of [Inject] come in this order, for every context but the
    noop one: the format, then the carrier, then the kind of context; each
    failure leaves the carrier as it was. *)
Theorem Inject_errors t osc format carrier :
  osc <> noopSpanContext ->
  (unsupportedFormat format = true ->
   Inject t osc format carrier = (Some ErrUnsupportedFormat, carrier))
  /\ (unsupportedFormat format = false -> carrier = OpaqueCarrier ->
      Inject t osc format carrier = (Some ErrInvalidCarrier, carrier))
  /\ (unsupportedFormat format = false ->
      (exists m, carrier = TextMapCarrier m) ->
      (forall sc, osc <> spanContextPtr sc) ->
      Inject t osc format carrier = (Some ErrInvalidSpanContext, carrier)).
Proof.
  intros Hnoop. unfold Inject. repeat split.
  - intros ->. by destruct osc.
  - intros -> ->. by destruct osc.
  - intros -> [m ->] Hreal. destruct osc as [| | sc |]; try done.
    by destruct (Hreal sc).
Qed.

(** X14 (Inject):
    [Inject] only ever writes keys that start with ["crdb-"], and removes
    nothing: every other entry of the carrier is left as it was, and every
    key the carrier had it still has. *)
Theorem Inject_keeps_other_entries t osc format m :
  exists m',
    (Inject t osc format (TextMapCarrier m)).2 = TextMapCarrier m'
    /\ (forall key, HasPrefix key prefixReserved = false -> m' !! key = m !! key)
    /\ (forall key, is_Some (m !! key) -> is_Some (m' !! key)).
Proof.
  unfold Inject.
  destruct osc as [| | sc |]; try (destruct (unsupportedFormat format));
    try (by exists m).
  set (m1 := injectBaggage _ _).
  assert (H1 : forall key, HasPrefix key prefixReserved = false -> m1 !! key = m !! key).
  { intros key Hkey. destruct (reserved_keys key Hkey) as (Ht & Hs & _ & Hb & _).
    unfold m1. rewrite injectBaggage_lookup_other by done.
    by rewrite !lookup_insert_ne. }
  assert (K1 : forall key, is_Some (m !! key) -> is_Some (m1 !! key)).
  { intros key Hkey. apply injectBaggage_keeps.
    rewrite !lookup_insert. by repeat case_decide. }
  destruct (shadowTr sc) as [tr |]; [| by exists m1].
  destruct (shadowInject tr (shadowCtx sc) format) as [writes err].
  eexists. split; [reflexivity |]. split.
  - intros key Hkey. destruct (reserved_keys key Hkey) as (_ & _ & Hsh & _ & Hp).
    rewrite injectShadow_lookup_other by done.
    rewrite lookup_insert_ne by done. by apply H1.
  - intros key Hkey. apply injectShadow_keeps.
    rewrite lookup_insert. case_decide; [done |]. by apply K1.
Qed.

(** X15 (Inject):
    With a shadow tracer attached, [Inject] writes the ids, the shadow
    tracer's type name, the baggage, and under the shadow prefix whatever
    the shadow tracer's own [Inject] set; it returns the shadow tracer's
    error. *)
Theorem Inject_shadow t (sc : spanContext) format m tr writes err :
  unsupportedFormat format = false ->
  shadowTr sc = Some tr ->
  shadowInject tr (shadowCtx sc) format = (writes, err) ->
  exists m',
    Inject t (spanContextPtr sc) format (TextMapCarrier m) = (err, TextMapCarrier m')
    /\ m' !! fieldNameTraceID = Some (FormatUint16 (TraceID sc))
    /\ m' !! fieldNameSpanID = Some (FormatUint16 (SpanID sc))
    /\ m' !! fieldNameShadowType = Some (Typ tr)
    /\ (forall k v, Baggage sc !! k = Some v -> m' !! (prefixBaggage ++ k) = Some v)
    /\ (forall k v, shadowWritten writes !! k = Some v ->
                    m' !! (prefixShadow ++ k) = Some v).
Proof.
  intros Hfmt Hsh Hinj. unfold Inject. rewrite Hfmt, Hsh, Hinj.
  eexists. split; [reflexivity |].
  split; [| split; [| split; [| split]]].
  - rewrite injectShadow_lookup_other by reflexivity.
    rewrite lookup_insert_ne by done.
    rewrite injectBaggage_lookup_other by reflexivity.
    rewrite lookup_insert_ne by done. by rewrite lookup_insert_eq.
  - rewrite injectShadow_lookup_other by reflexivity.
    rewrite lookup_insert_ne by done.
    rewrite injectBaggage_lookup_other by reflexivity.
    by rewrite lookup_insert_eq.
  - rewrite injectShadow_lookup_other by reflexivity.
    by rewrite lookup_insert_eq.
  - intros k v Hkv.
    rewrite injectShadow_lookup_other by reflexivity.
    destruct (baggage_key_not_field k) as (_ & _ & Hne).
    rewrite lookup_insert_ne by done.
    by rewrite injectBaggage_lookup_key, Hkv.
  - intros k v Hkv. by rewrite injectShadow_lookup_key, Hkv.
Qed.


(** ** Extract: what it returns *)

Section CodecMore.

Variable unicodeToLower : string -> string.
Variable rangeOrder : gmap string string -> list (string * string).
Hypothesis rangeOrder_perm : forall m, rangeOrder m ≡ₚ map_to_list m.

Local Abbreviation lowered := (ToLower unicodeToLower).
Local Abbreviation handler := (extractHandler unicodeToLower).
Local Abbreviation isIdKey := (isIdEntryKey unicodeToLower).

Lemma Extract_unfold t format m :
  Extract unicodeToLower rangeOrder t format (TextMapCarrier m)
  = if unsupportedFormat format then (noopSpanContext, Some ErrUnsupportedFormat)
    else match ForeachKey handler (rangeOrder m) extractInit with
         | (_, Some err) => (noopSpanContext, Some err)
         | (st, None) => extractFinish unicodeToLower t format st
         end.
Proof. reflexivity. Qed.

Lemma parseDigits_range s : forall n v,
  0 <= n < 2 ^ 64 -> parseDigits 16 s n = (v, None) -> 0 <= v < 2 ^ 64.
Proof.
  induction s as [| c s IH]; intros n v Hn Hparse.
  - cbn in Hparse. by injection Hparse as <-.
  - cbn [parseDigits] in Hparse.
    destruct (digitVal c) as [d |]; [| discriminate].
    destruct (16 <=? d); [discriminate |].
    destruct (maxUint64 / 16 + 1 <=? n); [discriminate |].
    cbv zeta in Hparse.
    destruct ((_ <? _) || (_ <? _)); [discriminate |].
    eapply IH; [| exact Hparse]. apply Z.mod_pos_bound. lia.
Qed.

(** What [ParseUint] accepts is a [uint64]. *)
Lemma ParseUint16_range s v : ParseUint16 s = (v, None) -> 0 <= v < 2 ^ 64.
Proof.
  destruct s as [| c s]; [discriminate |]. unfold ParseUint16.
  apply parseDigits_range. lia.
Qed.

Lemma extractHandler_ids_range st k v st' :
  0 <= es_TraceID st < 2 ^ 64 -> 0 <= es_SpanID st < 2 ^ 64 ->
  handler st k v = (st', None) ->
  0 <= es_TraceID st' < 2 ^ 64 /\ 0 <= es_SpanID st' < 2 ^ 64.
Proof.
  intros Ht Hs. unfold extractHandler.
  destruct (String.eqb _ fieldNameTraceID).
  { destruct (ParseUint16 v) as [n [e |]] eqn:Ep; [discriminate |].
    intros [= <-]. cbn. split; [by eapply ParseUint16_range | done]. }
  destruct (String.eqb _ fieldNameSpanID).
  { destruct (ParseUint16 v) as [n [e |]] eqn:Ep; [discriminate |].
    intros [= <-]. cbn. split; [done | by eapply ParseUint16_range]. }
  repeat match goal with
  | |- context [if ?b then _ else _] => destruct b
  end; by intros [= <-].
Qed.

Lemma ForeachKey_ids_range entries : forall st st',
  0 <= es_TraceID st < 2 ^ 64 -> 0 <= es_SpanID st < 2 ^ 64 ->
  ForeachKey handler entries st = (st', None) ->
  0 <= es_TraceID st' < 2 ^ 64 /\ 0 <= es_SpanID st' < 2 ^ 64.
Proof.
  induction entries as [| [k v] entries IH]; intros st st' Ht Hs Hloop.
  - by injection Hloop as <-.
  - cbn [ForeachKey] in Hloop.
    destruct (handler st k v) as [st1 [e |]] eqn:Eh; [discriminate |].
    destruct (extractHandler_ids_range _ _ _ _ Ht Hs Eh) as [Ht1 Hs1].
    by eapply IH.
Qed.

Lemma extractFinish_valid t format st :
  0 <= es_TraceID st < 2 ^ 64 -> 0 <= es_SpanID st < 2 ^ 64 ->
  let r := extractFinish unicodeToLower t format st in
  r.1 <> nilSpanContext /\ r.1 <> foreignSpanContext
  /\ (r.2 <> None -> r.1 = noopSpanContext)
  /\ (forall sc, r.1 = spanContextPtr sc ->
        r.2 = None
        /\ ~ (TraceID sc = 0 /\ SpanID sc = 0)
        /\ 0 <= TraceID sc < 2 ^ 64 /\ 0 <= SpanID sc < 2 ^ 64
        /\ recordingGroup sc = None).
Proof.
  intros Ht Hs. cbv zeta. unfold extractFinish.
  destruct ((es_TraceID st =? 0) && (es_SpanID st =? 0)) eqn:Ez.
  { cbn. repeat split; try done. }
  assert (Hnz : ~ (es_TraceID st = 0 /\ es_SpanID st = 0)).
  { intros [H1 H2]. rewrite H1, H2 in Ez. discriminate. }
  assert (Hreal : forall tr ctx,
    let r := (spanContextPtr (extractedContext st tr ctx), @None error) in
    r.1 <> nilSpanContext /\ r.1 <> foreignSpanContext
    /\ (r.2 <> None -> r.1 = noopSpanContext)
    /\ (forall sc, r.1 = spanContextPtr sc ->
          r.2 = None
          /\ ~ (TraceID sc = 0 /\ SpanID sc = 0)
          /\ 0 <= TraceID sc < 2 ^ 64 /\ 0 <= SpanID sc < 2 ^ 64
          /\ recordingGroup sc = None)).
  { intros tr ctx. cbn. repeat split; try done; injection H as <-; cbn; tauto. }
  destruct (negb _); [| apply Hreal].
  destruct (getShadowTracer t) as [tr |]; [| apply Hreal].
  destruct (String.eqb _ _); [| apply Hreal].
  destruct (shadowExtract tr format (shadowCarrier st)) as [ctx [e |]];
    [| apply Hreal].
  cbn. repeat split; try done.
Qed.

(** X16 (Extract):
    [Extract] always returns a usable context: never nil; the noop context
    with every error; and a real context only without error, with ids that
    are [uint64]s and not both zero, attached to no recording group. *)
Theorem Extract_valid t format carrier :
  let r := Extract unicodeToLower rangeOrder t format carrier in
  r.1 <> nilSpanContext /\ r.1 <> foreignSpanContext
  /\ (r.2 <> None -> r.1 = noopSpanContext)
  /\ (forall sc, r.1 = spanContextPtr sc ->
        r.2 = None
        /\ ~ (TraceID sc = 0 /\ SpanID sc = 0)
        /\ 0 <= TraceID sc < 2 ^ 64 /\ 0 <= SpanID sc < 2 ^ 64
        /\ recordingGroup sc = None).
Proof.
  cbv zeta. destruct carrier as [m |].
  - rewrite Extract_unfold.
    destruct (unsupportedFormat format); [cbn; repeat split; done |].
    destruct (ForeachKey handler (rangeOrder m) extractInit) as [st [e |]] eqn:Eloop;
      [cbn; repeat split; done |].
    apply extractFinish_valid;
      eapply (ForeachKey_ids_range _ extractInit st); try exact Eloop; cbn; lia.
  - unfold Extract. destruct (unsupportedFormat format); cbn; repeat split; done.
Qed.

Lemma ForeachKey_error_inv entries : forall st st' e,
  ForeachKey handler entries st = (st', Some e) ->
  e = ErrSpanContextCorrupted
  /\ exists k v, (k, v) ∈ entries /\ isIdKey k /\ (ParseUint16 v).2 <> None.
Proof.
  induction entries as [| [k v] entries IH]; intros st st' e Hloop; [discriminate |].
  cbn [ForeachKey] in Hloop.
  destruct (handler st k v) as [st1 [e1 |]] eqn:Eh.
  - injection Hloop as <- <-. split; [by eapply extractHandler_error |].
    exists k, v. split; [by left |].
    unfold extractHandler in Eh. unfold isIdEntryKey.
    destruct (String.eqb_spec (lowered k) fieldNameTraceID) as [Hk | _].
    { split; [by left |]. by destruct (ParseUint16 v) as [n [? |]]. }
    destruct (String.eqb_spec (lowered k) fieldNameSpanID) as [Hk | _].
    { split; [by right |]. by destruct (ParseUint16 v) as [n [? |]]. }
    repeat match type of Eh with
    | context [if ?b then _ else _] => destruct b
    end; discriminate.
  - destruct (IH _ _ _ Hloop) as (-> & k' & v' & Hin & Hk & Hv).
    split; [done |]. exists k', v'. split; [by right | done].
Qed.

(** X17 (Extract):
    [Extract] reports a corrupted span context only for a carrier that
    holds a trace-id or span-id entry [ParseUint] rejects (a shadow tracer,
    if the Tracer has one, may report errors of its own). *)
Theorem Extract_corrupted_only_if t format m ctx :
  getShadowTracer t = None ->
  Extract unicodeToLower rangeOrder t format (TextMapCarrier m)
  = (ctx, Some ErrSpanContextCorrupted) ->
  exists k v, m !! k = Some v /\ isIdEntryKey unicodeToLower k
              /\ (ParseUint16 v).2 <> None.
Proof.
  intros Hsh. rewrite Extract_unfold.
  destruct (unsupportedFormat format); [discriminate |].
  destruct (ForeachKey handler (rangeOrder m) extractInit) as [st [e |]] eqn:Eloop.
  - intros _. destruct (ForeachKey_error_inv _ _ _ _ Eloop) as (_ & k & v & Hin & Hk & Hv).
    exists k, v. split; [by apply (elem_of_rangeOrder rangeOrder rangeOrder_perm) | done].
  - unfold extractFinish. rewrite Hsh.
    destruct (_ && _); [discriminate |]. by destruct (negb _).
Qed.

End CodecMore.


(** ** Extract on carriers with lower-case keys *)

Lemma entriesUnder_lookup pre m k : entriesUnder pre m !! k = m !! (pre ++ k).
Proof.
  unfold entriesUnder. revert k.
  apply (map_fold_weak_ind (fun r m' => forall k, r !! k = m' !! (pre ++ k))).
  - intros k. by rewrite !lookup_empty.
  - intros i x m' r Hfresh IH k.
    destruct (HasPrefix i pre) eqn:Epre.
    + apply HasPrefix_inv in Epre. set (i' := dropBytes _ i) in Epre.
      clearbody i'. subst i. rewrite TrimPrefix_app.
      destruct (decide (i' = k)) as [-> | Hne].
      * by rewrite !lookup_insert_eq.
      * rewrite !lookup_insert_ne; [by apply IH | | done].
        intros Heq. by apply append_inj_r in Heq.
    + rewrite lookup_insert_ne; [by apply IH |].
      intros ->. by rewrite HasPrefix_app in Epre.
Qed.

Lemma if_elem_of_cons {A B} `{EqDecision A} (x y : A) l (a b : B) :
  (if decide (x ∈ y :: l) then a else b)
  = (if decide (x ∈ l) then a else if decide (x = y) then a else b).
Proof.
  destruct (decide (x ∈ l)) as [Hin | Hn].
  - by rewrite decide_True by (by right).
  - destruct (decide (x = y)) as [-> | Hne].
    + by rewrite decide_True by (by left).
    + rewrite decide_False; [done |].
      intros [? | ?]%elem_of_cons; done.
Qed.

Lemma shadow_key_facts k :
  prefixShadow ++ k <> fieldNameTraceID
  /\ prefixShadow ++ k <> fieldNameSpanID
  /\ prefixShadow ++ k <> fieldNameShadowType
  /\ HasPrefix (prefixShadow ++ k) prefixBaggage = false
  /\ forall k', prefixBaggage ++ k' <> prefixShadow ++ k.
Proof.
  repeat split; try (intros H; cbv in H; discriminate).
Qed.

Section LowerCaseCarrier.

Variable unicodeToLower : string -> string.

Local Abbreviation lowered := (ToLower unicodeToLower).
Local Abbreviation handler := (extractHandler unicodeToLower).

(** One entry of a carrier with lower-case keys: the handler stores it where
    [carrierState] reads it. *)
Lemma extractHandler_lowercase m st k0 v0 :
  m !! k0 = Some v0 -> lowered k0 = k0 -> idsParse m ->
  exists st1,
    handler st k0 v0 = (st1, None)
    /\ es_TraceID st1
       = (if decide (fieldNameTraceID = k0)
          then carrierId fieldNameTraceID m else es_TraceID st)
    /\ es_SpanID st1
       = (if decide (fieldNameSpanID = k0)
          then carrierId fieldNameSpanID m else es_SpanID st)
    /\ shadowType st1
       = (if decide (fieldNameShadowType = k0)
          then default "" (m !! fieldNameShadowType) else shadowType st)
    /\ (forall k, es_Baggage st1 !! k
          = if decide (prefixBaggage ++ k = k0)
            then m !! (prefixBaggage ++ k) else es_Baggage st !! k)
    /\ (forall k, shadowCarrier st1 !! k
          = if decide (prefixShadow ++ k = k0)
            then m !! (prefixShadow ++ k) else shadowCarrier st !! k).
Proof.
  intros Hm Hlow Hids. unfold extractHandler. rewrite Hlow.
  destruct (String.eqb_spec k0 fieldNameTraceID) as [-> | Hnt].
  { destruct (ParseUint16 v0) as [n e] eqn:Ep.
    assert (e = None) as ->.
    { specialize (Hids v0 (or_introl Hm)). by rewrite Ep in Hids. }
    eexists. split; [reflexivity |]. cbn.
    unfold carrierId. rewrite Hm, Ep. repeat split; try done; intros k; rewrite decide_False; try done;
      first [ by destruct (baggage_key_not_field k) as (? & ? & ?)
            | by destruct (shadow_key_facts k) as (? & ? & ? & ? & ?) ]. }
  destruct (String.eqb_spec k0 fieldNameSpanID) as [-> | Hns].
  { destruct (ParseUint16 v0) as [n e] eqn:Ep.
    assert (e = None) as ->.
    { specialize (Hids v0 (or_intror Hm)). by rewrite Ep in Hids. }
    eexists. split; [reflexivity |]. cbn.
    unfold carrierId. rewrite Hm, Ep. repeat split; try done; intros k; rewrite decide_False; try done;
      first [ by destruct (baggage_key_not_field k) as (? & ? & ?)
            | by destruct (shadow_key_facts k) as (? & ? & ? & ? & ?) ]. }
  destruct (String.eqb_spec k0 fieldNameShadowType) as [-> | Hnsh].
  { eexists. split; [reflexivity |]. cbn. rewrite Hm. repeat split; try done; intros k; rewrite decide_False; try done;
      first [ by destruct (baggage_key_not_field k) as (? & ? & ?)
            | by destruct (shadow_key_facts k) as (? & ? & ? & ? & ?) ]. }
  rewrite !(decide_False (P := _ = k0)) by done.
  destruct (HasPrefix k0 prefixBaggage) eqn:Eb.
  { apply HasPrefix_inv in Eb. set (k' := dropBytes _ k0) in Eb. clearbody k'.
    subst k0. rewrite TrimPrefix_app.
    eexists. split; [reflexivity |]. cbn. repeat split.
    intros k. destruct (decide (k' = k)) as [-> | Hne].
    - by rewrite decide_True, lookup_insert_eq, Hm.
    - rewrite decide_False; [by rewrite lookup_insert_ne |].
      intros Heq. by apply append_inj_r in Heq. }
  destruct (HasPrefix k0 prefixShadow) eqn:Es.
  { apply HasPrefix_inv in Es. set (k' := dropBytes _ k0) in Es. clearbody k'.
    subst k0. rewrite TrimPrefix_app.
    eexists. split; [reflexivity |]. cbn. repeat split.
    intros k. destruct (decide (k' = k)) as [-> | Hne].
    - by rewrite decide_True, lookup_insert_eq, Hm.
    - rewrite decide_False; [by rewrite lookup_insert_ne |].
      intros Heq. by apply append_inj_r in Heq. }
  eexists. split; [reflexivity |]. repeat split.
  - intros k. rewrite decide_False; [done |].
    intros <-. by rewrite HasPrefix_app in Eb.
  - intros k. rewrite decide_False; [done |].
    intros <-. by rewrite HasPrefix_app in Es.
Qed.

Lemma ForeachKey_lowercase m entries :
  (forall k v, (k, v) ∈ entries -> m !! k = Some v) ->
  lowerCaseCarrier unicodeToLower m -> idsParse m ->
  forall st, exists st',
    ForeachKey handler entries st = (st', None)
    /\ es_TraceID st'
       = (if decide (fieldNameTraceID ∈ entries.*1)
          then carrierId fieldNameTraceID m else es_TraceID st)
    /\ es_SpanID st'
       = (if decide (fieldNameSpanID ∈ entries.*1)
          then carrierId fieldNameSpanID m else es_SpanID st)
    /\ shadowType st'
       = (if decide (fieldNameShadowType ∈ entries.*1)
          then default "" (m !! fieldNameShadowType) else shadowType st)
    /\ (forall k, es_Baggage st' !! k
          = if decide (prefixBaggage ++ k ∈ entries.*1)
            then m !! (prefixBaggage ++ k) else es_Baggage st !! k)
    /\ (forall k, shadowCarrier st' !! k
          = if decide (prefixShadow ++ k ∈ entries.*1)
            then m !! (prefixShadow ++ k) else shadowCarrier st !! k).
Proof.
  intros Hentries Hlow Hids.
  induction entries as [| [k0 v0] rest IH]; intros st.
  { exists st. by repeat split. }
  cbn [ForeachKey]. rewrite fmap_cons. cbn [fst].
  assert (Hm : m !! k0 = Some v0) by (apply Hentries; by left).
  destruct (extractHandler_lowercase m st k0 v0 Hm (Hlow _ _ Hm) Hids)
    as (st1 & -> & Ht1 & Hs1 & Hsh1 & Hb1 & Hc1).
  destruct (IH (fun k v Hin => Hentries k v (list_elem_of_further _ _ _ Hin)) st1)
    as (st' & -> & Ht & Hs & Hsh & Hb & Hc).
  exists st'. split; [done |]. rewrite !if_elem_of_cons.
  rewrite Ht, Hs, Hsh, Ht1, Hs1, Hsh1.
  split; [done |]. split; [done |]. split; [done |]. split.
  - intros k. by rewrite if_elem_of_cons, Hb, Hb1.
  - intros k. by rewrite if_elem_of_cons, Hc, Hc1.
Qed.

End LowerCaseCarrier.


Section CodecLowerCase.

Variable unicodeToLower : string -> string.
Variable rangeOrder : gmap string string -> list (string * string).
Hypothesis rangeOrder_perm : forall m, rangeOrder m ≡ₚ map_to_list m.

Local Abbreviation lowered := (ToLower unicodeToLower).
Local Abbreviation handler := (extractHandler unicodeToLower).

Lemma elem_of_rangeOrder_keys m k :
  k ∈ (rangeOrder m).*1 <-> is_Some (m !! k).
Proof.
  rewrite list_elem_of_fmap. split.
  - intros ([k' v] & -> & Hin).
    apply (elem_of_rangeOrder rangeOrder rangeOrder_perm) in Hin. by exists v.
  - intros [v Hv]. exists (k, v). split; [done |].
    by apply (elem_of_rangeOrder rangeOrder rangeOrder_perm).
Qed.

Lemma if_in_keys {B} m k (f : option string -> B) (b : B) :
  f None = b ->
  (if decide (k ∈ (rangeOrder m).*1) then f (m !! k) else b) = f (m !! k).
Proof.
  intros Hb. case_decide as Hin; [done |].
  rewrite elem_of_rangeOrder_keys in Hin.
  destruct (m !! k); [| done]. destruct Hin. by eexists.
Qed.

(** Reading a carrier with lower-case keys, in whatever order, ends in
    [carrierState]. *)
Lemma ForeachKey_carrierState m :
  lowerCaseCarrier unicodeToLower m -> idsParse m ->
  ForeachKey handler (rangeOrder m) extractInit = (carrierState m, None).
Proof.
  intros Hlow Hids.
  destruct (ForeachKey_lowercase unicodeToLower m (rangeOrder m)
              (fun k v Hin => proj1 (elem_of_rangeOrder rangeOrder rangeOrder_perm m k v) Hin)
              Hlow Hids extractInit)
    as (st & -> & Ht & Hs & Hsh & Hb & Hc).
  f_equal. destruct st as [tid sid bag sty sca]. cbn in Ht, Hs, Hsh, Hb, Hc.
  unfold carrierState, carrierId. f_equal.
  - rewrite Ht. apply (if_in_keys m _
      (fun o => match o with Some v => (ParseUint16 v).1 | None => 0 end)).
    reflexivity.
  - rewrite Hs. apply (if_in_keys m _
      (fun o => match o with Some v => (ParseUint16 v).1 | None => 0 end)).
    reflexivity.
  - apply map_eq. intros k. rewrite Hb, entriesUnder_lookup.
    by apply (if_in_keys m _ (fun o => o)).
  - rewrite Hsh. by apply (if_in_keys m _ (fun o => default "" o)).
  - apply map_eq. intros k. rewrite Hc, entriesUnder_lookup.
    by apply (if_in_keys m _ (fun o => o)).
Qed.

Lemma Extract_lowercase_spec t format m :
  unsupportedFormat format = false ->
  lowerCaseCarrier unicodeToLower m -> idsParse m ->
  Extract unicodeToLower rangeOrder t format (TextMapCarrier m)
  = extractFinish unicodeToLower t format (carrierState m).
Proof.
  intros Hfmt Hlow Hids.
  rewrite Extract_unfold, Hfmt. by rewrite ForeachKey_carrierState.
Qed.

(** X18 (Extract):
    On a carrier whose keys are all lower-case and whose ids parse, the
    result of [Extract] does not depend on the order in which the map is
    visited: the ids are the two id entries (zero when missing), the
    baggage is the entries under the baggage prefix with the prefix taken
    off, the shadow type is the shadow-type entry, and the shadow tracer is
    handed the entries under the shadow prefix, prefix taken off. *)
Theorem Extract_lowercase_carrier t format m :
  unsupportedFormat format = false ->
  lowerCaseCarrier unicodeToLower m -> idsParse m ->
  Extract unicodeToLower rangeOrder t format (TextMapCarrier m)
  = extractFinish unicodeToLower t format
      {| es_TraceID := carrierId fieldNameTraceID m;
         es_SpanID := carrierId fieldNameSpanID m;
         es_Baggage := entriesUnder prefixBaggage m;
         shadowType := default "" (m !! fieldNameShadowType);
         shadowCarrier := entriesUnder prefixShadow m |}
  /\ (forall k, entriesUnder prefixBaggage m !! k = m !! (prefixBaggage ++ k))
  /\ (forall k, entriesUnder prefixShadow m !! k = m !! (prefixShadow ++ k)).
Proof.
  intros Hfmt Hlow Hids. split; [by apply Extract_lowercase_spec |].
  split; intros k; apply entriesUnder_lookup.
Qed.

Lemma extractHandler_shadowType st k v st' :
  handler st k v = (st', None) ->
  shadowType st' = shadowType st
  \/ (lowered k = fieldNameShadowType /\ shadowType st' = v).
Proof.
  unfold extractHandler.
  destruct (String.eqb _ fieldNameTraceID).
  { destruct (ParseUint16 v) as [n [e |]]; [discriminate |]. intros [= <-]. by left. }
  destruct (String.eqb _ fieldNameSpanID).
  { destruct (ParseUint16 v) as [n [e |]]; [discriminate |]. intros [= <-]. by left. }
  destruct (String.eqb_spec (lowered k) fieldNameShadowType) as [Hk | _].
  { intros [= <-]. by right. }
  repeat match goal with
  | |- context [if ?b then _ else _] => destruct b
  end; intros [= <-]; by left.
Qed.

Lemma ForeachKey_shadowType entries : forall st st',
  ForeachKey handler entries st = (st', None) ->
  shadowType st' = shadowType st
  \/ exists k v, (k, v) ∈ entries /\ lowered k = fieldNameShadowType
                 /\ shadowType st' = v.
Proof.
  induction entries as [| [k v] entries IH]; intros st st' Hloop.
  - injection Hloop as <-. by left.
  - cbn [ForeachKey] in Hloop.
    destruct (handler st k v) as [st1 [e |]] eqn:Eh; [discriminate |].
    destruct (IH _ _ Hloop) as [Heq | (k' & v' & Hin & Hk & Hv)].
    + rewrite Heq.
      destruct (extractHandler_shadowType _ _ _ _ Eh) as [? | [Hk Hv]]; [by left |].
      right. exists k, v. split; [by left | done].
    + right. exists k', v'. split; [by right | done].
Qed.

(** X19 (Extract):
    Shadow data is honoured only by a Tracer whose shadow tracer has the
    type the carrier names: a Tracer without shadow tracer, or with one of
    another type (compared without regard to case), returns what a Tracer
    without shadow tracer returns: the shadow entries are dropped, without
    an error. *)
Theorem Extract_shadow_discarded t t0 format m :
  getShadowTracer t0 = None ->
  (forall tr k v, getShadowTracer t = Some tr -> m !! k = Some v ->
                  ToLower unicodeToLower k = fieldNameShadowType ->
                  ToLower unicodeToLower v <> ToLower unicodeToLower (Typ tr)) ->
  Extract unicodeToLower rangeOrder t format (TextMapCarrier m)
  = Extract unicodeToLower rangeOrder t0 format (TextMapCarrier m).
Proof.
  intros H0 Hmis. rewrite !Extract_unfold.
  destruct (unsupportedFormat format); [done |].
  destruct (ForeachKey handler (rangeOrder m) extractInit) as [st [e |]] eqn:Eloop;
    [done |].
  unfold extractFinish. rewrite H0.
  destruct (_ && _); [done |].
  destruct (String.eqb_spec (shadowType st) "") as [Hempty | Hne]; [done |].
  cbn [negb]. destruct (getShadowTracer t) as [tr |] eqn:Etr; [| done].
  destruct (String.eqb_spec (lowered (shadowType st)) (lowered (Typ tr)))
    as [Heq | _]; [| done].
  exfalso.
  destruct (ForeachKey_shadowType _ _ _ Eloop) as [Hinit | (k & v & Hin & Hk & Hv)];
    [by apply Hne |].
  apply (elem_of_rangeOrder rangeOrder rangeOrder_perm) in Hin.
  apply (Hmis tr k v eq_refl Hin Hk). by rewrite <- Hv.
Qed.

End CodecLowerCase.


(** ** Inject, then Extract: the contexts that come back *)

Section CodecRoundTrip.

Variable unicodeToLower : string -> string.
Variable rangeOrder : gmap string string -> list (string * string).
Hypothesis rangeOrder_perm : forall m, rangeOrder m ≡ₚ map_to_list m.

Local Abbreviation lowered := (ToLower unicodeToLower).

(** The carrier [Inject] fills from an empty one, key by key; [shadow] is
    the type name and the writes of the shadow tracer, if one is attached. *)
Lemma injected_carrier_shape (sc : spanContext) (shadow : option (string * list (string * string))) :
  let m1 := injectBaggage (Baggage sc)
              (<[fieldNameSpanID := FormatUint16 (SpanID sc)]>
                 (<[fieldNameTraceID := FormatUint16 (TraceID sc)]> ∅)) in
  let m := match shadow with
           | Some (typ, writes) => injectShadow writes (<[fieldNameShadowType := typ]> m1)
           | None => m1
           end in
  m !! fieldNameTraceID = Some (FormatUint16 (TraceID sc))
  /\ m !! fieldNameSpanID = Some (FormatUint16 (SpanID sc))
  /\ m !! fieldNameShadowType = fst <$> shadow
  /\ (forall k, m !! (prefixBaggage ++ k) = Baggage sc !! k)
  /\ (forall k, m !! (prefixShadow ++ k)
                = match shadow with
                  | Some (_, writes) => shadowWritten writes !! k
                  | None => None
                  end)
  /\ (forall key v, m !! key = Some v ->
        key = fieldNameTraceID \/ key = fieldNameSpanID
        \/ key = fieldNameShadowType
        \/ (exists k, key = prefixBaggage ++ k /\ Baggage sc !! k = Some v)
        \/ (exists k, key = prefixShadow ++ k)).
Proof.
  cbv zeta. set (m1 := injectBaggage _ _).
  assert (H1 : m1 !! fieldNameTraceID = Some (FormatUint16 (TraceID sc))
               /\ m1 !! fieldNameSpanID = Some (FormatUint16 (SpanID sc))
               /\ m1 !! fieldNameShadowType = None
               /\ (forall k, m1 !! (prefixBaggage ++ k) = Baggage sc !! k)
               /\ (forall k, m1 !! (prefixShadow ++ k) = None)).
  { unfold m1. repeat split.
    - apply injected_carrier_written. by left.
    - apply injected_carrier_written. by right; left.
    - rewrite injectBaggage_lookup_other by reflexivity.
      by rewrite !lookup_insert_ne.
    - intros k. rewrite injectBaggage_lookup_key.
      destruct (baggage_key_not_field k) as (? & ? & ?).
      rewrite !lookup_insert_ne, lookup_empty by done.
      by destruct (Baggage sc !! k).
    - intros k. destruct (shadow_key_facts k) as (? & ? & ? & ? & ?).
      rewrite injectBaggage_lookup_other by done.
      by rewrite !lookup_insert_ne. }
  assert (E1 : forall key v, m1 !! key = Some v ->
            key = fieldNameTraceID \/ key = fieldNameSpanID
            \/ (exists k, key = prefixBaggage ++ k /\ Baggage sc !! k = Some v)).
  { intros key v Hkv. apply injected_carrier_entry in Hkv as [Hinj | Hold];
      [| by rewrite lookup_empty in Hold].
    destruct Hinj as [[= -> _] | [[= -> _] | (k & Hk & Hv)]]; eauto. }
  destruct H1 as (Ht & Hs & Hsh & Hb & Hc).
  destruct shadow as [[typ writes] |]; cbn [fmap option_fmap option_map fst].
  - repeat split.
    + rewrite injectShadow_lookup_other by reflexivity. by rewrite lookup_insert_ne.
    + rewrite injectShadow_lookup_other by reflexivity. by rewrite lookup_insert_ne.
    + rewrite injectShadow_lookup_other by reflexivity. by rewrite lookup_insert_eq.
    + intros k. destruct (baggage_key_not_field k) as (? & ? & ?).
      rewrite injectShadow_lookup_other by reflexivity.
      by rewrite lookup_insert_ne.
    + intros k. destruct (shadow_key_facts k) as (? & ? & ? & ? & ?).
      rewrite injectShadow_lookup_key, lookup_insert_ne, Hc by done.
      by destruct (shadowWritten writes !! k).
    + intros key v Hkv.
      destruct (HasPrefix key prefixShadow) eqn:Ep.
      { apply HasPrefix_inv in Ep. right; right; right; right. eauto. }
      rewrite injectShadow_lookup_other in Hkv by done.
      apply lookup_insert_Some in Hkv as [[<- _] | [_ Hkv]]; [by eauto |].
      destruct (E1 _ _ Hkv) as [? | [? | ?]]; eauto 6.
  - repeat split; try done.
    intros key v Hkv. destruct (E1 _ _ Hkv) as [? | [? | ?]]; eauto 6.
Qed.

(** What [Extract] reads from the carrier [Inject] filled from an empty
    one: the state with the ids, the baggage, the shadow tracer's type and
    the shadow tracer's own carrier. *)
Lemma Extract_Inject_state t' format (sc : spanContext)
    (shadow : option (string * list (string * string))) :
  unsupportedFormat format = false ->
  0 <= TraceID sc < 2 ^ 64 -> 0 <= SpanID sc < 2 ^ 64 ->
  baggageKeysLowered unicodeToLower (Baggage sc) ->
  (forall typ writes k v, shadow = Some (typ, writes) ->
     shadowWritten writes !! k = Some v ->
     lowered (prefixShadow ++ k) = prefixShadow ++ k) ->
  let m1 := injectBaggage (Baggage sc)
              (<[fieldNameSpanID := FormatUint16 (SpanID sc)]>
                 (<[fieldNameTraceID := FormatUint16 (TraceID sc)]> ∅)) in
  let m := match shadow with
           | Some (typ, writes) => injectShadow writes (<[fieldNameShadowType := typ]> m1)
           | None => m1
           end in
  Extract unicodeToLower rangeOrder t' format (TextMapCarrier m)
  = extractFinish unicodeToLower t' format
      {| es_TraceID := TraceID sc; es_SpanID := SpanID sc;
         es_Baggage := Baggage sc;
         shadowType := match shadow with Some (typ, _) => typ | None => "" end;
         shadowCarrier := match shadow with
                          | Some (_, writes) => shadowWritten writes
                          | None => ∅
                          end |}.
Proof.
  intros Hfmt HT HS Hkeys Hshkeys.
  pose proof (injected_carrier_shape sc shadow) as Hshape.
  cbv zeta in Hshape |- *.
  set (m := match shadow with Some _ => _ | None => _ end) in *. clearbody m.
  destruct Hshape as (Ht & Hs & Hsh & Hb & Hc & Hall).
  rewrite (Extract_lowercase_spec unicodeToLower rangeOrder rangeOrder_perm); [| done | |].
  - f_equal. unfold carrierState, carrierId. rewrite Ht, Hs, Hsh.
    rewrite !ParseUint16_FormatUint16 by done. cbn [fst]. f_equal.
    + apply map_eq. intros k. by rewrite entriesUnder_lookup.
    + by destruct shadow as [[typ writes] |].
    + apply map_eq. intros k. rewrite entriesUnder_lookup, Hc.
      by destruct shadow as [[typ writes] |].
  - intros key v Hkv.
    destruct (Hall key v Hkv) as [-> | [-> | [-> | [(k & -> & Hk) | (k & ->)]]]];
      try reflexivity.
    + by apply (Hkeys k v).
    + rewrite Hc in Hkv. destruct shadow as [[typ writes] |]; [| done].
      by apply (Hshkeys typ writes k v).
  - intros v [Hv | Hv].
    + rewrite Ht in Hv. injection Hv as <-. by rewrite ParseUint16_FormatUint16.
    + rewrite Hs in Hv. injection Hv as <-. by rewrite ParseUint16_FormatUint16.
Qed.

(** X20 (Inject, Extract):
    The nested wire format: a context with a shadow tracer attached, injected
    into an empty carrier and extracted by a Tracer whose shadow tracer has
    the same type (up to case), comes back with its ids and baggage, with
    that Tracer's shadow tracer, and with the shadow context the shadow
    tracer's [Extract] makes of exactly the entries its [Inject] wrote. *)
Theorem Extract_Inject_shadow t t' format (sc : spanContext) tr tr' writes :
  unsupportedFormat format = false ->
  0 <= TraceID sc < 2 ^ 64 -> 0 <= SpanID sc < 2 ^ 64 ->
  ~ (TraceID sc = 0 /\ SpanID sc = 0) ->
  baggageKeysLowered unicodeToLower (Baggage sc) ->
  shadowTr sc = Some tr ->
  shadowInject tr (shadowCtx sc) format = (writes, None) ->
  (forall k v, shadowWritten writes !! k = Some v ->
               ToLower unicodeToLower (prefixShadow ++ k) = prefixShadow ++ k) ->
  Typ tr <> "" ->
  getShadowTracer t' = Some tr' ->
  ToLower unicodeToLower (Typ tr) = ToLower unicodeToLower (Typ tr') ->
  exists carrier,
    Inject t (spanContextPtr sc) format (TextMapCarrier ∅) = (None, carrier)
    /\ Extract unicodeToLower rangeOrder t' format carrier
       = match shadowExtract tr' format (shadowWritten writes) with
         | (_, Some err) => (noopSpanContext, Some err)
         | (ctx, None) =>
             (spanContextPtr
                {| TraceID := TraceID sc; SpanID := SpanID sc;
                   Baggage := Baggage sc; shadowTr := Some tr'; shadowCtx := ctx;
                   recordingGroup := None;
                   recordingType := SingleNodeRecording |}, None)
         end.
Proof.
  intros Hfmt HT HS Hnz Hkeys Hsh Hinj Hshkeys Htyp Htr' Hsame.
  unfold Inject. rewrite Hfmt, Hsh, Hinj.
  eexists. split; [reflexivity |].
  rewrite (Extract_Inject_state t' format sc (Some (Typ tr, writes))
             Hfmt HT HS Hkeys).
  2:{ intros typ writes' k v [= <- <-]. apply Hshkeys. }
  unfold extractFinish. cbn [es_TraceID es_SpanID shadowType shadowCarrier].
  assert (Hids : (TraceID sc =? 0) && (SpanID sc =? 0) = false).
  { apply andb_false_iff.
    destruct (Z.eqb_spec (TraceID sc) 0), (Z.eqb_spec (SpanID sc) 0); tauto. }
  rewrite Hids, Htr', Hsame, String.eqb_refl.
  apply String.eqb_neq in Htyp. rewrite Htyp. cbn [negb].
  by destruct (shadowExtract tr' format (shadowWritten writes)) as [ctx [e |]].
Qed.

(** Without a shadow tracer attached the context comes back whole: what
    [Extract] returns is the context with the original ids and baggage, no
    shadow tracer and no recording group. *)
Lemma Extract_Inject_plain t t' format (sc : spanContext) :
  unsupportedFormat format = false ->
  0 <= TraceID sc < 2 ^ 64 -> 0 <= SpanID sc < 2 ^ 64 ->
  ~ (TraceID sc = 0 /\ SpanID sc = 0) ->
  baggageKeysLowered unicodeToLower (Baggage sc) ->
  shadowTr sc = None ->
  exists carrier,
    Inject t (spanContextPtr sc) format (TextMapCarrier ∅) = (None, carrier)
    /\ Extract unicodeToLower rangeOrder t' format carrier
       = (spanContextPtr
            {| TraceID := TraceID sc; SpanID := SpanID sc;
               Baggage := Baggage sc; shadowTr := None; shadowCtx := None;
               recordingGroup := None;
               recordingType := SingleNodeRecording |}, None).
Proof.
  intros Hfmt HT HS Hnz Hkeys Hsh.
  unfold Inject. rewrite Hfmt, Hsh.
  eexists. split; [reflexivity |].
  rewrite (Extract_Inject_state t' format sc None Hfmt HT HS Hkeys) by done.
  unfold extractFinish. cbn [es_TraceID es_SpanID shadowType shadowCarrier].
  assert (Hids : (TraceID sc =? 0) && (SpanID sc =? 0) = false).
  { apply andb_false_iff.
    destruct (Z.eqb_spec (TraceID sc) 0), (Z.eqb_spec (SpanID sc) 0); tauto. }
  by rewrite Hids.
Qed.

(** X21 (Inject, Extract, StartSpan):
    Snowball tracing crosses the wire: when a context carrying the snowball
    baggage item is injected, extracted by another Tracer and made the
    parent of a span there, that span is a real span of the same trace,
    with the context's span as parent and its baggage, recording with kind
    Snowball into a group of its own, whatever the configuration of the
    receiving Tracer. *)
Theorem snowball_crosses_the_wire t t' w op format (sc : spanContext) v :
  unsupportedFormat format = false ->
  0 <= TraceID sc < 2 ^ 64 -> 0 <= SpanID sc < 2 ^ 64 ->
  ~ (TraceID sc = 0 /\ SpanID sc = 0) ->
  baggageKeysLowered unicodeToLower (Baggage sc) ->
  shadowTr sc = None ->
  Baggage sc !! Snowball = Some v -> v <> "" ->
  exists carrier ctx s w',
    Inject t (spanContextPtr sc) format (TextMapCarrier ∅) = (None, carrier)
    /\ Extract unicodeToLower rangeOrder t' format carrier = (ctx, None)
    /\ StartSpan t' w op [ChildOf ctx] = Returns (spanPtr s, w')
    /\ span_TraceID s = TraceID sc /\ parentSpanID s = SpanID sc
    /\ span_Baggage s = Baggage sc
    /\ isRecording s = true /\ span_recordingType s = SnowballRecording
    /\ span_recordingGroup s = Some (fresh (spanGroups w)).
Proof.
  intros Hfmt HT HS Hnz Hkeys Hsh Hsb Hv.
  destruct (Extract_Inject_plain t t' format sc Hfmt HT HS Hnz Hkeys Hsh)
    as (carrier & Hinj & Hext).
  set (sc0 := {| TraceID := TraceID sc; SpanID := SpanID sc; Baggage := Baggage sc;
                 shadowTr := None; shadowCtx := None; recordingGroup := None;
                 recordingType := SingleNodeRecording |}) in *.
  exists carrier, (spanContextPtr sc0).
  assert (Hres : resolvedParent [ChildOf (spanContextPtr sc0)]
                 = Some (ChildOfRef, spanContextPtr sc0)) by reflexivity.
  destruct (StartSpan_resolved t' w op _ ChildOfRef sc0 Hres)
    as (pinfo & w1 & Hloop & Hpar & Hstart).
  destruct (referencesLoop_parent ChildOfRef sc0 w eq_refl)
    as (pinfo' & w1' & Hloop' & _ & Hrec).
  rewrite Hloop in Hloop'. injection Hloop' as <- <-.
  cbn [recordingGroup sc0 Baggage] in Hrec. rewrite Hsb in Hrec.
  cbn [default from_option] in Hrec. unfold id in Hrec.
  apply String.eqb_neq in Hv. rewrite Hv in Hrec.
  destruct Hrec as (Hg & Hty & ->).
  rewrite Hg in Hstart. cbn [isNone andb] in Hstart.
  rewrite andb_false_r in Hstart. cbn [andb] in Hstart.
  match type of Hstart with
  | context [buildSpan ?a ?b ?c ?d ?e ?f ?g] =>
      pose proof (buildSpan_frame a b c d e f g) as Hframe;
      pose proof (buildSpan_core a b c d e f g) as Hcore;
      destruct (buildSpan a b c d e f g) as [s w2]
  end.
  exists s, w2. destruct Hframe as [Hframe _]. destruct Hcore as [Hcore _].
  rewrite Hg, Hty in Hframe. rewrite Hpar in Hcore.
  unfold spanFrame in Hframe. injection Hframe as Hsg Hst _ _.
  unfold spanCore in Hcore. injection Hcore as _ _ _ _ Htid _ Hpid _ Hbag.
  repeat split; try done. unfold isRecording. by rewrite Hsg.
Qed.

End CodecRoundTrip.

(** ** The registry over the life of a Tracer *)

Lemma app_singleton_split (l mid after : list nat) (a : nat) :
  (a ∉ l) -> (a ∉ mid) -> (l ++ [a])%list = (mid ++ a :: after)%list ->
  mid = l /\ after = [].
Proof.
  revert mid. induction l as [| x l IH]; intros mid Hl Hmid Heq.
  - destruct mid as [| y mid]; cbn in Heq.
    + by injection Heq as <-.
    + injection Heq as <- Heq. destruct Hmid. by left.
  - destruct mid as [| y mid]; cbn in Heq.
    + injection Heq as -> Heq. destruct Hl. by left.
    + injection Heq as <- Heq.
      destruct (IH mid) as [-> ->]; try done.
      * intros Hin. apply Hl. by right.
      * intros Hin. apply Hmid. by right.
Qed.

Lemma registryRemove_registryAdd (reg : tracerRegistryImpl) (a : nat) :
  (a ∉ tracers reg) -> registryRemove (registryAdd reg a) a = Returns reg.
Proof.
  intros Hfresh.
  destruct (removeLoop_spec (tracers reg ++ [a]) a (tracers reg ++ [a]) [])
    as [_ Hpresent]; [done | apply not_elem_of_nil |].
  destruct Hpresent as (mid & after & Heq & Hmid & Hloop).
  { apply elem_of_app. right. by left. }
  destruct (app_singleton_split _ _ _ _ Hfresh Hmid Heq) as [-> ->].
  unfold registryRemove, registryAdd. cbn [tracers length] in *.
  rewrite Hloop. cbn [app]. rewrite app_nil_r. by destruct reg.
Qed.

(** X22 (NewTracer, Close): a Tracer made by [NewTracer] at an address the
    registry does not hold, and closed at once, leaves the registry as it
    was before [NewTracer]; [Close] closes the shadow tracer the Tracer was
    given by [updateShadowTracer] and leaves the Tracer without one.
    [updateShadowTracer] works in place: the Tracer keeps its address. *)
Theorem NewTracer_Close (updateShadowTracer : Tracer -> Tracer)
    (reg : tracerRegistryImpl) (a : nat) :
  (forall t, addr (updateShadowTracer t) = addr t) ->
  (a ∉ tracers reg) ->
  let '(t, reg1) := NewTracer updateShadowTracer reg a in
  addr t = a
  /\ Close reg1 t =
       Returns (reg,
                {| addr := a; forceRealSpans := forceRealSpans t;
                   shadowTracerPtr := None |},
                getShadowTracer t).
Proof.
  intros Hplace Hfresh. unfold NewTracer, Close, setShadowTracer.
  rewrite Hplace. cbn [addr]. split; [reflexivity |].
  by rewrite (registryRemove_registryAdd _ _ Hfresh).
Qed.

(** X23 (Close): in a registry without duplicates, a Tracer that was closed
    cannot be closed again: the second [Close] panics.  The first one
    returns the shadow tracer the Tracer had, leaves the Tracer without
    one, and keeps every other Tracer registered. *)
Theorem Close_twice (reg reg' : tracerRegistryImpl) (t t' : Tracer)
    (closed : option shadowTracer) :
  NoDup (tracers reg) ->
  Close reg t = Returns (reg', t', closed) ->
  Close reg' t' = Panics "removing unknown tracer"
  /\ closed = getShadowTracer t /\ getShadowTracer t' = None
  /\ forall x, x <> addr t -> (x ∈ tracers reg' <-> x ∈ tracers reg).
Proof.
  intros Hnd Hclose. unfold Close in Hclose.
  destruct (registryRemove reg (addr t)) as [reg1 | msg] eqn:Hrem; [| discriminate].
  cbn in Hclose. injection Hclose as <- <- <-.
  destruct (registryRemove_NoDup _ _ _ Hnd Hrem) as [Hgone Hothers].
  repeat split; try done; try apply Hothers; try done.
  unfold Close. cbn [addr].
  destruct (removeLoop_spec (tracers reg1) (addr t) (tracers reg1) [])
    as [Habsent _]; [done | apply not_elem_of_nil |].
  unfold registryRemove. cbn [length] in Habsent. by rewrite (Habsent Hgone).
Qed.

(** ** Child spans *)

Section ChildSpanProperties.

Variable IsBlackHoleSpan : Span -> bool.
Variable shadowSpanContext : shadowSpanT -> option ShadowCtx.

(** What [StartChildSpan] makes of a parent that is a real span. *)
Lemma StartChildSpan_real w op p sep :
  IsBlackHoleSpan (spanPtr p) = false ->
  shadowLinked p ->
  exists s w',
    StartChildSpan IsBlackHoleSpan shadowSpanContext w op (spanPtr p) sep
      = Returns (spanPtr s, w')
    /\ spanCore s =
         (tracer p, op, clock w, 0, span_TraceID p, draw 0 w, span_SpanID p,
          None, span_Baggage p)
    /\ span_shadowTr s = span_shadowTr p
    /\ shadowLink s =
         match span_shadowTr p with
         | Some _ =>
             (fun sh => (op, clock w,
                         (fun c => (ChildOfRef, c)) <$> shadowSpanContext sh))
               <$> shadowSpan p
         | None => None
         end
    /\ tags s =
         (if negb (isNone (netTr p)) || negb (isNone (span_shadowTr p))
          then TagString <$> span_Baggage p else ∅)
    /\ span_recordingGroup s =
         (fun g => if sep then fresh (spanGroups w) else g) <$> span_recordingGroup p
    /\ span_recordingType s =
         match span_recordingGroup p with
         | Some _ => span_recordingType p
         | None => SingleNodeRecording
         end
    /\ w' = if sep && negb (isNone (span_recordingGroup p))
            then (newSpanGroup (afterDraws 1 w)).2 else afterDraws 1 w.
Proof.
  intros Hbh Hlinked. unfold StartChildSpan. rewrite Hbh. cbn [spanTracer].
  rewrite map_fold_copy, Int63_draw.
  set (s0 := set_SpanID _ _).
  assert (H0 : spanCore s0 =
            (tracer p, op, clock w, 0, span_TraceID p, draw 0 w, span_SpanID p,
             None, span_Baggage p)
          /\ spanFrame s0 = (None, SingleNodeRecording, None, true)
          /\ tags s0 = ∅ /\ operation s0 = op /\ startTime s0 = clock w).
  { unfold s0.
    destruct (0 <? Z.of_nat (size (span_Baggage p))) eqn:Esize; [done |].
    assert (span_Baggage p = ∅) as ->
      by (apply map_size_empty_inv; apply Z.ltb_ge in Esize; lia).
    done. }
  clearbody s0. destruct H0 as (Hcore & Hframe & Htags & Hop & Hst).
  assert (Hbag : span_Baggage s0 = span_Baggage p).
  { unfold spanCore in Hcore. by injection Hcore. }
  unfold shadowLinked in Hlinked.
  destruct (span_shadowTr p) as [shTr |] eqn:Etr.
  - destruct (shadowSpan p) as [sh |] eqn:Esh; [| by destruct Hlinked].
    rewrite orb_true_r.
    set (s1 := linkShadowSpan _ _ _ _).
    assert (H1 : spanCore s1 = spanCore s0 /\ tags s1 = tags s0
                 /\ span_shadowTr s1 = Some shTr
                 /\ shadowLink s1 =
                      Some (op, clock w,
                            (fun c => (ChildOfRef, c)) <$> shadowSpanContext sh)
                 /\ span_recordingGroup s1 = None
                 /\ span_recordingType s1 = SingleNodeRecording).
    { unfold s1, shadowLink. cbn. rewrite Hop, Hst.
      unfold spanFrame in Hframe. injection Hframe as -> -> _ _. done. }
    clearbody s1. destruct H1 as (Hc1 & Ht1 & Htr1 & Hl1 & Hg1 & Hty1).
    assert (Hbag1 : span_Baggage s1 = span_Baggage p).
    { rewrite Hcore in Hc1. unfold spanCore in Hc1. by injection Hc1. }
    cbv zeta. rewrite Hbag1.
    set (s2 := map_fold _ s1 _).
    assert (H2 : spanCore s2 = spanCore s1 /\ spanFrame s2 = spanFrame s1
                 /\ shadowLink s2 = shadowLink s1
                 /\ tags s2 = (TagString <$> span_Baggage p) ∪ tags s1).
    { unfold s2. by rewrite (map_fold_SetTag_core TagString),
        (map_fold_SetTag_frame TagString),
        (map_fold_SetTag_shadowLink TagString),
        (map_fold_SetTag_tags TagString). }
    clearbody s2. destruct H2 as (Hc2 & Hf2 & Hl2 & Ht2).
    rewrite Ht1, Htags, (right_id_L ∅ (∪)) in Ht2.
    rewrite Hc1, Hcore in Hc2. rewrite Hl1 in Hl2.
    unfold spanFrame in Hf2. rewrite Hg1, Hty1, Htr1 in Hf2.
    injection Hf2 as Hg2 Hty2 Htr2 _.
    destruct (span_recordingGroup p) as [g |]; [destruct sep |];
      cbn [newSpanGroup afterDraws spanGroups andb negb isNone fmap option_fmap
           option_map snd];
      eexists _, _; (split; [reflexivity |]);
      unfold enableRecording, spanCore, shadowLink in *; cbn;
      repeat split; try done; by destruct sep.
  - rewrite orb_false_r.
    set (s2 := if negb (isNone (netTr p)) then _ else _).
    assert (H2 : spanCore s2 = spanCore s0 /\ spanFrame s2 = spanFrame s0
                 /\ shadowLink s2 = shadowLink s0
                 /\ tags s2 = (if negb (isNone (netTr p))
                               then TagString <$> span_Baggage p else ∅)).
    { unfold s2. destruct (negb (isNone (netTr p))); [| done].
      rewrite (map_fold_SetTag_core TagString),
        (map_fold_SetTag_frame TagString),
        (map_fold_SetTag_shadowLink TagString),
        (map_fold_SetTag_tags TagString).
      by rewrite Hbag, Htags, (right_id_L ∅ (∪)). }
    clearbody s2. destruct H2 as (Hc2 & Hf2 & Hl2 & Ht2).
    rewrite Hcore in Hc2. rewrite Hframe in Hf2.
    assert (Hl0 : shadowLink s0 = None).
    { unfold shadowLink. unfold spanFrame in Hframe.
      injection Hframe as _ _ _ Hnone. by destruct (shadowSpan s0). }
    rewrite Hl0 in Hl2.
    unfold spanFrame in Hf2. injection Hf2 as Hg2 Hty2 Htr2 _.
    destruct (span_recordingGroup p) as [g |]; [destruct sep |];
      cbn [newSpanGroup afterDraws spanGroups andb negb isNone fmap option_fmap
           option_map snd];
      eexists _, _; (split; [reflexivity |]);
      unfold enableRecording, spanCore, shadowLink in *; cbn;
      repeat split; try done; by destruct sep.
Qed.

Lemma StartChildSpan_returns_inv w op parentSpan sep s w' :
  StartChildSpan IsBlackHoleSpan shadowSpanContext w op parentSpan sep
    = Returns (spanPtr s, w') ->
  IsBlackHoleSpan parentSpan = false
  /\ exists p, parentSpan = spanPtr p /\ shadowLinked p.
Proof.
  unfold StartChildSpan. destruct (IsBlackHoleSpan parentSpan); [discriminate |].
  destruct parentSpan as [a | p]; [discriminate |]. intros Hret.
  split; [done |]. exists p. split; [done |]. intros Htr.
  destruct (span_shadowTr p); [| done].
  destruct (shadowSpan p); [done |].
  by rewrite Int63_draw in Hret.
Qed.


(** X25 (StartChildSpan): the child of a real span that is not a black hole
    belongs to the parent's Tracer and trace: it has the parent's trace id
    and baggage, the parent's span id as parent id, a span id drawn from the
    random source (one draw, below 2^63), the current time as start time,
    and no net/trace instance of its own. *)
Theorem StartChildSpan_identity w op p sep :
  IsBlackHoleSpan (spanPtr p) = false ->
  shadowLinked p ->
  exists s w',
    StartChildSpan IsBlackHoleSpan shadowSpanContext w op (spanPtr p) sep
      = Returns (spanPtr s, w')
    /\ tracer s = tracer p /\ operation s = op /\ startTime s = clock w
    /\ span_TraceID s = span_TraceID p /\ parentSpanID s = span_SpanID p
    /\ span_Baggage s = span_Baggage p
    /\ span_SpanID s = draw 0 w /\ 0 <= span_SpanID s < 2 ^ 63
    /\ netTr s = None
    /\ randPos w' = S (randPos w).
Proof.
  intros Hbh Hl.
  destruct (StartChildSpan_real w op p sep Hbh Hl)
    as (s & w' & Heq & Hcore & _ & _ & _ & _ & _ & Hw).
  exists s, w'. split; [done |].
  unfold spanCore in Hcore. injection Hcore as -> -> -> _ -> -> -> -> ->.
  repeat split; try done.
  - unfold draw. apply Z.mod_pos_bound. lia.
  - unfold draw. apply Z.mod_pos_bound. lia.
  - rewrite Hw. destruct (sep && _); cbn; lia.
Qed.

(** X26 (StartChildSpan): a child span records exactly when its parent
    does, with the parent's recording type: in the parent's group, or, when
    a separate recording is asked for, in a group allocated by the call.
    No group is allocated otherwise. *)
Theorem StartChildSpan_recording w op p sep s w' :
  StartChildSpan IsBlackHoleSpan shadowSpanContext w op (spanPtr p) sep
    = Returns (spanPtr s, w') ->
  match span_recordingGroup p with
  | Some g =>
      span_recordingType s = span_recordingType p
      /\ if sep
         then exists g', span_recordingGroup s = Some g'
                         /\ (g' ∉ spanGroups w)
                         /\ spanGroups w' = {[g']} ∪ spanGroups w
         else span_recordingGroup s = Some g /\ spanGroups w' = spanGroups w
  | None => span_recordingGroup s = None /\ spanGroups w' = spanGroups w
  end.
Proof.
  intros Hret.
  destruct (StartChildSpan_returns_inv _ _ _ _ _ _ Hret)
    as (Hbh & p' & [= <-] & Hl).
  destruct (StartChildSpan_real w op p sep Hbh Hl)
    as (s1 & w1 & Heq & _ & _ & _ & _ & Hg & Hty & Hw).
  rewrite Heq in Hret. injection Hret as <- <-.
  destruct (span_recordingGroup p) as [g |]; cbn in Hg.
  - split; [done |]. destruct sep; cbn in Hw; rewrite Hw; cbn.
    + exists (fresh (spanGroups w)). repeat split; try done. apply is_fresh.
    + done.
  - rewrite andb_false_r in Hw. by rewrite Hw.
Qed.

(** X27 (StartChildSpan): the child of a span mirrored in a shadow tracer
    is mirrored in the same shadow tracer, as a child of the context of the
    parent's mirrored span, and has the baggage items as tags. *)
Theorem StartChildSpan_shadow w op p sep s w' shTr sh :
  span_shadowTr p = Some shTr ->
  shadowSpan p = Some sh ->
  StartChildSpan IsBlackHoleSpan shadowSpanContext w op (spanPtr p) sep
    = Returns (spanPtr s, w') ->
  span_shadowTr s = Some shTr
  /\ shadowLink s =
       Some (op, clock w, (fun c => (ChildOfRef, c)) <$> shadowSpanContext sh)
  /\ tags s = TagString <$> span_Baggage p.
Proof.
  intros Htr Hsh Hret.
  destruct (StartChildSpan_returns_inv _ _ _ _ _ _ Hret)
    as (Hbh & p' & [= <-] & Hl).
  destruct (StartChildSpan_real w op p sep Hbh Hl)
    as (s1 & w1 & Heq & _ & Htr1 & Hl1 & Htags & _).
  rewrite Heq in Hret. injection Hret as <- <-.
  rewrite Htr, Hsh in *. cbn in Hl1. rewrite orb_true_r in Htags. done.
Qed.



End ChildSpanProperties.

(** X30 (EnsureContext): [EnsureContext] returns, and the context it
    returns carries a span.  A context with a span is returned as it is,
    with nothing to finish and nothing changed.  For a context without one,
    the span to finish is the span of the returned context, started by the
    Tracer: its noop span exactly when net/trace is off, no shadow tracer is
    configured and real spans are not forced. *)
Theorem EnsureContext_spec w ctx t name :
  exists ctx' finish w',
    EnsureContext w ctx t name = Returns (ctx', finish, w')
    /\ SpanFromContext ctx' <> None
    /\ match SpanFromContext ctx with
       | Some _ => ctx' = ctx /\ finish = None /\ w' = w
       | None =>
           exists sp,
             finish = Some sp /\ SpanFromContext ctx' = Some sp
             /\ spanTracer sp = addr t
             /\ (sp = noopSpanOf t
                 <-> enableNetTrace w = false /\ getShadowTracer t = None
                     /\ forceRealSpans t = false)
       end.
Proof.
  unfold EnsureContext, SpanFromContext.
  destruct ctx as [sp |]; [by eexists _, _, _ |].
  pose proof (StartSpan_root t w name [] eq_refl eq_refl) as Hroot.
  cbn [existsb negb andb] in Hroot.
  destruct (isNone (getShadowTracer t) && negb (enableNetTrace w)
            && negb (forceRealSpans t)) eqn:Hoff.
  - rewrite Hroot. eexists _, _, _. split; [reflexivity |]. split; [done |].
    exists (noopSpanOf t). repeat split; try done;
      apply andb_prop in Hoff as [Hoff Hforce];
      apply andb_prop in Hoff as [Hsh Hnet].
    + by destruct (enableNetTrace w).
    + by destruct (getShadowTracer t).
    + by destruct (forceRealSpans t).
  - destruct (buildSpan _ _ _ _ _ _ _) as [s w2] eqn:Hbuild.
    rewrite Hroot. eexists _, _, _. split; [reflexivity |]. split; [done |].
    exists (spanPtr s).
    pose proof (buildSpan_core t name
                  (foldl (fun sso o => Apply o sso) emptyStartSpanOptions [])
                  (enableNetTrace w) (getShadowTracer t) noParent w) as Hcore.
    rewrite Hbuild in Hcore. destruct Hcore as [Hcore _].
    unfold spanCore in Hcore. injection Hcore as Ht _ _ _ _ _ _ _ _.
    repeat split; try done.
    intros (Hnet & Hsh & Hforce). rewrite Hnet, Hsh, Hforce in Hoff. done.
Qed.

End Tracing.

(** * The statements at concrete inputs *)

Lemma map_to_list_range (m : gmap string string) : map_to_list m ≡ₚ map_to_list m.
Proof. reflexivity. Qed.

Lemma StartSpan_fast_path_witness :
  StartSpan (ShadowCtx := unit) plainTracer quietWorld "op"
    [Tag "k" (TagBool true); FollowsFrom noopSpanContext; ChildOf nilSpanContext]
  = Returns (noopSpanOf plainTracer, quietWorld).
Proof.
  apply StartSpan_fast_path; [reflexivity | reflexivity | reflexivity | | reflexivity].
  intros Hin. repeat (apply elem_of_cons in Hin as [Hin | Hin]; [discriminate |]).
  by apply elem_of_nil in Hin.
Defined.

Lemma StartSpan_snowball_witness :
  exists s w' g,
    StartSpan (ShadowCtx := unit) plainTracer quietWorld "op"
      [ChildOf noopSpanContext; ChildOf (spanContextPtr snowballParent)]
    = Returns (spanPtr s, w')
    /\ span_recordingGroup s = Some g
    /\ (g ∉ spanGroups quietWorld)
    /\ g ∈ spanGroups w'
    /\ span_recordingType s = SnowballRecording
    /\ isRecording s = true.
Proof.
  apply (StartSpan_snowball plainTracer quietWorld "op" _ ChildOfRef snowballParent "1");
    [reflexivity | reflexivity | reflexivity | discriminate].
Defined.

Example StartSpan_snowball_run :
  match StartSpan (ShadowCtx := unit) plainTracer quietWorld "op"
          [ChildOf (spanContextPtr snowballParent)] with
  | Returns (spanPtr s, w') =>
      Some (span_recordingGroup s, span_recordingType s, span_TraceID s,
            parentSpanID s, elements (spanGroups w'))
  | _ => None
  end = Some (Some 1%nat, SnowballRecording, 10, 11, [1%nat; 0%nat]).
Proof. vm_compute. reflexivity. Qed.


Lemma StartSpan_parent_shadow_witness :
  exists sp w',
    StartSpan (ShadowCtx := unit) shadowedTracer quietWorld "op"
      [ChildOf (spanContextPtr snowballParent)]
    = Returns (sp, w')
    /\ spanShadowTracer sp = shadowTr (ShadowCtx := unit) snowballParent
    /\ (shadowTr (ShadowCtx := unit) snowballParent = None -> spanShadowSpan sp = None).
Proof.
  apply (StartSpan_parent_shadow shadowedTracer quietWorld "op" _ ChildOfRef).
  reflexivity.
Defined.

(** Without a parent the same Tracer does mirror the span. *)
Example StartSpan_root_shadow :
  match StartSpan (ShadowCtx := unit) shadowedTracer quietWorld "op" [] with
  | Returns (sp, _) => shadowAddr <$> spanShadowTracer sp
  | _ => None
  end = Some 5%nat.
Proof. vm_compute. reflexivity. Qed.


Lemma Extract_corrupted_witness :
  Extract (ShadowCtx := unit) (fun s => s) map_to_list plainTracer TextMap
    (TextMapCarrier {[ "Crdb-Tracer-TraceID" := "12xz" ]})
  = (noopSpanContext, Some ErrSpanContextCorrupted).
Proof.
  apply (Extract_corrupted (fun s => s) map_to_list map_to_list_range
           plainTracer TextMap _ "Crdb-Tracer-TraceID" "12xz");
    [reflexivity | apply lookup_singleton_eq | by left | discriminate].
Defined.

Lemma Extract_no_ids_witness :
  Extract (ShadowCtx := unit) (fun s => s) map_to_list plainTracer HTTPHeaders
    (TextMapCarrier {[ "crdb-baggage-k" := "v" ]})
  = (noopSpanContext, None).
Proof.
  apply (Extract_no_ids (fun s => s) map_to_list map_to_list_range);
    [reflexivity |].
  intros k v Hkv. apply lookup_singleton_Some in Hkv as [<- <-].
  intros [H | H]; vm_compute in H; discriminate.
Defined.

Lemma Extract_zero_ids_witness :
  Extract (ShadowCtx := unit) (fun s => s) map_to_list plainTracer TextMap
    (TextMapCarrier (<[ "crdb-tracer-traceid" := "0" ]>
                       (<[ "crdb-tracer-spanid" := "000" ]>
                          {[ "crdb-baggage-k" := "v" ]})))
  = (noopSpanContext, None).
Proof.
  apply (Extract_zero_ids (fun s => s) map_to_list map_to_list_range);
    [reflexivity |].
  intros k v Hkv Hid.
  apply lookup_insert_Some in Hkv as [[<- <-] | [_ Hkv]]; [reflexivity |].
  apply lookup_insert_Some in Hkv as [[<- <-] | [_ Hkv]]; [reflexivity |].
  apply lookup_singleton_Some in Hkv as [<- <-].
  destruct Hid as [H | H]; vm_compute in H; discriminate.
Defined.

Lemma Extract_Inject_roundtrip_witness :
  exists (carrier : Carrier) (sc' : @spanContext unit),
    Inject (ShadowCtx := unit) plainTracer (spanContextPtr lowerKeyContext) TextMap
      (TextMapCarrier {[ "Content-Type" := "application/grpc" ]}) = (None, carrier)
    /\ Extract (fun s => s) map_to_list shadowedTracer TextMap carrier
       = (spanContextPtr sc', None)
    /\ TraceID sc' = TraceID (ShadowCtx := unit) lowerKeyContext
    /\ SpanID sc' = SpanID (ShadowCtx := unit) lowerKeyContext
    /\ Baggage sc' = Baggage (ShadowCtx := unit) lowerKeyContext.
Proof.
  apply (Extract_Inject_roundtrip (fun s => s) map_to_list map_to_list_range);
    [reflexivity | done | done | | reflexivity | |].
  - intros [H _]. discriminate.
  - intros k v Hkv. cbn [Baggage lowerKeyContext contextWith] in Hkv.
    apply lookup_singleton_Some in Hkv as [<- <-]. reflexivity.
  - intros k v Hkv. apply lookup_singleton_Some in Hkv as [<- <-].
    repeat split; solve [discriminate | reflexivity].
Defined.

Example Extract_Inject_run :
  Extract (ShadowCtx := unit) (fun s => s) map_to_list plainTracer TextMap
    (Inject (ShadowCtx := unit) plainTracer (spanContextPtr lowerKeyContext) TextMap
       (TextMapCarrier ∅)).2
  = (spanContextPtr lowerKeyContext, None).
Proof. vm_compute. reflexivity. Qed.

(** C1, as stated, fails on real contexts without shadow tracer: a baggage
    key with an upper-case letter comes back lower-cased; a context whose
    two ids are zero comes back as the noop context; and a baggage entry the
    carrier held before [Inject] comes back as baggage of the context. *)
Lemma Extract_Inject_not_identity :
  (exists (m : gmap string string) (sc' : @spanContext unit),
     Inject (ShadowCtx := unit) plainTracer (spanContextPtr upperKeyContext) TextMap
       (TextMapCarrier ∅) = (None, TextMapCarrier m)
     /\ Extract (fun s => s) map_to_list plainTracer TextMap (TextMapCarrier m)
        = (spanContextPtr sc', None)
     /\ Baggage sc' = {[ "k" := "v" ]}
     /\ Baggage sc' <> Baggage (ShadowCtx := unit) upperKeyContext)
  /\ (exists m,
        Inject (ShadowCtx := unit) plainTracer (spanContextPtr zeroIdContext) TextMap
          (TextMapCarrier ∅) = (None, TextMapCarrier m)
        /\ Extract (ShadowCtx := unit) (fun s => s) map_to_list plainTracer TextMap
             (TextMapCarrier m)
           = (noopSpanContext, None))
  /\ (exists (m : gmap string string) (sc' : @spanContext unit),
        Inject (ShadowCtx := unit) plainTracer (spanContextPtr lowerKeyContext) TextMap
          (TextMapCarrier {[ "crdb-baggage-old" := "x" ]}) = (None, TextMapCarrier m)
        /\ Extract (fun s => s) map_to_list plainTracer TextMap (TextMapCarrier m)
           = (spanContextPtr sc', None)
        /\ Baggage sc' !! "old" = Some "x"
        /\ Baggage sc' <> Baggage (ShadowCtx := unit) lowerKeyContext).
Proof.
  split; [| split].
  - eexists _, (contextWith 48879 2 {[ "k" := "v" ]}).
    split; [reflexivity |]. split; [vm_compute; reflexivity |].
    split; [reflexivity |].
    intros H. apply (f_equal (fun m => m !! "K")) in H.
    vm_compute in H. discriminate.
  - eexists. split; [reflexivity |]. vm_compute. reflexivity.
  - eexists _, (contextWith 48879 2 (<[ "old" := "x" ]> {[ "k" := "v" ]})).
    split; [reflexivity |]. split; [vm_compute; reflexivity |].
    split; [reflexivity |].
    intros H. apply (f_equal (fun m => m !! "old")) in H.
    vm_compute in H. discriminate.
Qed.

(** ** The further statements at concrete inputs *)

Lemma StartSpan_recordable_witness :
  exists s w',
    StartSpan (ShadowCtx := unit) plainTracer quietWorld "op" [Recordable]
    = Returns (spanPtr s, w').
Proof.
  apply StartSpan_recordable; [by left |].
  intros [ty H]. vm_compute in H. discriminate.
Defined.

Lemma StartSpan_forced_witness :
  exists s w',
    StartSpan (ShadowCtx := unit) plainTracer debugWorld "op" [Tag "k" (TagBool true)]
    = Returns (spanPtr s, w')
    /\ netTr s = Some {| nt_family := "tracing"; nt_title := "op";
                         nt_maxEvents := 1000 |}.
Proof.
  eapply (StartSpan_forced plainTracer debugWorld "op" [Tag "k" (TagBool true)]);
    [by right | reflexivity |].
  intros [ty H]. vm_compute in H. discriminate.
Defined.

Lemma StartSpan_real_span_reason_witness :
  Recordable ∈ ([] : list (@StartSpanOption unit))
  \/ enableNetTrace quietWorld = true
  \/ forceRealSpans (ShadowCtx := unit) forcedTracer = true
  \/ (resolvedParent (ShadowCtx := unit) [] = None
      /\ getShadowTracer (ShadowCtx := unit) forcedTracer <> None)
  \/ (exists ty pc, resolvedParent (ShadowCtx := unit) [] = Some (ty, spanContextPtr pc)
                    /\ (parentRecords pc \/ shadowTr pc <> None)).
Proof.
  eapply (StartSpan_real_span_reason forcedTracer quietWorld "op" []).
  vm_compute. reflexivity.
Defined.

Lemma StartSpan_root_identity_witness :
  exists s w',
    StartSpan (ShadowCtx := unit) forcedTracer quietWorld "op" []
    = Returns (spanPtr s, w')
    /\ span_TraceID s = draw 0 quietWorld /\ span_SpanID s = draw 1 quietWorld
    /\ 0 <= span_TraceID s < 2 ^ 63 /\ 0 <= span_SpanID s < 2 ^ 63
    /\ parentSpanID s = 0 /\ span_Baggage s = ∅
    /\ w' = afterDraws 2 quietWorld.
Proof.
  eexists _, _. split; [vm_compute; reflexivity |].
  eapply (StartSpan_root_identity forcedTracer quietWorld "op" []);
    [reflexivity | vm_compute; reflexivity].
Defined.

Lemma StartSpan_child_identity_witness :
  exists s w',
    StartSpan (ShadowCtx := unit) plainTracer quietWorld "op"
      [ChildOf (spanContextPtr snowballParent)]
    = Returns (spanPtr s, w')
    /\ span_TraceID s = 10 /\ parentSpanID s = 11
    /\ span_Baggage s = {[ Snowball := "1" ]}
    /\ span_SpanID s = draw 0 quietWorld /\ 0 <= span_SpanID s < 2 ^ 63
    /\ randPos w' = 1%nat.
Proof.
  eexists _, _. split; [vm_compute; reflexivity |].
  eapply (StartSpan_child_identity plainTracer quietWorld "op"
           [ChildOf (spanContextPtr snowballParent)] ChildOfRef snowballParent);
    [reflexivity | vm_compute; reflexivity].
Defined.

Lemma StartSpan_joins_recording_witness :
  exists s w',
    StartSpan (ShadowCtx := unit) plainTracer quietWorld "op"
      [FollowsFrom (spanContextPtr recordingParent)]
    = Returns (spanPtr s, w')
    /\ span_recordingGroup s = Some 0%nat
    /\ span_recordingType s = SnowballRecording
    /\ spanGroups w' = spanGroups quietWorld.
Proof.
  eapply (StartSpan_joins_recording plainTracer quietWorld "op" _
           FollowsFromRef recordingParent 0%nat); reflexivity.
Defined.

Lemma StartSpan_recording_inherited_witness :
  exists ty pc,
    resolvedParent (ShadowCtx := unit) [ChildOf (spanContextPtr snowballParent)]
    = Some (ty, spanContextPtr pc)
    /\ parentRecords pc.
Proof.
  eapply (StartSpan_recording_inherited plainTracer quietWorld "op"
            [ChildOf (spanContextPtr snowballParent)]);
    [vm_compute; reflexivity | reflexivity].
Defined.

Lemma StartSpan_start_time_witness :
  exists s w',
    StartSpan (ShadowCtx := unit) forcedTracer quietWorld "op"
      [StartTime 5; Tag "k" (TagBool true); StartTime 9]
    = Returns (spanPtr s, w')
    /\ startTime s = 9 /\ duration s = -1 /\ operation s = "op"
    /\ tracer s = 1%nat.
Proof.
  eexists _, _. split; [vm_compute; reflexivity |].
  eapply (StartSpan_start_time forcedTracer quietWorld "op"
           [StartTime 5; Tag "k" (TagBool true); StartTime 9]).
  vm_compute. reflexivity.
Defined.

Lemma StartSpan_baggage_tags_witness :
  exists s w',
    StartSpan (ShadowCtx := unit) plainTracer debugWorld "op"
      [ChildOf (spanContextPtr lowerKeyContext)]
    = Returns (spanPtr s, w')
    /\ forall k v, Baggage (ShadowCtx := unit) lowerKeyContext !! k = Some v ->
                   tags s !! k = Some (TagString v).
Proof.
  eexists _, _. split; [vm_compute; reflexivity |].
  eapply (StartSpan_baggage_tags plainTracer debugWorld "op"
           [ChildOf (spanContextPtr lowerKeyContext)] ChildOfRef lowerKeyContext);
    [reflexivity | vm_compute; reflexivity | by left].
Defined.

Lemma StartSpan_root_shadow_link_witness :
  exists s w',
    StartSpan (ShadowCtx := unit) shadowedTracer quietWorld "op" []
    = Returns (spanPtr s, w')
    /\ span_shadowTr s = Some lightstep
    /\ shadowLink s = Some ("op", 1500000000, None).
Proof.
  eexists _, _. split; [vm_compute; reflexivity |].
  eapply (StartSpan_root_shadow_link shadowedTracer quietWorld "op" []);
    [reflexivity | vm_compute; reflexivity].
Defined.

Lemma StartSpan_child_shadow_link_witness :
  exists s w',
    StartSpan (ShadowCtx := unit) plainTracer quietWorld "op"
      [FollowsFrom (spanContextPtr mirroredParent)]
    = Returns (spanPtr s, w')
    /\ shadowLink s = Some ("op", 1500000000, None).
Proof.
  eexists _, _. split; [vm_compute; reflexivity |].
  eapply (StartSpan_child_shadow_link plainTracer quietWorld "op"
           [FollowsFrom (spanContextPtr mirroredParent)]
           FollowsFromRef mirroredParent);
    [reflexivity | vm_compute; reflexivity].
Defined.

Lemma Inject_errors_witness :
  Inject (ShadowCtx := unit) plainTracer foreignSpanContext Binary OpaqueCarrier
  = (Some ErrUnsupportedFormat, OpaqueCarrier)
  /\ Inject (ShadowCtx := unit) plainTracer foreignSpanContext TextMap OpaqueCarrier
     = (Some ErrInvalidCarrier, OpaqueCarrier)
  /\ Inject (ShadowCtx := unit) plainTracer nilSpanContext HTTPHeaders
       (TextMapCarrier {[ "k" := "v" ]})
     = (Some ErrInvalidSpanContext, TextMapCarrier {[ "k" := "v" ]}).
Proof.
  split; [| split].
  - by apply (Inject_errors plainTracer foreignSpanContext Binary OpaqueCarrier).
  - by apply (Inject_errors plainTracer foreignSpanContext TextMap OpaqueCarrier).
  - apply (Inject_errors plainTracer nilSpanContext HTTPHeaders
             (TextMapCarrier {[ "k" := "v" ]}));
      [discriminate | reflexivity | by eexists | discriminate].
Defined.

Lemma Inject_shadow_witness :
  exists m',
    Inject (ShadowCtx := unit) plainTracer (spanContextPtr mirroredParent) TextMap
      (TextMapCarrier ∅)
    = (None, TextMapCarrier m')
    /\ m' !! fieldNameTraceID = Some "a"
    /\ m' !! fieldNameSpanID = Some "b"
    /\ m' !! fieldNameShadowType = Some "zipkin"
    /\ (forall k v, Baggage (ShadowCtx := unit) mirroredParent !! k = Some v ->
                    m' !! (prefixBaggage ++ k) = Some v)
    /\ (forall k v, shadowWritten [("span", "2a")] !! k = Some v ->
                    m' !! (prefixShadow ++ k) = Some v).
Proof.
  eapply (Inject_shadow plainTracer mirroredParent TextMap ∅ zipkin
           [("span", "2a")] None); reflexivity.
Defined.

Lemma Extract_corrupted_only_if_witness :
  exists k v,
    ({[ "Crdb-Tracer-SpanID" := "-1" ]} : gmap string string) !! k = Some v
    /\ isIdEntryKey (fun s => s) k /\ (ParseUint16 v).2 <> None.
Proof.
  eapply (Extract_corrupted_only_if (ShadowCtx := unit) (fun s => s) map_to_list
           map_to_list_range plainTracer TextMap _ noopSpanContext);
    [reflexivity | vm_compute; reflexivity].
Defined.

Lemma Extract_lowercase_carrier_witness :
  let m : gmap string string :=
    <[ "crdb-tracer-traceid" := "beef" ]> {[ "crdb-baggage-k" := "v" ]} in
  Extract (ShadowCtx := unit) (fun s => s) map_to_list plainTracer TextMap
    (TextMapCarrier m)
  = extractFinish (fun s => s) plainTracer TextMap
      {| es_TraceID := carrierId fieldNameTraceID m;
         es_SpanID := carrierId fieldNameSpanID m;
         es_Baggage := entriesUnder prefixBaggage m;
         shadowType := default "" (m !! fieldNameShadowType);
         shadowCarrier := entriesUnder prefixShadow m |}
  /\ (forall k, entriesUnder prefixBaggage m !! k = m !! (prefixBaggage ++ k))
  /\ (forall k, entriesUnder prefixShadow m !! k = m !! (prefixShadow ++ k)).
Proof.
  intros m.
  eapply (Extract_lowercase_carrier (ShadowCtx := unit) (fun s => s) map_to_list
           map_to_list_range plainTracer TextMap m); [reflexivity | |].
  - intros k v Hkv.
    apply lookup_insert_Some in Hkv as [[<- <-] | [_ Hkv]]; [reflexivity |].
    apply lookup_singleton_Some in Hkv as [<- <-]. reflexivity.
  - intros v [H | H]; vm_compute in H; [| discriminate].
    injection H as <-. reflexivity.
Defined.

Lemma Extract_shadow_discarded_witness :
  let m : gmap string string :=
    <[ "crdb-tracer-traceid" := "beef" ]>
      (<[ "crdb-tracer-shadowtype" := "zipkin" ]> {[ "crdb-shadow-span" := "2a" ]}) in
  Extract (ShadowCtx := unit) (fun s => s) map_to_list shadowedTracer TextMap
    (TextMapCarrier m)
  = Extract (fun s => s) map_to_list plainTracer TextMap (TextMapCarrier m).
Proof.
  intros m.
  eapply (Extract_shadow_discarded (ShadowCtx := unit) (fun s => s) map_to_list
           map_to_list_range shadowedTracer plainTracer TextMap m);
    [reflexivity |].
  intros tr k v [= <-] Hkv Hk Hty.
  apply lookup_insert_Some in Hkv as [[<- <-] | [_ Hkv]];
    [vm_compute in Hk; discriminate |].
  apply lookup_insert_Some in Hkv as [[<- <-] | [_ Hkv]];
    [vm_compute in Hty; discriminate |].
  apply lookup_singleton_Some in Hkv as [<- <-].
  vm_compute in Hk. discriminate.
Defined.

Lemma Extract_Inject_shadow_witness :
  exists carrier,
    Inject (ShadowCtx := unit) plainTracer (spanContextPtr mirroredParent) TextMap
      (TextMapCarrier ∅)
    = (None, carrier)
    /\ Extract (ShadowCtx := unit) (fun s => s) map_to_list zipkinTracer TextMap
         carrier
       = (spanContextPtr
            {| TraceID := 10; SpanID := 11; Baggage := {[ "k" := "v" ]};
               shadowTr := Some zipkin; shadowCtx := None;
               recordingGroup := None;
               recordingType := SingleNodeRecording |}, None).
Proof.
  eapply (Extract_Inject_shadow (ShadowCtx := unit) (fun s => s) map_to_list
           map_to_list_range plainTracer zipkinTracer TextMap mirroredParent
           zipkin zipkin [("span", "2a")]);
    [reflexivity | done | done | | | reflexivity | reflexivity | | discriminate
     | reflexivity | reflexivity].
  - intros [H _]. discriminate.
  - intros k v Hkv. cbn [Baggage mirroredParent] in Hkv.
    apply lookup_singleton_Some in Hkv as [<- <-]. reflexivity.
  - intros k v Hkv. unfold shadowWritten in Hkv. cbn [foldl fst snd] in Hkv.
    apply lookup_insert_Some in Hkv as [[<- <-] | [_ Hkv]]; [reflexivity |].
    by rewrite lookup_empty in Hkv.
Defined.

Lemma snowball_crosses_the_wire_witness :
  exists carrier (ctx : @SpanContext unit) (s : @span unit) w',
    Inject (ShadowCtx := unit) plainTracer (spanContextPtr snowballParent) TextMap
      (TextMapCarrier ∅)
    = (None, carrier)
    /\ Extract (fun s => s) map_to_list plainTracer TextMap carrier = (ctx, None)
    /\ StartSpan plainTracer quietWorld "op" [ChildOf ctx] = Returns (spanPtr s, w')
    /\ span_TraceID s = 10 /\ parentSpanID s = 11
    /\ span_Baggage s = {[ Snowball := "1" ]}
    /\ isRecording s = true /\ span_recordingType s = SnowballRecording
    /\ span_recordingGroup s = Some (fresh (spanGroups quietWorld)).
Proof.
  eapply (snowball_crosses_the_wire (ShadowCtx := unit) (fun s => s) map_to_list
           map_to_list_range plainTracer plainTracer quietWorld "op" TextMap
           snowballParent "1");
    [reflexivity | done | done | | | reflexivity | reflexivity | discriminate].
  - intros [H _]. discriminate.
  - intros k v Hkv. cbn [Baggage snowballParent contextWith] in Hkv.
    apply lookup_singleton_Some in Hkv as [<- <-]. reflexivity.
Defined.

Lemma NewTracer_Close_witness :
  let '(t, reg1) :=
    NewTracer (ShadowCtx := unit) (fun t => (setShadowTracer t (Some lightstep)).1)
      {| tracers := [1%nat; 2%nat] |} 3%nat in
  addr t = 3%nat
  /\ Close reg1 t =
       Returns ({| tracers := [1%nat; 2%nat] |},
                {| addr := 3%nat; forceRealSpans := false; shadowTracerPtr := None |},
                Some lightstep).
Proof.
  eapply (NewTracer_Close (ShadowCtx := unit)
            (fun t => (setShadowTracer t (Some lightstep)).1)
            {| tracers := [1%nat; 2%nat] |} 3%nat); [reflexivity |].
  intros H. repeat (apply elem_of_cons in H as [H | H]; [discriminate |]).
  by apply elem_of_nil in H.
Defined.

Lemma Close_twice_witness :
  exists reg' t' closed,
    Close (ShadowCtx := unit) {| tracers := [1%nat; 2%nat; 3%nat] |} shadowedTracer
    = Returns (reg', t', closed)
    /\ Close reg' t' = Panics "removing unknown tracer"
    /\ closed = Some lightstep /\ getShadowTracer t' = None
    /\ forall x, x <> 2%nat ->
         (x ∈ tracers reg' <-> x ∈ [1%nat; 2%nat; 3%nat]).
Proof.
  eexists _, _, _. split; [vm_compute; reflexivity |].
  eapply (Close_twice (ShadowCtx := unit) {| tracers := [1%nat; 2%nat; 3%nat] |} _
           shadowedTracer); [| vm_compute; reflexivity].
  repeat (apply NoDup_cons_2;
          [intros H; repeat (apply elem_of_cons in H as [H | H]; [discriminate |]);
           by apply elem_of_nil in H |]).
  apply NoDup_nil_2.
Defined.

Lemma StartChildSpan_identity_witness :
  exists s w',
    StartChildSpan (ShadowCtx := unit) isNoopSpan (fun _ => None) quietWorld "op"
      (spanPtr recordingSpan) false
    = Returns (spanPtr s, w')
    /\ tracer s = 1%nat /\ operation s = "op" /\ startTime s = 1500000000
    /\ span_TraceID s = 10 /\ parentSpanID s = 11
    /\ span_Baggage s = {[ "k" := "v" ]}
    /\ span_SpanID s = draw 0 quietWorld /\ 0 <= span_SpanID s < 2 ^ 63
    /\ netTr s = None
    /\ randPos w' = 1%nat.
Proof.
  eapply (StartChildSpan_identity (ShadowCtx := unit) isNoopSpan (fun _ => None)
           quietWorld "op" recordingSpan false); [reflexivity |].
  intros H. by destruct H.
Defined.

Lemma StartChildSpan_recording_witness :
  exists s w',
    StartChildSpan (ShadowCtx := unit) isNoopSpan (fun _ => None) quietWorld "op"
      (spanPtr recordingSpan) true
    = Returns (spanPtr s, w')
    /\ span_recordingType s = SnowballRecording
    /\ exists g', span_recordingGroup s = Some g'
                  /\ (g' ∉ spanGroups quietWorld)
                  /\ spanGroups w' = {[g']} ∪ spanGroups quietWorld.
Proof.
  eexists _, _. split; [vm_compute; reflexivity |].
  eapply (StartChildSpan_recording (ShadowCtx := unit) isNoopSpan (fun _ => None)
           quietWorld "op" recordingSpan true).
  vm_compute. reflexivity.
Defined.

Lemma StartChildSpan_shadow_witness :
  exists s w',
    StartChildSpan (ShadowCtx := unit) isNoopSpan (fun _ => None) quietWorld "op"
      (spanPtr mirroredSpan) false
    = Returns (spanPtr s, w')
    /\ span_shadowTr s = Some zipkin
    /\ shadowLink s = Some ("op", 1500000000, None)
    /\ tags s = TagString <$> {[ "k" := "v" ]}.
Proof.
  eexists _, _. split; [vm_compute; reflexivity |].
  eapply (StartChildSpan_shadow (ShadowCtx := unit) isNoopSpan (fun _ => None)
            quietWorld "op" mirroredSpan false);
    [reflexivity | reflexivity | vm_compute; reflexivity].
Defined.


